(** * SPI_Clock: a shallow embedding of the MAX6951 clock drivers

  The repository holds two programs that drive the same display board:

  - [SPI_Clock.c], the civil clock: a poll loop in [main] that reads the
    wall clock every 10 ms and rewrites the display when the tenth of a
    second changes;
  - [SPI_Sidereal.c], the sidereal clock: a timer callback
    [update_display] that converts the wall clock to local sidereal time,
    rewrites the display and re-arms an absolute one-shot timer through
    [schedule_timer].

  Integers of the C code are modelled as [Z], with the conversions to
  [unsigned char] and [unsigned int] written out as reductions modulo
  2^8 and 2^32, and C's truncating [/] and [%] as [Z.quot] and [Z.rem].
  The floating-point arithmetic of the sidereal conversion is modelled
  operation by operation, each result rounded to its format (module
  [Ieee]); the widths are those of gcc on x86-64 Linux: [int] has 32
  bits, [long] 64, and [long double] is the extended format of the x87.
  System calls are modelled by a small monad over an explicit
  environment that says which calls fail. *)

From Stdlib Require Import ZArith QArith Qround Qabs Qpower List String Ascii
  Bool Lia Lqa.
Import ListNotations.

Local Open Scope Z_scope.

(** ** C integer conversions *)

Module CInt.

(** Conversion to [unsigned char]. *)
Definition uchar (x : Z) : Z := x mod 2 ^ 8.

(** Conversion to [unsigned int]. *)
Definition uint (x : Z) : Z := x mod 2 ^ 32.

(** Conversion to [int] (two's complement, as gcc defines it). *)
Definition sint (x : Z) : Z := (x + 2 ^ 31) mod 2 ^ 32 - 2 ^ 31.

(** [#define _BV(n) (1 << n)] *)
Definition _BV (n : Z) : Z := Z.shiftl 1 n.

End CInt.
Export CInt.

(** ** Floating-point arithmetic

  The sidereal conversion computes in [long double], [double] and
  [float].  Every operation of IEEE 754 arithmetic gives the exact
  result rounded to the nearest value of its format, a tie going to the
  value whose last digit is even; a result beyond the largest value is
  an infinity, and below the smallest exponent the spacing of the
  values no longer shrinks.  A finite value is modelled by the rational
  number it denotes; the sign of a zero, which no comparison or
  conversion of the program observes, is left out.  The formats are
  those of gcc on x86-64 Linux: [float] is binary32, [double] is
  binary64, and [long double] is the extended format of the x87, with a
  significand of 64 bits. *)

Module Ieee.

Local Open Scope Q_scope.

(** The bits of the significand and the largest exponent. *)
Record format : Type := mk_format { prec : Z; emax : Z }.

Definition emin (f : format) : Z := (1 - emax f)%Z.

Definition binary32 : format := mk_format 24 127.
Definition binary64 : format := mk_format 53 1023.
Definition x87_extended : format := mk_format 64 16383.

Inductive fval : Type :=
| Finite (q : Q)
| Infinite (negative : bool)
| NaN.

Definition pow2 (e : Z) : Q := 2 ^ e.

(** The exponent of a positive value: [floor (log2 q)]. *)
Definition ilog2 (q : Q) : Z :=
  let e := (Z.log2 (Qnum q) - Z.log2 (Z.pos (Qden q)))%Z in
  if Qle_bool (pow2 e) q then e else (e - 1)%Z.

(** The nearest integer, a tie going to the even one. *)
Definition rne (m : Q) : Z :=
  let f := Qfloor m in
  match Qcompare (m - inject_Z f) (1 # 2) with
  | Lt => f
  | Gt => (f + 1)%Z
  | Eq => if Z.even f then f else (f + 1)%Z
  end.

(** The exponent of the last place of the values around [q]. *)
Definition quantum (f : format) (q : Q) : Z :=
  (Z.max (ilog2 (Qabs q)) (emin f) - prec f + 1)%Z.

(** [q] rounded to the nearest multiple of its last place. *)
Definition rounded (f : format) (q : Q) : Q :=
  if Qeq_bool q 0 then 0
  else inject_Z (rne (q / pow2 (quantum f q))) * pow2 (quantum f q).

Definition negative_Q (q : Q) : bool := negb (Qle_bool 0 q).

(** The value of the format the exact result [q] is delivered as. *)
Definition round (f : format) (q : Q) : fval :=
  let v := rounded f q in
  if Qle_bool (pow2 (emax f + 1)) (Qabs v)
  then Infinite (negative_Q q)
  else Finite (Qred v).

Definition opp (a : fval) : fval :=
  match a with
  | Finite q => Finite (- q)
  | Infinite s => Infinite (negb s)
  | NaN => NaN
  end.

Definition add (f : format) (a b : fval) : fval :=
  match a, b with
  | Finite x, Finite y => round f (x + y)
  | Finite _, Infinite s => Infinite s
  | Infinite s, Finite _ => Infinite s
  | Infinite s, Infinite t => if Bool.eqb s t then Infinite s else NaN
  | _, _ => NaN
  end.

Definition sub (f : format) (a b : fval) : fval := add f a (opp b).

Definition mul (f : format) (a b : fval) : fval :=
  match a, b with
  | Finite x, Finite y => round f (x * y)
  | Finite x, Infinite s | Infinite s, Finite x =>
      if Qeq_bool x 0 then NaN else Infinite (xorb s (negative_Q x))
  | Infinite s, Infinite t => Infinite (xorb s t)
  | _, _ => NaN
  end.

Definition div (f : format) (a b : fval) : fval :=
  match a, b with
  | Finite x, Finite y =>
      if Qeq_bool y 0
      then if Qeq_bool x 0 then NaN else Infinite (negative_Q x)
      else round f (x / y)
  | Finite _, Infinite _ => Finite 0
  | Infinite s, Finite y => Infinite (xorb s (negative_Q y))
  | _, _ => NaN
  end.

(** [a > b]; false when either is a NaN. *)
Definition gt (a b : fval) : bool :=
  match a, b with
  | Finite x, Finite y => negb (Qle_bool x y)
  | Finite _, Infinite s => s
  | Infinite s, Finite _ => negb s
  | Infinite s, Infinite t => negb s && t
  | _, _ => false
  end.

(** Whether two values are the same number or the same infinity. *)
Definition same (a b : fval) : bool :=
  match a, b with
  | Finite x, Finite y => Qeq_bool x y
  | Infinite s, Infinite t => Bool.eqb s t
  | _, _ => false
  end.

(** Conversion of an integer, and of a value of a wider format. *)
Definition of_Z (f : format) (z : Z) : fval := round f (inject_Z z).

Definition convert (f : format) (a : fval) : fval :=
  match a with
  | Finite q => round f q
  | _ => a
  end.

Definition truncate (q : Q) : Z := Z.quot (Qnum q) (Z.pos (Qden q)).

(** Conversion to a signed integer of [bits] bits: toward zero.  For a
    value that does not fit, an infinity or a NaN, which C leaves
    undefined, the x87 stores the most negative integer. *)
Definition to_integer (bits : Z) (a : fval) : Z :=
  match a with
  | Finite q =>
      let t := truncate q in
      if ((- 2 ^ (bits - 1) <=? t) && (t <? 2 ^ (bits - 1)))%Z
      then t else (- 2 ^ (bits - 1))%Z
  | _ => (- 2 ^ (bits - 1))%Z
  end.

(** [a] is the number [q]. *)
Definition is_value (a : fval) (q : Q) : Prop :=
  exists q', a = Finite q' /\ q' == q.

(** A number of the format: an integer of at most [prec] bits times a
    power of two that is not below the smallest one. *)
Definition representable (f : format) (q : Q) : Prop :=
  exists (m e : Z),
    q == inject_Z m * pow2 e
    /\ (Z.abs m <= 2 ^ prec f)%Z
    /\ (emin f - prec f + 1 <= e)%Z.

End Ieee.
Export Ieee.

(** ** The MAX6951 registers and segment masks (the same in both files) *)

Module Max6951.

Definition MAX_REG_DEC_MODE : Z := 0x01.
Definition MAX_REG_INTENSITY : Z := 0x02.
Definition MAX_REG_SCAN_LIMIT : Z := 0x03.
Definition MAX_REG_CONFIG : Z := 0x04.
Definition MAX_REG_CONFIG_R : Z := _BV 5.
Definition MAX_REG_CONFIG_T : Z := _BV 4.
Definition MAX_REG_CONFIG_E : Z := _BV 3.
Definition MAX_REG_CONFIG_B : Z := _BV 2.
Definition MAX_REG_CONFIG_S : Z := _BV 0.
Definition MAX_REG_TEST : Z := 0x07.

Definition MAX_REG_MASK_P0 : Z := 0x20.
Definition MAX_REG_MASK_P1 : Z := 0x40.
Definition MAX_REG_MASK_BOTH : Z := Z.lor MAX_REG_MASK_P0 MAX_REG_MASK_P1.

Definition MASK_DP : Z := _BV 7.
Definition MASK_A : Z := _BV 6.
Definition MASK_B : Z := _BV 5.
Definition MASK_C : Z := _BV 4.
Definition MASK_D : Z := _BV 3.
Definition MASK_E : Z := _BV 2.
Definition MASK_F : Z := _BV 1.
Definition MASK_G : Z := _BV 0.

(** Digit 7 has the two colons and the AM and PM lights. *)
Definition MASK_COLON_HM : Z := Z.lor MASK_E MASK_F.
Definition MASK_COLON_MS : Z := Z.lor MASK_B MASK_C.
Definition MASK_AM : Z := MASK_A.
Definition MASK_PM : Z := MASK_D.

(** Digit mapping ([SPI_Sidereal.c] names the positions; [SPI_Clock.c]
    uses the same numbers as literals). *)
Definition DIGIT_10_HR : Z := 0.
Definition DIGIT_1_HR : Z := 1.
Definition DIGIT_10_MIN : Z := 2.
Definition DIGIT_1_MIN : Z := 3.
Definition DIGIT_10_SEC : Z := 4.
Definition DIGIT_1_SEC : Z := 5.
Definition DIGIT_100_MSEC : Z := 6.
Definition DIGIT_MISC : Z := 7.

(** How the chip reads the data byte of a digit register.  The source
    fixes the sense in its comments: "When decoding is turned off, this
    is the bit mapping" (the segment masks), "When decoding is turned on,
    bits 0-3 are a hex value", and the decode register is built as
    [~_BV(7)], "All decode except 7". *)
Inductive digit_mode : Type :=
| Decoded      (* the byte is a numeral, the chip draws its segments *)
| RawSegments. (* the byte is a segment bitmask *)

Definition digit_mode_eqb (a b : digit_mode) : bool :=
  match a, b with
  | Decoded, Decoded | RawSegments, RawSegments => true
  | _, _ => false
  end.

End Max6951.
Export Max6951.

(** ** Time values *)

Record timespec : Type := mk_timespec { tv_sec : Z; tv_nsec : Z }.

(** The fields of [struct tm] the programs read. *)
Record tm : Type := mk_tm { tm_hour : Z; tm_min : Z; tm_sec : Z }.

(** A clock reading as the kernel delivers it. *)
Definition normalized (t : timespec) : Prop := 0 <= tv_nsec t < 1000000000.

(** The instant of a [timespec] in nanoseconds since the Unix epoch. *)
Definition nanos (t : timespec) : Z := tv_sec t * 1000000000 + tv_nsec t.

(** ** System calls

  The programs talk to the kernel through [clock_gettime], the SPI
  [ioctl], and (the sidereal clock) [timer_settime].  The environment
  [env] fixes what the n-th call of each returns; the state [sys] counts
  the calls and records what the process has done.  A computation
  returns a value, ends the process with [exit], or never comes to an
  end. *)

Module Sys.

Record env : Type := mk_env {
  (** the n-th [clock_gettime]: [None] is a non-zero return *)
  clock_at : nat -> option timespec;
  (** what the caller's uninitialised [struct timespec] holds when the
      n-th [clock_gettime] fails *)
  stack_at : nat -> timespec;
  (** the n-th [ioctl(spi_fd, SPI_IOC_MESSAGE(1), ...)]: [false] is a
      negative return *)
  ioctl_at : nat -> bool;
  (** the n-th [timer_settime]: [false] is a negative return *)
  timer_at : nat -> bool;
  (** [localtime_r], which depends on the time zone of the host *)
  localtime_r : Z -> tm
}.

Record sys : Type := mk_sys {
  clock_calls : nat;
  ioctl_calls : nat;
  timer_calls : nat;
  (** register/data pairs that reached the display, newest first *)
  wire : list (Z * Z);
  (** absolute expiry times given to the timer, newest first *)
  armed : list timespec;
  (** messages written by [perror], newest first *)
  stderr : list string
}.

Definition boot : sys := mk_sys 0 0 0 [] [] [].

Inductive outcome (A : Type) : Type :=
| Running (a : A) (s : sys)    (* the call returned *)
| Exited (code : Z) (s : sys)  (* the process called [exit(code)] *)
| Spinning (s : sys).          (* a loop that never ends was entered *)
Arguments Running {A} a s.
Arguments Exited {A} code s.
Arguments Spinning {A} s.

Definition M (A : Type) : Type := env -> sys -> outcome A.

Definition ret {A} (a : A) : M A := fun _ s => Running a s.

Definition bind {A B} (c : M A) (k : A -> M B) : M B :=
  fun e s =>
    match c e s with
    | Running a s' => k a e s'
    | Exited code s' => Exited code s'
    | Spinning s' => Spinning s'
    end.

Definition exit {A} (code : Z) : M A := fun _ s => Exited code s.

Definition spin {A} : M A := fun _ s => Spinning s.

Definition perror (msg : string) : M unit :=
  fun _ s =>
    Running tt (mk_sys (clock_calls s) (ioctl_calls s) (timer_calls s)
                       (wire s) (armed s) (msg :: stderr s)).

(** [clock_gettime(CLOCK_REALTIME, &now)]: the return value (true when
    it is non-zero) and the contents of [now] afterwards. *)
Definition clock_gettime : M (bool * timespec) :=
  fun e s =>
    let n := clock_calls s in
    let s' := mk_sys (S n) (ioctl_calls s) (timer_calls s)
                     (wire s) (armed s) (stderr s) in
    match clock_at e n with
    | Some t => Running (false, t) s'
    | None => Running (true, stack_at e n) s'
    end.

(** The SPI transfer of one register/data pair: true when [ioctl]
    returns a negative value; the pair reaches the display otherwise. *)
Definition spi_transfer (reg data : Z) : M bool :=
  fun e s =>
    let n := ioctl_calls s in
    if ioctl_at e n
    then Running false (mk_sys (clock_calls s) (S n) (timer_calls s)
                               ((reg, data) :: wire s) (armed s) (stderr s))
    else Running true (mk_sys (clock_calls s) (S n) (timer_calls s)
                              (wire s) (armed s) (stderr s)).

(** [timer_settime(timer_id, TIMER_ABSTIME, &spec, NULL)] with a zero
    interval: true when it returns a negative value. *)
Definition timer_settime (it_value : timespec) : M bool :=
  fun e s =>
    let n := timer_calls s in
    if timer_at e n
    then Running false (mk_sys (clock_calls s) (ioctl_calls s) (S n)
                               (wire s) (it_value :: armed s) (stderr s))
    else Running true (mk_sys (clock_calls s) (ioctl_calls s) (S n)
                              (wire s) (armed s) (stderr s)).

(** Whether a computation ended the process. *)
Definition exited {A} (o : outcome A) : bool :=
  match o with Exited _ _ => true | Running _ _ | Spinning _ => false end.

Definition final {A} (o : outcome A) : sys :=
  match o with Exited _ s | Running _ s | Spinning s => s end.

End Sys.
Export Sys.

Declare Scope sys_scope.
Delimit Scope sys_scope with sys.
Notation "x <- c ;; k" := (bind c (fun x => k))
  (at level 61, c at next level, right associativity) : sys_scope.
Notation "c ;; k" := (bind c (fun _ => k))
  (at level 61, right associativity) : sys_scope.
Local Open Scope sys_scope.

(** ** The C library's [atoi]

  glibc defines [atoi (nptr)] as [(int) strtol (nptr, NULL, 10)].
  [strtol] skips white space, reads an optional sign and then decimal
  digits up to the first character that is not one, and returns
  [LONG_MAX] or [LONG_MIN] for a value that does not fit a [long] of 64
  bits; the conversion to [int] keeps the low 32 bits. *)

Module Libc.

Definition isspace (c : ascii) : bool :=
  let n := Z.of_nat (nat_of_ascii c) in
  (n =? 32) || ((9 <=? n) && (n <=? 13)).

Definition digit_value (c : ascii) : option Z :=
  let n := Z.of_nat (nat_of_ascii c) in
  if (48 <=? n) && (n <=? 57) then Some (n - 48) else None.

Fixpoint skip_space (s : string) : string :=
  match s with
  | String c rest => if isspace c then skip_space rest else s
  | EmptyString => s
  end.

Fixpoint read_digits (acc : Z) (s : string) : Z :=
  match s with
  | String c rest =>
      match digit_value c with
      | Some d => read_digits (acc * 10 + d) rest
      | None => acc
      end
  | EmptyString => acc
  end.

(** The integer a string denotes. *)
Definition decimal_value (s : string) : Z :=
  match skip_space s with
  | String "-"%char rest => - read_digits 0 rest
  | String "+"%char rest => read_digits 0 rest
  | t => read_digits 0 t
  end.

Definition LONG_MAX : Z := 2 ^ 63 - 1.
Definition LONG_MIN : Z := - 2 ^ 63.

Definition strtol (s : string) : Z :=
  Z.max LONG_MIN (Z.min LONG_MAX (decimal_value s)).

Definition atoi (s : string) : Z := sint (strtol s).

End Libc.
Export Libc.

(** ** SPI_Clock.c: the civil clock *)

Module Clock.

(** The option variables of [main], with their initial values. *)
Record options : Type := mk_options {
  ampm : bool;        (* false for a 24 hour display *)
  brightness : Z;     (* 0-15 *)
  colon : bool;
  tenth : bool;
  background : bool
}.

Definition defaults : options := mk_options true 15 true true true.

(** One round of the [getopt] loop: [c] is the option character that
    [getopt] returned and [optarg] its argument.  [None] is the
    [default:] branch, [usage(); exit(1)]. *)
Definition handle_option (o : options) (c : ascii) (optarg : string)
  : option options :=
  if Ascii.eqb c "2" then
    Some (mk_options false (brightness o) (colon o) (tenth o) (background o))
  else if Ascii.eqb c "b" then
    Some (mk_options (ampm o) (uchar (Z.land (atoi optarg) 0xf))
                     (colon o) (tenth o) (background o))
  else if Ascii.eqb c "c" then
    Some (mk_options (ampm o) (brightness o) false (tenth o) (background o))
  else if Ascii.eqb c "d" then
    Some (mk_options (ampm o) (brightness o) (colon o) (tenth o) false)
  else if Ascii.eqb c "t" then
    Some (mk_options (ampm o) (brightness o) (colon o) false (background o))
  else None.

Fixpoint getopt_loop (o : options) (args : list (ascii * string))
  : option options :=
  match args with
  | [] => Some o
  | (c, optarg) :: rest =>
      match handle_option o c optarg with
      | Some o' => getopt_loop o' rest
      | None => None
      end
  end.

(** [write_reg]: a failed transfer is reported and the call returns. *)
Definition write_reg (reg data : Z) : M unit :=
  failed <- spi_transfer (uchar reg) (uchar data) ;;
  if (failed : bool) then perror "ioctl(SPI_IOC_MESSAGE(1))" else ret tt.

(** The start-up writes of [main]: leave shut-down, scan all 8 digits,
    set the intensity, flash the display test. *)
Definition startup (o : options) : M unit :=
  write_reg MAX_REG_CONFIG
    (Z.lor (Z.lor (Z.lor MAX_REG_CONFIG_R MAX_REG_CONFIG_B) MAX_REG_CONFIG_S)
           MAX_REG_CONFIG_E) ;;
  write_reg MAX_REG_SCAN_LIMIT 7 ;;
  write_reg MAX_REG_INTENSITY (brightness o) ;;
  write_reg MAX_REG_TEST 1 ;;
  write_reg MAX_REG_TEST 0.

(** Lines 228-236: the displayed hour [h] and the flag [pm]. *)
Definition civil_hour (ampm : bool) (tm_hour : Z) : Z * Z :=
  let h := uchar tm_hour in
  let pm := 0 in
  if ampm then
    if h =? 0 then (12, pm)
    else if h =? 12 then (h, 1)
    else if 12 <? h then (uchar (h - 12), 1)
    else (h, pm)
  else (h, pm).

(** Lines 241-247: the decode-mode register value. *)
Definition decode_val (o : options) (h : Z) : Z :=
  let val := uchar (Z.lnot (_BV 7)) in (* All decode except 7. *)
  let val := if ampm o && (h <? 10)
             then uchar (Z.land val (Z.lnot (_BV 0))) else val in
  let val := if negb (tenth o)
             then uchar (Z.land val (Z.lnot (_BV 6))) else val in
  val.

(** Lines 257-263: the byte of digit 7. *)
Definition misc_val (o : options) (pm : Z) : Z :=
  let val := 0 in
  let val := if colon o
             then uchar (Z.lor val (Z.lor MASK_COLON_HM MASK_COLON_MS))
             else val in
  let val := if ampm o
             then uchar (Z.lor val (if pm =? 0 then MASK_AM else MASK_PM))
             else val in
  val.

(** How the program means each digit's byte to be read: digit 7 carries
    segment masks; the tenths digit is "turned off" and written a 0 when
    [-t] is given; the tens of hours is blanked the same way for a
    leading zero of the 12 hour display; all others are numerals. *)
Definition digit_meant (o : options) (h : Z) (digit : Z) : digit_mode :=
  if digit =? 7 then RawSegments
  else if (digit =? 6) && negb (tenth o) then RawSegments
  else if (digit =? 0) && ampm o && (h <? 10) then RawSegments
  else Decoded.

Definition ask_localtime (t : Z) : M tm :=
  fun e s => Running (localtime_r e t) s.

(** Lines 249-264: the nine register writes of one update. *)
Definition write_frame (o : options) (h pm : Z) (lt : tm) (tenth_val : Z)
  : M unit :=
  write_reg MAX_REG_DEC_MODE (decode_val o h) ;;
  write_reg (MAX_REG_MASK_BOTH + 0) (Z.quot h 10) ;;
  write_reg (MAX_REG_MASK_BOTH + 1) (Z.rem h 10) ;;
  write_reg (MAX_REG_MASK_BOTH + 2) (Z.quot (tm_min lt) 10) ;;
  write_reg (MAX_REG_MASK_BOTH + 3) (Z.rem (tm_min lt) 10) ;;
  write_reg (MAX_REG_MASK_BOTH + 4) (Z.quot (tm_sec lt) 10) ;;
  write_reg (MAX_REG_MASK_BOTH + 5)
    (Z.lor (Z.rem (tm_sec lt) 10) (if tenth o then MASK_DP else 0)) ;;
  write_reg (MAX_REG_MASK_BOTH + 6) (if tenth o then tenth_val else 0) ;;
  write_reg (MAX_REG_MASK_BOTH + 7) (misc_val o pm).

(** One pass of the [while(1)] loop of [main]; the value is the new
    [last_tenth].  A failed [clock_gettime] is reported and the pass
    goes on with whatever [now] holds.  The [nanosleep] that ends the
    pass only lets time go by, which the next reading of the
    environment shows. *)
Definition loop_body (o : options) (last_tenth : Z) : M Z :=
  r <- clock_gettime ;;
  (if fst r then perror "clock_gettime" else ret tt) ;;
  let now := snd r in
  lt <- ask_localtime (tv_sec now) ;;
  let hp := civil_hour (ampm o) (tm_hour lt) in
  let tenth_val := uint (Z.quot (tv_nsec now) (100 * 1000 * 1000)) in
  if negb (tenth_val =? last_tenth)
  then write_frame o (fst hp) (snd hp) lt tenth_val ;; ret tenth_val
  else ret last_tenth.

(** The first [passes] passes of the loop. *)
Fixpoint main_loop (passes : nat) (o : options) (last_tenth : Z) : M Z :=
  match passes with
  | O => ret last_tenth
  | S n => t <- loop_body o last_tenth ;; main_loop n o t
  end.

End Clock.

(** ** SPI_Sidereal.c: the sidereal clock *)

Module Sidereal.

Local Open Scope Z_scope.

Definition FUDGE : Z := 250 * 1000.
Definition SECOND_IN_NANOS : Z := 1000 * 1000 * 1000.
Definition TENTH_IN_NANOS : Z := Z.quot SECOND_IN_NANOS 10.
Definition HUNDREDTH_IN_NANOS : Z := Z.quot SECOND_IN_NANOS 100.

(** Both represent 1/1/2000 00:00 UTC ([EPOCH_JDATE] is with the
    conversion below). *)
Definition EPOCH_CTIME : Z := 946684800.

(** The globals set by the options, and the option variables of
    [main]. *)
Record options : Type := mk_options {
  colon : bool;
  colon_blink : bool;
  tenth_enable : bool;
  longitude : fval;   (* [volatile float longitude = 0.0] *)
  brightness : Z;     (* 0-15 *)
  background : bool
}.

Definition defaults : options :=
  mk_options true false true (Finite 0) 15 true.

Section Getopt.

(** The C library's [atof], which the model leaves open: the [double]
    a string denotes, a number, an infinity or a NaN. *)
Variable atof : string -> fval.

Definition handle_option (o : options) (c : ascii) (optarg : string)
  : option options :=
  if Ascii.eqb c "b" then
    Some (mk_options (colon o) (colon_blink o) (tenth_enable o)
            (longitude o) (uchar (Z.land (atoi optarg) 0xf)) (background o))
  else if Ascii.eqb c "B" then
    Some (mk_options (colon o) true (tenth_enable o)
            (longitude o) (brightness o) (background o))
  else if Ascii.eqb c "c" then
    Some (mk_options false (colon_blink o) (tenth_enable o)
            (longitude o) (brightness o) (background o))
  else if Ascii.eqb c "d" then
    Some (mk_options (colon o) (colon_blink o) (tenth_enable o)
            (longitude o) (brightness o) false)
  else if Ascii.eqb c "l" then
    Some (mk_options (colon o) (colon_blink o) (tenth_enable o)
            (convert Ieee.binary32 (atof optarg)) (brightness o)
            (background o))
  else if Ascii.eqb c "t" then
    Some (mk_options (colon o) (colon_blink o) false
            (longitude o) (brightness o) (background o))
  else None.

Fixpoint getopt_loop (o : options) (args : list (ascii * string))
  : option options :=
  match args with
  | [] => Some o
  | (c, optarg) :: rest =>
      match handle_option o c optarg with
      | Some o' => getopt_loop o' rest
      | None => None
      end
  end.

End Getopt.

(** [write_reg]: a failed transfer ends the process. *)
Definition write_reg (reg data : Z) : M unit :=
  failed <- spi_transfer (uchar reg) (uchar data) ;;
  if (failed : bool)
  then perror "ioctl(SPI_IOC_MESSAGE(1))" ;; exit 1
  else ret tt.

(** The start-up writes of [main]. *)
Definition startup (o : options) : M unit :=
  write_reg MAX_REG_CONFIG (Z.lor MAX_REG_CONFIG_R MAX_REG_CONFIG_S) ;;
  write_reg MAX_REG_SCAN_LIMIT 7 ;;
  write_reg MAX_REG_INTENSITY (brightness o) ;;
  write_reg MAX_REG_TEST 1 ;;
  write_reg MAX_REG_TEST 0.

(** *** schedule_timer *)

(** [while (tenth_val >= 10) { now.tv_sec++; tenth_val -= 10; }] *)
Fixpoint carry_loop (fuel : nat) (sec tenth_val : Z) : Z * Z :=
  match fuel with
  | O => (sec, tenth_val)
  | S n =>
      if 10 <=? tenth_val
      then carry_loop n (sec + 1) (tenth_val - 10)
      else (sec, tenth_val)
  end.

(** The expiry time [schedule_timer] computes from the reading [now]
    (lines 176-190).  The loop runs [tenth_val / 10] times at most, and
    leaves [tenth_val] below 10, so that the product with
    [TENTH_IN_NANOS] fits any width of [long]. *)
Definition wake_time (now : timespec) : timespec :=
  let hundredth_val := uint (Z.quot (tv_nsec now) HUNDREDTH_IN_NANOS) in
  let tenth_val := uint (Z.quot (uint (hundredth_val + 5)) 10 + 1) in
  let st := carry_loop (Z.to_nat (Z.quot tenth_val 10)) (tv_sec now) tenth_val in
  let sec := fst st in
  let tenth_val := snd st in
  if negb (tenth_val =? 0)
  then mk_timespec sec (tenth_val * TENTH_IN_NANOS - FUDGE)
  else mk_timespec (sec - 1) (SECOND_IN_NANOS - FUDGE).

Definition schedule_timer : M unit :=
  r <- clock_gettime ;;
  (if fst r then perror "clock_gettime" ;; exit 1 else ret tt) ;;
  failed <- timer_settime (wake_time (snd r)) ;;
  if (failed : bool) then perror "timer_settime" ;; exit 1 else ret tt.

(** *** The sidereal conversion of update_display *)

Local Open Scope Q_scope.

Definition long_double : format := x87_extended.
Definition double : format := binary64.
Definition float : format := binary32.

(** Arithmetic of [long]: two's complement on 64 bits. *)
Definition slong (x : Z) : Z := ((x + 2 ^ 63) mod 2 ^ 64 - 2 ^ 63)%Z.

(** [#define EPOCH_JDATE (2451544.5)] *)
Definition EPOCH_JDATE : fval := round double 2451544.5.

(** Line 221:
    [now_spec.tv_sec + ((long double)now_spec.tv_nsec) / SECOND_IN_NANOS] *)
Definition fraction (now_spec : timespec) : fval :=
  add long_double (of_Z long_double (tv_sec now_spec))
    (div long_double (of_Z long_double (tv_nsec now_spec))
                     (of_Z long_double SECOND_IN_NANOS)).

(** Line 223: [((now - EPOCH_CTIME) / 86400.0L) + EPOCH_JDATE] *)
Definition JD (now : fval) : fval :=
  add long_double
    (div long_double (sub long_double now (of_Z long_double EPOCH_CTIME))
                     (round long_double 86400))
    EPOCH_JDATE.

(** Line 225:
    [(((((long)(now / 86400)) * 86400) - EPOCH_CTIME) / 86400.0) + EPOCH_JDATE],
    the quotient and the sum in [double]. *)
Definition JD0 (now : fval) : fval :=
  add double
    (div double
       (of_Z double
          (slong (slong (to_integer 64 (div long_double now
                                            (of_Z long_double 86400))
                         * 86400)
                  - EPOCH_CTIME)))
       (round double 86400))
    EPOCH_JDATE.

(** [EPOCH_JDATE + .5], a sum of two [double]s. *)
Definition noon : fval := add double EPOCH_JDATE (round double 0.5).

(** Lines 227-229. *)
Definition D0 (now : fval) : fval := sub long_double (JD0 now) noon.
Definition H (now : fval) : fval :=
  mul long_double (sub long_double (JD now) (JD0 now)) (round double 24).
Definition T (now : fval) : fval :=
  div long_double (sub long_double (JD now) noon) (round double 36525).

(** Line 231: Greenwich mean sidereal time, in hours:
    [(6.697374558L + 0.06570982441908L * D0 + 1.00273790935L * H)
     + 0.000026 * T * T]. *)
Definition gmst (now : fval) : fval :=
  add long_double
    (add long_double
       (add long_double (round long_double 6.697374558)
          (mul long_double (round long_double 0.06570982441908) (D0 now)))
       (mul long_double (round long_double 1.00273790935) (H now)))
    (mul long_double (mul long_double (round double 0.000026) (T now)) (T now)).

(** Line 232: [gmst += (longitude / 360.0L) * 24.0L]. *)
Definition gmst_local (longitude : fval) (now : fval) : fval :=
  add long_double (gmst now)
    (mul long_double (div long_double longitude (round long_double 360))
                     (round long_double 24)).

(** Line 233: [while (gmst > 24.0) gmst -= 24.0].  The loop ends with a
    value that is not above 24, or goes on for ever: a subtraction that
    leaves the value as it was (an infinity, or a value so large that
    24 is lost in the rounding) will do so again. *)
Inductive loop : Type :=
| Ends (g : fval)
| Spins.

Fixpoint wrap_loop (fuel : nat) (g : fval) : loop :=
  if gt g (round double 24)
  then
    let g' := sub long_double g (round double 24) in
    if same g' g then Spins
    else match fuel with
         | O => Spins
         | S n => wrap_loop n g'
         end
  else Ends g.

(** A subtraction that changes the value takes off one at least
    ([wrap_loop_fuel]), so the whole part of the value is fuel
    enough. *)
Definition patience (g : fval) : nat :=
  match g with
  | Finite q => Z.to_nat (Qfloor q)
  | _ => O
  end.

Definition wrap (g : fval) : loop := wrap_loop (patience g) g.

(** The local sidereal hour value that is displayed. *)
Definition sidereal_hours (longitude : fval) (now_spec : timespec) : loop :=
  wrap (gmst_local longitude (fraction now_spec)).

Definition ends (l : loop) : bool :=
  match l with Ends _ => true | Spins => false end.

(** Lines 234-237. *)
Definition hour_of (g : fval) : Z := to_integer 32 g.
Definition minute_of (g : fval) : Z :=
  to_integer 32
    (mul long_double (sub long_double g (of_Z long_double (hour_of g)))
                     (of_Z long_double 60)).
Definition second_of (g : fval) : Z :=
  to_integer 32
    (mul long_double
       (sub long_double
          (mul long_double (sub long_double g (of_Z long_double (hour_of g)))
                           (round double 60))
          (of_Z long_double (minute_of g)))
       (of_Z long_double 60)).
Definition tenth_of (g : fval) : Z :=
  to_integer 32
    (mul long_double
       (sub long_double
          (mul long_double
             (sub long_double
                (mul long_double
                   (sub long_double g (of_Z long_double (hour_of g)))
                   (round double 60))
                (of_Z long_double (minute_of g)))
             (of_Z long_double 60))
          (of_Z long_double (second_of g)))
       (of_Z long_double 10)).

Local Open Scope Z_scope.

(** Lines 239-242: the decode-mode register value. *)
Definition decode_mask (o : options) : Z :=
  let decode_mask := uchar (Z.lnot (_BV DIGIT_MISC)) in
  let decode_mask :=
    if negb (tenth_enable o)
    then uchar (Z.land decode_mask (Z.lnot (_BV DIGIT_100_MSEC)))
    else decode_mask in
  decode_mask.

(** Lines 253-256: the byte of the misc digit. *)
Definition misc_digit (o : options) (s : Z) : Z :=
  let misc_digit := 0 in
  if colon o && (negb (colon_blink o) || (Z.rem s 2 =? 0))
  then uchar (Z.lor misc_digit (Z.lor MASK_COLON_HM MASK_COLON_MS))
  else misc_digit.

(** How the program means each digit's byte to be read: the misc digit
    carries segment masks; the tenths digit is "turned off" and written
    a 0 when [-t] is given; all others are numerals. *)
Definition digit_meant (o : options) (digit : Z) : digit_mode :=
  if digit =? DIGIT_MISC then RawSegments
  else if (digit =? DIGIT_100_MSEC) && negb (tenth_enable o) then RawSegments
  else Decoded.

Definition write_frame (o : options) (h m s tenth_val : Z) : M unit :=
  write_reg MAX_REG_DEC_MODE (decode_mask o) ;;
  write_reg (Z.lor MAX_REG_MASK_BOTH DIGIT_10_HR) (Z.quot h 10) ;;
  write_reg (Z.lor MAX_REG_MASK_BOTH DIGIT_1_HR) (Z.rem h 10) ;;
  write_reg (Z.lor MAX_REG_MASK_BOTH DIGIT_10_MIN) (Z.quot m 10) ;;
  write_reg (Z.lor MAX_REG_MASK_BOTH DIGIT_1_MIN) (Z.rem m 10) ;;
  write_reg (Z.lor MAX_REG_MASK_BOTH DIGIT_10_SEC) (Z.quot s 10) ;;
  write_reg (Z.lor MAX_REG_MASK_BOTH DIGIT_1_SEC)
    (Z.lor (Z.rem s 10) (if tenth_enable o then MASK_DP else 0)) ;;
  write_reg (Z.lor MAX_REG_MASK_BOTH DIGIT_100_MSEC)
    (if tenth_enable o then tenth_val else 0) ;;
  write_reg (Z.lor MAX_REG_MASK_BOTH DIGIT_MISC) (misc_digit o s).

(** The timer callback. *)
Definition update_display (o : options) : M unit :=
  r <- clock_gettime ;;
  (if fst r then perror "clock_gettime" ;; exit 1 else ret tt) ;;
  match sidereal_hours (longitude o) (snd r) with
  | Spins => spin
  | Ends g =>
      write_frame o (hour_of g) (minute_of g) (second_of g) (tenth_of g) ;;
      schedule_timer
  end.

(** [main] forces the first update; every later one is the callback of
    the timer the previous one armed. *)
Fixpoint updates (n : nat) (o : options) : M unit :=
  match n with
  | O => ret tt
  | S k => update_display o ;; updates k o
  end.

End Sidereal.

(** ** The words of the specification, for comparison with the code *)

Module Spec.

Local Open Scope Z_scope.

(** A relation that holds between every element of a list and the
    next one. *)
Fixpoint chain {A : Type} (R : A -> A -> Prop) (l : list A) : Prop :=
  match l with
  | a :: tl =>
      match tl with
      | b :: _ => R a b /\ chain R tl
      | [] => True
      end
  | [] => True
  end.

(** "now, rounded up to the next tenth-of-second boundary": the first
    multiple of a tenth of a second after the instant [ns] (in
    nanoseconds), or, in the other reading of the words, at or after
    it. *)
Definition next_tenth_after (ns : Z) : Z :=
  (ns / 100000000 + 1) * 100000000.

Definition next_tenth_from (ns : Z) : Z :=
  - ((- ns) / 100000000) * 100000000.

(** The timer is absolute and one-shot: the callback that takes the
    reading [r] runs when the expiry computed from the reading [prev]
    has passed. *)
Definition fires_after (prev r : timespec) : Prop :=
  nanos (Sidereal.wake_time prev) <= nanos r.

(** The callback takes its reading less than half a tenth of a second
    after the instant the previous expiry aimed at. *)
Definition prompt (prev r : timespec) : Prop :=
  nanos r < nanos (Sidereal.wake_time prev) + Sidereal.FUDGE
            + 5 * Sidereal.HUNDREDTH_IN_NANOS.

(** The callback takes its reading half a tenth of a second or more
    after that instant. *)
Definition late (prev r : timespec) : Prop :=
  nanos (Sidereal.wake_time prev) + Sidereal.FUDGE
  + 5 * Sidereal.HUNDREDTH_IN_NANOS <= nanos r.

(** Spacing of two consecutive expiry times by a tenth of a second,
    give or take the latency compensation. *)
Definition tenth_apart (a b : timespec) : Prop :=
  Sidereal.TENTH_IN_NANOS - Sidereal.FUDGE <= nanos b - nanos a
  <= Sidereal.TENTH_IN_NANOS + Sidereal.FUDGE.

(** The expiry time in the words of the specification, in either
    reading of "rounded up to the next boundary". *)
Definition rounded_up_minus_fudge (now : timespec) : Prop :=
  nanos (Sidereal.wake_time now)
  = next_tenth_after (nanos now) - Sidereal.FUDGE
  \/ nanos (Sidereal.wake_time now)
     = next_tenth_from (nanos now) - Sidereal.FUDGE.

(** Each [update_display] reads the clock twice: first for the time it
    shows, then, in [schedule_timer], for the next expiry.  When [rd]
    numbers the readings of a run from 0, the readings the first [n]
    expiry times come from are the odd ones. *)
Definition schedule_readings (rd : nat -> timespec) (n : nat)
  : list timespec :=
  map (fun i => rd (2 * i + 1)%nat) (seq 0 n).

(** The expiry times a run has given to the timer, oldest first. *)
Definition wake_times (o : outcome unit) : list timespec :=
  rev (armed (final o)).

End Spec.

(** ** Concrete runs *)

Module Scenario.

Local Open Scope Z_scope.

Definition utc : Z -> tm :=
  fun t => mk_tm (Z.rem (Z.quot t 3600) 24) (Z.rem (Z.quot t 60) 60) (Z.rem t 60).

Definition reading_of (table : list timespec) (k : nat) : timespec :=
  nth k table (mk_timespec 0 0).

(** An environment in which every call succeeds and the clock gives
    the readings of [table] in turn. *)
Definition healthy (table : list timespec) : env :=
  mk_env (fun k => Some (reading_of table k)) (fun _ => mk_timespec 0 0)
         (fun _ => true) (fun _ => true) utc.

(** Three updates across a minute boundary, each callback running
    some 50 microseconds after its expiry. *)
Definition on_time : list timespec :=
  [ mk_timespec 1500000059 870000000; mk_timespec 1500000059 871000000;
    mk_timespec 1500000059 999800000; mk_timespec 1500000060 1000000;
    mk_timespec 1500000060 99800000; mk_timespec 1500000060 101000000 ].

(** Two updates, the second one 60 ms late. *)
Definition late : list timespec :=
  [ mk_timespec 1500000000 0; mk_timespec 1500000000 1000000;
    mk_timespec 1500000000 159000000; mk_timespec 1500000000 160000000 ].

(** The wall clock cannot be read. *)
Definition no_clock : env :=
  mk_env (fun _ => None) (fun _ => mk_timespec 1500000000 0)
         (fun _ => true) (fun _ => true) utc.

(** The clock works and every SPI transfer is rejected. *)
Definition no_spi : env :=
  mk_env (fun k => Some (mk_timespec 1500000000 (Z.of_nat k * 10000000)))
         (fun _ => mk_timespec 0 0)
         (fun _ => false) (fun _ => true) utc.

End Scenario.

(** ** The sidereal formula in the words of the specification *)

Module Almanac.

Local Open Scope Q_scope.


(** The instant of a clock reading, in seconds since the Unix
    epoch. *)
Definition instant (t : timespec) : Q :=
  inject_Z (tv_sec t) + inject_Z (tv_nsec t) / 1000000000.

(** The day of a clock reading, counted from the Unix epoch. *)
Definition day_of (t : timespec) : Z := (tv_sec t / 86400)%Z.

(** The Julian date of an instant given in seconds since the Unix
    epoch: 2000-01-01T00:00 UTC, which is 946684800 s, is Julian date
    2451544.5, and a day has 86400 s. *)
Definition julian_date (unix : Q) : Q :=
  2451544.5 + (unix - 946684800) / 86400.

(** "the most recent UTC midnight", in seconds since the Unix epoch *)
Definition last_midnight (unix : Q) : Q :=
  inject_Z (Qfloor (unix / 86400)) * 86400.

(** "the Julian-date offset of the most recent UTC midnight", from
    the Julian date [epoch] *)
Definition D0 (epoch unix : Q) : Q :=
  julian_date (last_midnight unix) - epoch.

(** "hours elapsed since that midnight (as a continuous fraction)" *)
Definition H (unix : Q) : Q := (unix - last_midnight unix) / 3600.

(** "Julian centuries since the epoch" *)
Definition T (epoch unix : Q) : Q := (julian_date unix - epoch) / 36525.

Definition polynomial (d0 h t : Q) : Q :=
  6.697374558 + 0.06570982441908 * d0 + 1.00273790935 * h
  + 0.000026 * (t * t).

(** GMST with [D0] reckoned from the Julian date [epoch_d] and [T]
    from [epoch_t]. *)
Definition gmst_from (epoch_d epoch_t unix : Q) : Q :=
  polynomial (D0 epoch_d unix) (H unix) (T epoch_t unix).

End Almanac.

(** ** The values of the conversion

    What the expressions of lines 221-231 come to when no operation
    overflows: every operation is the exact one, rounded to long
    double. *)

Module Values.

Local Open Scope Q_scope.

Definition ld (q : Q) : Q := rounded Sidereal.long_double q.

(** Line 221. *)
Definition now (t : timespec) : Q :=
  ld (inject_Z (tv_sec t) + ld (inject_Z (tv_nsec t) / 1000000000)).

(** Line 223. *)
Definition JD (now : Q) : Q :=
  ld (ld (ld (now - 946684800) / 86400) + 2451544.5).

(** Lines 228 and 229; [EPOCH_JDATE + .5] is 2451545. *)
Definition H (jd jd0 : Q) : Q := ld (ld (jd - jd0) * 24).
Definition T (jd : Q) : Q := ld (ld (jd - 2451545) / 36525).

(** Line 231. *)
Definition gmst (d0 h t : Q) : Q :=
  ld (ld (ld (ld 6.697374558 + ld (ld 0.06570982441908 * d0))
          + ld (ld 1.00273790935 * h))
      + ld (ld (rounded Sidereal.double 0.000026 * t) * t)).

(** Lines 223-231 on the [day]-th day since the Unix epoch, whose
    midnight is Julian date [day + 2440587.5]. *)
Definition gmst_at (day : Z) (now : Q) : Q :=
  gmst (inject_Z day - 10957.5)
       (H (JD now) (inject_Z day + 2440587.5))
       (T (JD now)).

End Values.

(** ** The decode register in the words of the specification *)

Module Protocol.

Local Open Scope Z_scope.

(** "1 = raw segment mode, 0 = BCD/numeral decode": the reading of a
    decode-mode byte [mask] in which a set bit selects raw segments,
    against what the program means each digit to be. *)
Definition set_selects_raw (mask : Z) (meant : Z -> digit_mode) : Prop :=
  forall digit, 0 <= digit <= 7 ->
    (Z.testbit mask digit = true <-> meant digit = RawSegments).

(** The opposite sense: a set bit selects the numeral decode. *)
Definition set_selects_decode (mask : Z) (meant : Z -> digit_mode) : Prop :=
  forall digit, 0 <= digit <= 7 ->
    (Z.testbit mask digit = true <-> meant digit = Decoded).

(** Both bits of a colon are lit in the byte of the misc digit. *)
Definition lit (pair byte : Z) : Prop := Z.land byte pair = pair.

End Protocol.

(** ** A frame as a list of writes *)

Module Frames.

(** The writes of [l] in turn, through the sidereal clock's
    [write_reg]. *)
Fixpoint write_all (l : list (Z * Z)) : M unit :=
  match l with
  | [] => ret tt
  | (reg, data) :: tl =>
      match tl with
      | [] => Sidereal.write_reg reg data
      | _ :: _ => Sidereal.write_reg reg data ;; write_all tl
      end
  end.

(** The nine register/data pairs of one update of the sidereal
    clock. *)
Definition frame (o : Sidereal.options) (h m s tenth_val : Z)
  : list (Z * Z) :=
  [ (MAX_REG_DEC_MODE, Sidereal.decode_mask o);
    (Z.lor MAX_REG_MASK_BOTH DIGIT_10_HR, Z.quot h 10);
    (Z.lor MAX_REG_MASK_BOTH DIGIT_1_HR, Z.rem h 10);
    (Z.lor MAX_REG_MASK_BOTH DIGIT_10_MIN, Z.quot m 10);
    (Z.lor MAX_REG_MASK_BOTH DIGIT_1_MIN, Z.rem m 10);
    (Z.lor MAX_REG_MASK_BOTH DIGIT_10_SEC, Z.quot s 10);
    (Z.lor MAX_REG_MASK_BOTH DIGIT_1_SEC,
     Z.lor (Z.rem s 10) (if Sidereal.tenth_enable o then MASK_DP else 0));
    (Z.lor MAX_REG_MASK_BOTH DIGIT_100_MSEC,
     if Sidereal.tenth_enable o then tenth_val else 0);
    (Z.lor MAX_REG_MASK_BOTH DIGIT_MISC, Sidereal.misc_digit o s) ].

(** A register/data pair as [write_reg] sends it. *)
Definition as_bytes (p : Z * Z) : Z * Z := (uchar (fst p), uchar (snd p)).

(** A computation that cannot end the process. *)
Definition never_exits {A : Type} (c : M A) : Prop :=
  forall e s, exited (c e s) = false.

End Frames.

(** ** Reading a frame *)

Module Display.

Local Open Scope Z_scope.

(** "When decoding is turned on, bits 0-3 are a hex value, 4-6 are
    ignored, and DP is as before." *)
Definition numeral (byte : Z) : Z := Z.land byte 0xf.

(** The time a viewer reads off the seven numeral bytes of a frame:
    hours, minutes, seconds and tenths. *)
Definition shown (bytes : list Z) : option (Z * Z * Z * Z) :=
  match bytes with
  | [d0; d1; d2; d3; d4; d5; d6] =>
      Some (10 * numeral d0 + numeral d1,
            10 * numeral d2 + numeral d3,
            10 * numeral d4 + numeral d5,
            numeral d6)
  | _ => None
  end.

(** The registers of the digits 0 to 6. *)
Definition digit_registers : list Z :=
  [0x60; 0x61; 0x62; 0x63; 0x64; 0x65; 0x66].

End Display.

(** ** The rest of the two programs: set-up, [main] and [cleanup] *)

Module Host.

(** The set-up calls of the two [main] functions, which touch neither
    the clock nor the display: true when the call succeeds. *)
Record host : Type := mk_host {
  mlockall_ok : bool;
  sched_setscheduler_ok : bool;
  open_ok : bool;
  flock_ok : bool;
  wr_mode_ok : bool;
  wr_bits_ok : bool;
  wr_speed_ok : bool;
  daemon_ok : bool;
  attr_init_ok : bool;
  attr_setdetachstate_ok : bool;
  attr_setschedpolicy_ok : bool;
  attr_setschedparam_ok : bool;
  timer_create_ok : bool;
  attr_destroy_ok : bool
}.

(** [if (call) { perror(msg); }] *)
Definition report_unless (ok : bool) (msg : string) : M unit :=
  if ok then ret tt else perror msg.

(** [if (call) { perror(msg); exit(1); }] *)
Definition exit_unless (ok : bool) (msg : string) : M unit :=
  if ok then ret tt else perror msg ;; exit 1.

End Host.
Export Host.

Module ClockProgram.

(** The signal handler of [SPI_Clock.c]. *)
Definition cleanup : M unit :=
  Clock.write_reg MAX_REG_CONFIG 0 ;; (* sleep now. *)
  exit 1.

(** Lines 169-207 of [main]: only a failed [open] or [flock] ends the
    process; the result of [daemon] is not looked at. *)
Definition setup (h : host) : M unit :=
  report_unless (mlockall_ok h) "mlockall" ;;
  report_unless (sched_setscheduler_ok h) "sched_setscheduler" ;;
  exit_unless (open_ok h) "Error opening device" ;;
  exit_unless (flock_ok h) "Error locking device" ;;
  report_unless (wr_mode_ok h) "ioctl(SPI_IOC_WR_MODE)" ;;
  report_unless (wr_bits_ok h) "ioctl(SPI_IOC_WR_BITS_PER_WORD)" ;;
  report_unless (wr_speed_ok h) "ioctl(SPI_IOC_WR_MAX_SPEED_HZ)".

(** [static unsigned int last_tenth = 12] *)
Definition first_last_tenth : Z := 12.

(** [main], with the options [getopt] finds in [argv] and the loop cut
    after [passes] passes.  An option that is not known ends the
    process through [usage(); exit(1)]. *)
Definition main (h : host) (args : list (ascii * string)) (passes : nat)
  : M Z :=
  match Clock.getopt_loop Clock.defaults args with
  | None => exit 1
  | Some o =>
      setup h ;;
      Clock.startup o ;;
      Clock.main_loop passes o first_last_tenth
  end.

(** The reading the k-th [clock_gettime] leaves in [now]. *)
Definition reading (e : env) (k : nat) : timespec :=
  match clock_at e k with
  | Some t => t
  | None => stack_at e k
  end.

(** The [tenth_val] of the pass that makes the k-th reading. *)
Definition tenth_at (e : env) (k : nat) : Z :=
  uint (Z.quot (tv_nsec (reading e k)) (100 * 1000 * 1000)).

(** The number of passes, among [passes] passes from the reading
    [first] on, whose [tenth_val] differs from [last_tenth] as the pass
    before left it. *)
Fixpoint redraws (e : env) (first passes : nat) (last_tenth : Z) : nat :=
  match passes with
  | O => 0
  | S n =>
      let t := tenth_at e first in
      ((if (t =? last_tenth)%Z then 0 else 1) + redraws e (S first) n t)%nat
  end.

End ClockProgram.

Module SiderealProgram.

(** The signal handler of [SPI_Sidereal.c]. *)
Definition cleanup : M unit :=
  Sidereal.write_reg MAX_REG_CONFIG 0 ;; (* sleep now. *)
  exit 1.

(** Lines 295-373 of [main]: every failed call but [mlockall] ends the
    process. *)
Definition setup (h : host) (o : Sidereal.options) : M unit :=
  (if Sidereal.background o
   then exit_unless (daemon_ok h) "daemon" else ret tt) ;;
  exit_unless (sched_setscheduler_ok h) "sched_setscheduler" ;;
  exit_unless (attr_init_ok h) "pthread_attr_init" ;;
  exit_unless (attr_setdetachstate_ok h) "pthread_attr_setdetachstate" ;;
  exit_unless (attr_setschedpolicy_ok h) "pthread_attr_setschedpolicy" ;;
  exit_unless (attr_setschedparam_ok h) "pthread_attr_setschedparam" ;;
  exit_unless (timer_create_ok h) "timer_create" ;;
  exit_unless (attr_destroy_ok h) "pthread_attr_destroy" ;;
  report_unless (mlockall_ok h) "mlockall" ;;
  exit_unless (open_ok h) "Error opening device" ;;
  exit_unless (flock_ok h) "Error locking device" ;;
  exit_unless (wr_mode_ok h) "ioctl(SPI_IOC_WR_MODE)" ;;
  exit_unless (wr_bits_ok h) "ioctl(SPI_IOC_WR_BITS_PER_WORD)" ;;
  exit_unless (wr_speed_ok h) "ioctl(SPI_IOC_WR_MAX_SPEED_HZ)".

(** [main], with the options [getopt] finds in [argv]: the forced first
    update and the [callbacks] timer callbacks that follow it. *)
Definition main (atof : string -> fval) (h : host)
           (args : list (ascii * string)) (callbacks : nat) : M unit :=
  match Sidereal.getopt_loop atof Sidereal.defaults args with
  | None => exit 1
  | Some o =>
      setup h o ;;
      Sidereal.startup o ;;
      Sidereal.updates (S callbacks) o
  end.

(** Whether every call of one [update_display] that starts in the state
    [s] succeeds: the two clock readings, the nine transfers and the
    arming of the timer. *)
Definition calls_succeed (e : env) (s : sys) : bool :=
  match clock_at e (clock_calls s) with Some _ => true | None => false end
  && forallb (fun j => ioctl_at e (ioctl_calls s + j)) (seq 0 9)
  && match clock_at e (S (clock_calls s)) with
     | Some _ => true | None => false end
  && timer_at e (timer_calls s).

(** Whether the conversion of the reading for the display comes to an
    end (it does when there is no reading to convert). *)
Definition converts (o : Sidereal.options) (e : env) (s : sys) : bool :=
  match clock_at e (clock_calls s) with
  | Some t => Sidereal.ends (Sidereal.sidereal_hours (Sidereal.longitude o) t)
  | None => true
  end.

End SiderealProgram.

(** ** Counting calls *)

Module Counting.

(** The computation [c] returns, after [clocks] more clock readings and
    [transfers] more SPI transfers than before, whatever the calls
    answer. *)
Definition costs {A : Type} (c : M A) (clocks transfers : nat) : Prop :=
  forall e s, exists a s',
    c e s = Running a s'
    /\ clock_calls s' = (clock_calls s + clocks)%nat
    /\ ioctl_calls s' = (ioctl_calls s + transfers)%nat.

End Counting.

(** ** The options of a command line *)

Module Options.

(** Whether the option [c] is among the options [getopt] returns. *)
Definition given (c : ascii) (args : list (ascii * string)) : bool :=
  existsb (fun p => Ascii.eqb (fst p) c) args.

(** The argument of the last option [c]. *)
Fixpoint last_arg (c : ascii) (args : list (ascii * string))
  : option string :=
  match args with
  | [] => None
  | (c', a) :: rest =>
      match last_arg c rest with
      | Some x => Some x
      | None => if Ascii.eqb c' c then Some a else None
      end
  end.

(** Whether every option is one of [letters]. *)
Definition all_known (letters : list ascii) (args : list (ascii * string))
  : bool :=
  forallb (fun p => existsb (Ascii.eqb (fst p)) letters) args.

(** The option letters of ["2b:cdt"] and of ["b:Bcdl:t"]. *)
Definition clock_letters : list ascii :=
  ["2"; "b"; "c"; "d"; "t"]%char.

Definition sidereal_letters : list ascii :=
  ["b"; "B"; "c"; "d"; "l"; "t"]%char.

(** The brightness the option [-b] stores. *)
Definition brightness_of (optarg : string) : Z :=
  uchar (Z.land (atoi optarg) 0xf).

End Options.

(** ** Command lines *)

Module CommandLine.

(** [clock -b 3 -2 -b 21] *)
Definition dim_24h : list (ascii * string) :=
  [("b"%char, "3"%string); ("2"%char, EmptyString); ("b"%char, "21"%string)].

(** [side_clock -l -122 -B -t] *)
Definition west_blinking : list (ascii * string) :=
  [("l"%char, "-122"%string); ("B"%char, EmptyString);
   ("t"%char, EmptyString)].

(** [clock -x]: [getopt] returns '?' for an option it does not know. *)
Definition unknown : list (ascii * string) :=
  [("c"%char, EmptyString); ("?"%char, EmptyString)].

(** A host on which every set-up call succeeds. *)
Definition sound_host : host :=
  mk_host true true true true true true true true true true true true
          true true.

End CommandLine.

(** ** Faults *)

Module Faults.

(** The clock works and the fourth SPI transfer is rejected. *)
Definition fourth_rejected : env :=
  mk_env (fun k => Some (mk_timespec 1500000000 (Z.of_nat k * 1000000)))
         (fun _ => mk_timespec 0 0)
         (fun k => negb (Nat.eqb k 3)) (fun _ => true) Scenario.utc.

(** A host on which [flock] fails: another clock holds the device. *)
Definition device_busy : host :=
  mk_host true true true false true true true true true true true true
          true true.

(** A host on which nothing but [open] and [flock] succeeds. *)
Definition barely : host :=
  mk_host false false true true false false false false false false false
          false false false.

End Faults.

(** * Properties *)

(** ** Rounded arithmetic

  Facts of the rounding of module [Ieee]: it is monotone, it leaves the
  values of the format as they are, and it is off by half a unit of the
  last place at most. *)
Section Powers.

Local Open Scope Q_scope.

Lemma pow2_pos (e : Z) : 0 < pow2 e.
Proof. apply Qpower_0_lt. reflexivity. Qed.

Lemma pow2_add (a b : Z) : pow2 (a + b) == pow2 a * pow2 b.
Proof. apply Qpower_plus. discriminate. Qed.

Lemma pow2_le (a b : Z) : (a <= b)%Z -> pow2 a <= pow2 b.
Proof. intros H. apply Qpower_le_compat_l; [exact H | discriminate]. Qed.

Lemma pow2_lt (a b : Z) : (a < b)%Z -> pow2 a < pow2 b.
Proof. intros H. apply Qpower_lt_compat_l; [exact H | reflexivity]. Qed.

Lemma pow2_Z (e : Z) : (0 <= e)%Z -> pow2 e == inject_Z (2 ^ e).
Proof. intros H. unfold pow2. rewrite Zpower_Qpower by exact H. reflexivity. Qed.

Lemma pow2_succ (e : Z) : pow2 (e + 1) == 2 * pow2 e.
Proof. rewrite pow2_add. change (pow2 1) with 2. ring. Qed.

Lemma pow2_opp (e : Z) : pow2 e * pow2 (- e) == 1.
Proof. rewrite <- pow2_add. replace (e + - e)%Z with 0%Z by lia. reflexivity. Qed.

Lemma pow2_lt_inv (a b : Z) : pow2 a < pow2 b -> (a < b)%Z.
Proof. intros H. apply (Qpower_lt_compat_l_inv 2); [exact H | reflexivity]. Qed.

Lemma Qabs_inject_Z (z : Z) : Qabs (inject_Z z) = inject_Z (Z.abs z).
Proof. reflexivity. Qed.

Lemma Qabs_pow2 (e : Z) : Qabs (pow2 e) == pow2 e.
Proof. apply Qabs_pos. apply Qlt_le_weak, pow2_pos. Qed.

Lemma Qabs_pos_lt (q : Q) : ~ q == 0 -> 0 < Qabs q.
Proof.
  intros N. destruct (Qlt_le_dec 0 (Qabs q)) as [H | H]; [exact H |].
  exfalso. apply N. assert (A := Qabs_nonneg q).
  assert (B : Qabs q == 0) by lra.
  assert (C := Qle_Qabs q). assert (D := Qle_Qabs (- q)). rewrite Qabs_opp in D. lra.
Qed.

End Powers.

Section Exponent.

Local Open Scope Q_scope.

Lemma ilog2_spec (q : Q) : 0 < q -> pow2 (ilog2 q) <= q /\ q < pow2 (ilog2 q + 1).
Proof.
  intros Hq. destruct q as [n d]. unfold ilog2. cbn [Qnum Qden].
  assert (Hn : (0 < n)%Z) by (unfold Qlt in Hq; cbn in Hq; lia).
  set (a := Z.log2 n). set (b := Z.log2 (Z.pos d)).
  assert (Ha := Z.log2_spec n Hn). fold a in Ha.
  assert (Hb := Z.log2_spec (Z.pos d) (Pos2Z.is_pos d)). fold b in Hb.
  assert (Ha0 : (0 <= a)%Z) by apply Z.log2_nonneg.
  assert (Hb0 : (0 <= b)%Z) by apply Z.log2_nonneg.
  assert (Hq' : n # d == inject_Z n / inject_Z (Z.pos d)) by apply Qmake_Qdiv.
  assert (Hd : 0 < inject_Z (Z.pos d)) by reflexivity.
  (* bounds of numerator and denominator as rationals *)
  assert (Pa : pow2 a <= inject_Z n).
  { rewrite pow2_Z by lia. rewrite <- Zle_Qle. lia. }
  assert (Pa' : inject_Z n < pow2 (a + 1)).
  { rewrite pow2_Z by lia. rewrite <- Zlt_Qlt. replace (a + 1)%Z with (Z.succ a) by lia. lia. }
  assert (Pb : pow2 b <= inject_Z (Z.pos d)).
  { rewrite pow2_Z by lia. rewrite <- Zle_Qle. lia. }
  assert (Pb' : inject_Z (Z.pos d) < pow2 (b + 1)).
  { rewrite pow2_Z by lia. rewrite <- Zlt_Qlt. replace (b + 1)%Z with (Z.succ b) by lia. lia. }
  assert (Low : pow2 (a - b - 1) * inject_Z (Z.pos d) < inject_Z n).
  { apply Qlt_le_trans with (pow2 (a - b - 1) * pow2 (b + 1)).
    - apply Qmult_lt_l; [apply pow2_pos | exact Pb'].
    - rewrite <- pow2_add. replace (a - b - 1 + (b + 1))%Z with a by lia. exact Pa. }
  assert (High : inject_Z n < pow2 (a - b + 1) * inject_Z (Z.pos d)).
  { apply Qlt_le_trans with (pow2 (a + 1)); [exact Pa' |].
    replace (a + 1)%Z with (a - b + 1 + b)%Z by lia. rewrite pow2_add.
    apply Qmult_le_l; [apply pow2_pos | exact Pb]. }
  assert (Div : forall c : Q, c * inject_Z (Z.pos d) < inject_Z n -> c < n # d).
  { intros c Hc. rewrite Hq'. apply Qlt_shift_div_l; assumption. }
  assert (Div' : forall c : Q, inject_Z n < c * inject_Z (Z.pos d) -> n # d < c).
  { intros c Hc. rewrite Hq'. apply Qlt_shift_div_r; assumption. }
  destruct (Qle_bool (pow2 (a - b)) (n # d)) eqn:E.
  - apply Qle_bool_iff in E. split; [exact E |]. apply Div'. exact High.
  - split.
    + apply Qlt_le_weak. apply Div. exact Low.
    + replace (a - b - 1 + 1)%Z with (a - b)%Z by lia.
      apply Qnot_le_lt. intros C. apply Qle_bool_iff in C. congruence.
Qed.

Lemma ilog2_unique (q : Q) (e : Z) :
  pow2 e <= q -> q < pow2 (e + 1) -> ilog2 q = e.
Proof.
  intros H1 H2.
  assert (Hq : 0 < q) by (eapply Qlt_le_trans; [apply (pow2_pos e) | exact H1]).
  destruct (ilog2_spec q Hq) as [S1 S2].
  assert (A : (ilog2 q < e + 1)%Z).
  { apply pow2_lt_inv. eapply Qle_lt_trans; [exact S1 | exact H2]. }
  assert (B : (e < ilog2 q + 1)%Z).
  { apply pow2_lt_inv. eapply Qle_lt_trans; [exact H1 | exact S2]. }
  lia.
Qed.

Lemma ilog2_comp (q q' : Q) : 0 < q -> q == q' -> ilog2 q = ilog2 q'.
Proof.
  intros Hq E. destruct (ilog2_spec q Hq) as [S1 S2].
  symmetry. apply ilog2_unique; rewrite <- E; assumption.
Qed.

Lemma ilog2_le (q q' : Q) : 0 < q -> q <= q' -> (ilog2 q <= ilog2 q')%Z.
Proof.
  intros Hq L.
  assert (Hq' : 0 < q') by (eapply Qlt_le_trans; eassumption).
  destruct (ilog2_spec q Hq) as [S1 _]. destruct (ilog2_spec q' Hq') as [_ S2'].
  assert (A : (ilog2 q < ilog2 q' + 1)%Z).
  { apply pow2_lt_inv. eapply Qle_lt_trans; [exact S1 |].
    eapply Qle_lt_trans; [exact L | exact S2']. }
  lia.
Qed.

End Exponent.

Section NearestInteger.

Local Open Scope Q_scope.

Lemma floor_unique (x : Q) (z : Z) :
  inject_Z z <= x -> x < inject_Z (z + 1) -> Qfloor x = z.
Proof.
  intros H1 H2.
  assert (A := Qfloor_le x). assert (B := Qlt_floor x).
  assert (C : (z < Qfloor x + 1)%Z).
  { rewrite Zlt_Qlt. eapply Qle_lt_trans; eassumption. }
  assert (D : (Qfloor x < z + 1)%Z).
  { rewrite Zlt_Qlt. eapply Qle_lt_trans; eassumption. }
  lia.
Qed.

Lemma rne_comp (m m' : Q) : m == m' -> rne m = rne m'.
Proof.
  intros E. unfold rne. rewrite (Qfloor_comp _ _ E).
  assert (E' : m - inject_Z (Qfloor m') == m' - inject_Z (Qfloor m')) by (rewrite E; reflexivity).
  rewrite (Qcompare_comp _ _ E' (1 # 2) (1 # 2) (Qeq_refl _)). reflexivity.
Qed.

Lemma rne_near (m : Q) (z : Z) :
  inject_Z z - (1 # 2) < m -> m < inject_Z z + (1 # 2) -> rne m = z.
Proof.
  intros L U. unfold rne.
  assert (A := Qfloor_le m). assert (B := Qlt_floor m).
  rewrite inject_Z_plus in B. change (inject_Z 1) with 1 in B.
  destruct (Qcompare_spec (m - inject_Z (Qfloor m)) (1 # 2)) as [E | E | E].
  - (* a tie cannot be within a half of z *)
    assert (C : (z <= Qfloor m)%Z).
    { apply Z.lt_succ_r. rewrite Zlt_Qlt. unfold Z.succ. rewrite inject_Z_plus.
      change (inject_Z 1) with 1. lra. }
    assert (D : (Qfloor m < z)%Z).
    { rewrite Zlt_Qlt. lra. }
    lia.
  - assert (C : (z < Qfloor m + 1)%Z).
    { rewrite Zlt_Qlt, inject_Z_plus. change (inject_Z 1) with 1. lra. }
    assert (D : (Qfloor m < z + 1)%Z).
    { rewrite Zlt_Qlt, inject_Z_plus. change (inject_Z 1) with 1. lra. }
    lia.
  - assert (C : (z < Qfloor m + 1 + 1)%Z).
    { rewrite Zlt_Qlt, !inject_Z_plus. change (inject_Z 1) with 1. lra. }
    assert (D : (Qfloor m + 1 < z + 1)%Z).
    { rewrite Zlt_Qlt, !inject_Z_plus. change (inject_Z 1) with 1. lra. }
    lia.
Qed.

Lemma rne_tie (m : Q) (z : Z) :
  m == inject_Z z + (1 # 2) -> rne m = if Z.even z then z else (z + 1)%Z.
Proof.
  intros E. unfold rne.
  assert (F : Qfloor m = z).
  { apply floor_unique; rewrite ?inject_Z_plus; change (inject_Z 1) with 1; lra. }
  rewrite F.
  destruct (Qcompare_spec (m - inject_Z z) (1 # 2)) as [C | C | C]; try lra.
  reflexivity.
Qed.

(** Every rational is within a half of an integer or is a tie. *)
Lemma near_or_tie (m : Q) :
  exists z : Z,
    (inject_Z z - (1 # 2) < m /\ m < inject_Z z + (1 # 2))
    \/ m == inject_Z z + (1 # 2).
Proof.
  assert (A := Qfloor_le m). assert (B := Qlt_floor m).
  rewrite inject_Z_plus in B. change (inject_Z 1) with 1 in B.
  destruct (Qcompare_spec (m - inject_Z (Qfloor m)) (1 # 2)) as [E | E | E].
  - exists (Qfloor m). right. lra.
  - exists (Qfloor m). left. lra.
  - exists (Qfloor m + 1)%Z. left. rewrite inject_Z_plus. change (inject_Z 1) with 1. lra.
Qed.

Lemma rne_Z (z : Z) : rne (inject_Z z) = z.
Proof. apply rne_near; lra. Qed.

Lemma rne_error (m : Q) : Qabs (inject_Z (rne m) - m) <= 1 # 2.
Proof.
  apply Qabs_Qle_condition.
  destruct (near_or_tie m) as [z [[L U] | E]].
  - rewrite (rne_near m z L U). lra.
  - rewrite (rne_tie m z E). destruct (Z.even z).
    + lra.
    + rewrite inject_Z_plus. change (inject_Z 1) with 1. lra.
Qed.

Lemma rne_opp (m : Q) : rne (- m) = (- rne m)%Z.
Proof.
  destruct (near_or_tie m) as [z [[L U] | E]].
  - rewrite (rne_near m z L U). apply rne_near; rewrite inject_Z_opp; lra.
  - rewrite (rne_tie m z E).
    assert (E' : - m == inject_Z (- z - 1) + (1 # 2)).
    { unfold Zminus. rewrite inject_Z_plus, !inject_Z_opp. change (inject_Z 1) with 1. lra. }
    rewrite (rne_tie (- m) (- z - 1) E').
    replace (- z - 1)%Z with (- (z + 1))%Z by lia.
    rewrite Z.even_opp, Z.even_add. change (Z.even 1) with false.
    destruct (Z.even z); cbn; lia.
Qed.

Lemma rne_monotone (m m' : Q) : m <= m' -> (rne m <= rne m')%Z.
Proof.
  intros L.
  destruct (near_or_tie m) as [z [[L1 U1] | E1]];
    destruct (near_or_tie m') as [z' [[L2 U2] | E2]].
  - rewrite (rne_near m z L1 U1), (rne_near m' z' L2 U2).
    apply Z.lt_succ_r. rewrite Zlt_Qlt. unfold Z.succ. rewrite inject_Z_plus.
    change (inject_Z 1) with 1. lra.
  - rewrite (rne_near m z L1 U1), (rne_tie m' z' E2).
    assert (C : (z <= z')%Z).
    { apply Z.lt_succ_r. rewrite Zlt_Qlt. unfold Z.succ. rewrite inject_Z_plus.
      change (inject_Z 1) with 1. lra. }
    destruct (Z.even z'); lia.
  - rewrite (rne_tie m z E1), (rne_near m' z' L2 U2).
    assert (C : (z < z')%Z) by (rewrite Zlt_Qlt; lra).
    destruct (Z.even z); lia.
  - rewrite (rne_tie m z E1), (rne_tie m' z' E2).
    assert (C : (z <= z')%Z) by (rewrite Zle_Qle; lra).
    destruct (Z.eq_dec z z') as [-> | N].
    + lia.
    + destruct (Z.even z), (Z.even z'); lia.
Qed.

End NearestInteger.



Section Rounding.

Local Open Scope Q_scope.

Variable f : format.
Hypothesis precision : (1 <= prec f)%Z.

Lemma quantum_comp (q q' : Q) : ~ q == 0 -> q == q' -> quantum f q = quantum f q'.
Proof using precision.
  intros N E. unfold quantum.
  rewrite (ilog2_comp (Qabs q) (Qabs q')); [reflexivity | apply Qabs_pos_lt, N |].
  rewrite E. reflexivity.
Qed.

Lemma quantum_opp (q : Q) : ~ q == 0 -> quantum f (- q) = quantum f q.
Proof using precision.
  intros N. unfold quantum.
  rewrite (ilog2_comp (Qabs (- q)) (Qabs q)); [reflexivity | |apply Qabs_opp].
  apply Qabs_pos_lt. intros C. apply N. lra.
Qed.

Lemma quantum_low (q : Q) : (emin f - prec f + 1 <= quantum f q)%Z.
Proof using precision. unfold quantum. lia. Qed.

Lemma rounded_0 (q : Q) : q == 0 -> rounded f q = 0.
Proof using precision. intros E. unfold rounded. rewrite (Qeq_eq_bool _ _ E). reflexivity. Qed.

Lemma rounded_nonzero (q : Q) :
  ~ q == 0 ->
  rounded f q = inject_Z (rne (q / pow2 (quantum f q))) * pow2 (quantum f q).
Proof using precision.
  intros N. unfold rounded. destruct (Qeq_bool q 0) eqn:E; [| reflexivity].
  apply Qeq_bool_eq in E. contradiction.
Qed.

Lemma rounded_comp (q q' : Q) : q == q' -> rounded f q == rounded f q'.
Proof using precision.
  intros E. destruct (Qeq_dec q 0) as [Z0 | N].
  - rewrite (rounded_0 q Z0), (rounded_0 q'); [reflexivity | rewrite <- E; exact Z0].
  - assert (N' : ~ q' == 0) by (rewrite <- E; exact N).
    rewrite (rounded_nonzero q N), (rounded_nonzero q' N').
    rewrite (quantum_comp q q' N E).
    rewrite (rne_comp (q / pow2 (quantum f q')) (q' / pow2 (quantum f q'))); [reflexivity |].
    rewrite E. reflexivity.
Qed.

Lemma rounded_opp (q : Q) : rounded f (- q) == - rounded f q.
Proof using precision.
  destruct (Qeq_dec q 0) as [Z0 | N].
  - rewrite (rounded_0 q Z0), (rounded_0 (- q)); [reflexivity | lra].
  - assert (N' : ~ - q == 0) by (intros C; apply N; lra).
    rewrite (rounded_nonzero q N), (rounded_nonzero (- q) N'), (quantum_opp q N).
    rewrite (rne_comp (- q / pow2 (quantum f q)) (- (q / pow2 (quantum f q)))).
    + rewrite rne_opp, inject_Z_opp. ring.
    + field. apply Qnot_eq_sym, Qlt_not_eq, pow2_pos.
Qed.

(** The scaled significand of a positive value is below [2 ^ prec]. *)
Lemma scaled_below (q : Q) :
  0 < q -> q / pow2 (quantum f q) < inject_Z (2 ^ prec f).
Proof using precision.
  intros Hq. apply Qlt_shift_div_r; [apply pow2_pos |].
  rewrite <- (pow2_Z (prec f)) by lia. rewrite <- pow2_add.
  destruct (ilog2_spec q Hq) as [_ U]. eapply Qlt_le_trans; [exact U |].
  apply pow2_le. unfold quantum. rewrite (ilog2_comp (Qabs q) q).
  - lia.
  - rewrite Qabs_pos; lra.
  - apply Qabs_pos. lra.
Qed.

Lemma rounded_pos_upper (q : Q) :
  0 < q -> rounded f q <= pow2 (quantum f q + prec f).
Proof using precision.
  intros Hq. rewrite rounded_nonzero by lra.
  rewrite pow2_add, (Qmult_comm (pow2 (quantum f q))).
  apply Qmult_le_compat_r; [| apply Qlt_le_weak, pow2_pos].
  rewrite (pow2_Z (prec f)) by lia. rewrite <- Zle_Qle.
  rewrite <- (rne_Z (2 ^ prec f)). apply rne_monotone.
  apply Qlt_le_weak, scaled_below, Hq.
Qed.

Lemma rounded_pos_nonneg (q : Q) : 0 <= q -> 0 <= rounded f q.
Proof using precision.
  intros Hq. destruct (Qeq_dec q 0) as [Z0 | N].
  - rewrite (rounded_0 q Z0). lra.
  - rewrite rounded_nonzero by exact N.
    apply Qmult_le_0_compat; [| apply Qlt_le_weak, pow2_pos].
    change 0 with (inject_Z 0). rewrite <- Zle_Qle.
    rewrite <- (rne_Z 0) at 1. apply rne_monotone.
    apply Qle_shift_div_l; [apply pow2_pos |]. change (inject_Z 0) with 0. lra.
Qed.

Lemma rounded_pos_lower (q : Q) :
  0 < q -> (emin f <= ilog2 q)%Z -> pow2 (ilog2 q) <= rounded f q.
Proof using precision.
  intros Hq He. rewrite rounded_nonzero by lra.
  assert (Q1 : quantum f q = (ilog2 q - prec f + 1)%Z).
  { unfold quantum. rewrite (ilog2_comp (Qabs q) q).
    - lia.
    - rewrite Qabs_pos; lra.
    - apply Qabs_pos. lra. }
  rewrite Q1.
  replace (ilog2 q) with ((prec f - 1) + (ilog2 q - prec f + 1))%Z at 1 by lia.
  rewrite pow2_add.
  apply Qmult_le_compat_r; [| apply Qlt_le_weak, pow2_pos].
  rewrite (pow2_Z (prec f - 1)) by lia. rewrite <- Zle_Qle.
  rewrite <- (rne_Z (2 ^ (prec f - 1))) at 1. apply rne_monotone.
  apply Qle_shift_div_l; [apply pow2_pos |].
  rewrite <- (pow2_Z (prec f - 1)) by lia. rewrite <- pow2_add.
  replace (prec f - 1 + (ilog2 q - prec f + 1))%Z with (ilog2 q) by lia.
  apply ilog2_spec, Hq.
Qed.

Lemma quantum_pos (q : Q) :
  0 < q -> quantum f q = (Z.max (ilog2 q) (emin f) - prec f + 1)%Z.
Proof using precision.
  intros Hq. unfold quantum. rewrite (ilog2_comp (Qabs q) q).
  - reflexivity.
  - rewrite Qabs_pos; lra.
  - apply Qabs_pos. lra.
Qed.

Lemma rounded_monotone_pos (q q' : Q) :
  0 < q -> q <= q' -> rounded f q <= rounded f q'.
Proof using precision.
  intros Hq L. assert (Hq' : 0 < q') by lra.
  assert (Le := ilog2_le q q' Hq L).
  destruct (Z.eq_dec (quantum f q) (quantum f q')) as [E | N].
  - rewrite !rounded_nonzero by lra. rewrite E.
    apply Qmult_le_compat_r; [| apply Qlt_le_weak, pow2_pos].
    rewrite <- Zle_Qle. apply rne_monotone.
    apply Qmult_le_compat_r; [exact L |].
    apply Qlt_le_weak, Qinv_lt_0_compat, pow2_pos.
  - rewrite (quantum_pos q Hq), (quantum_pos q' Hq') in N.
    assert (A : (Z.max (ilog2 q) (emin f) < ilog2 q')%Z) by lia.
    eapply Qle_trans; [apply rounded_pos_upper, Hq |].
    eapply Qle_trans; [| apply rounded_pos_lower; [exact Hq' | lia]].
    apply pow2_le. rewrite (quantum_pos q Hq). lia.
Qed.

Lemma rounded_monotone (q q' : Q) : q <= q' -> rounded f q <= rounded f q'.
Proof using precision.
  intros L.
  destruct (Qlt_le_dec 0 q) as [P | NP].
  - apply rounded_monotone_pos; assumption.
  - assert (A : rounded f q <= 0).
    { assert (B := rounded_pos_nonneg (- q)). rewrite rounded_opp in B. lra. }
    destruct (Qlt_le_dec q' 0) as [N' | P'].
    + (* both negative *)
      assert (B := rounded_monotone_pos (- q') (- q)).
      rewrite !rounded_opp in B. lra.
    + assert (B := rounded_pos_nonneg q' P'). lra.
Qed.

Lemma rounded_exact (q : Q) : representable f q -> rounded f q == q.
Proof using precision.
  intros (m & e & E & Hm & He).
  destruct (Qeq_dec q 0) as [Z0 | N]; [rewrite (rounded_0 q Z0); lra |].
  (* the significand may be taken below [2 ^ prec] *)
  assert (R : exists m' e', q == inject_Z m' * pow2 e'
                /\ (Z.abs m' < 2 ^ prec f)%Z /\ (emin f - prec f + 1 <= e')%Z).
  { destruct (Z.eq_dec (Z.abs m) (2 ^ prec f)) as [Top | NTop].
    - assert (P : (0 < 2 ^ (prec f - 1))%Z) by (apply Z.pow_pos_nonneg; lia).
      assert (P2 : (2 ^ prec f = 2 * 2 ^ (prec f - 1))%Z).
      { replace (prec f) with (1 + (prec f - 1))%Z at 1 by lia.
        rewrite Z.pow_add_r by lia. reflexivity. }
      exists (Z.sgn m * 2 ^ (prec f - 1))%Z, (e + 1)%Z. split; [| split].
      + rewrite E, pow2_succ.
        assert (M : m = (Z.sgn m * 2 ^ (prec f - 1) * 2)%Z).
        { destruct (Z.sgn_spec m) as [[? ->] | [[? ->] | [? ->]]]; lia. }
        rewrite M at 1. rewrite inject_Z_mult. change (inject_Z 2) with 2. ring.
      + destruct (Z.sgn_spec m) as [[? ->] | [[? ->] | [? ->]]]; lia.
      + lia.
    - exists m, e. split; [exact E | split; [lia | exact He]]. }
  clear m e E Hm He. destruct R as (m & e & E & Hm & He).
  assert (Habs : Qabs q < pow2 (prec f + e)).
  { rewrite E, Qabs_Qmult, Qabs_pow2, Qabs_inject_Z, pow2_add.
    apply Qmult_lt_r; [apply pow2_pos |].
    rewrite (pow2_Z (prec f)) by lia. rewrite <- Zlt_Qlt. exact Hm. }
  assert (Hq : (quantum f q <= e)%Z).
  { unfold quantum.
    assert (A : (ilog2 (Qabs q) < prec f + e)%Z).
    { apply pow2_lt_inv. eapply Qle_lt_trans; [| exact Habs].
      apply ilog2_spec, Qabs_pos_lt, N. }
    lia. }
  rewrite rounded_nonzero by exact N.
  rewrite (rne_comp _ (inject_Z (m * 2 ^ (e - quantum f q)))).
  - rewrite rne_Z, inject_Z_mult, <- (pow2_Z (e - quantum f q)) by lia.
    rewrite <- Qmult_assoc, <- pow2_add.
    replace (e - quantum f q + quantum f q)%Z with e by lia. rewrite E. reflexivity.
  - rewrite inject_Z_mult, <- (pow2_Z (e - quantum f q)) by lia.
    assert (HP : pow2 e == pow2 (e - quantum f q) * pow2 (quantum f q)).
    { rewrite <- pow2_add. replace (e - quantum f q + quantum f q)%Z with e by lia.
      reflexivity. }
    assert (P0 := pow2_pos (quantum f q)).
    set (P := pow2 (quantum f q)) in *. set (X := pow2 (e - quantum f q)) in *.
    rewrite E, HP. field. lra.
Qed.

Lemma rounded_representable (q : Q) : representable f (rounded f q).
Proof using precision.
  destruct (Qeq_dec q 0) as [Z0 | N].
  - rewrite (rounded_0 q Z0). exists 0%Z, (emin f - prec f + 1)%Z.
    split; [ring | split; [| lia]].
    cbn. apply Z.pow_nonneg. lia.
  - rewrite rounded_nonzero by exact N.
    exists (rne (q / pow2 (quantum f q))), (quantum f q).
    split; [reflexivity | split; [| apply quantum_low]].
    apply Z.abs_le.
    destruct (Qlt_le_dec 0 q) as [P | NP].
    + split.
      * apply Z.le_trans with 0%Z; [assert (0 < 2 ^ prec f)%Z by (apply Z.pow_pos_nonneg; lia); lia |].
        rewrite <- (rne_Z 0) at 1. apply rne_monotone.
        apply Qle_shift_div_l; [apply pow2_pos |]. change (inject_Z 0) with 0. lra.
      * rewrite <- (rne_Z (2 ^ prec f)). apply rne_monotone.
        apply Qlt_le_weak, scaled_below, P.
    + assert (P : 0 < - q).
      { destruct (Qlt_le_dec 0 (- q)) as [H | H]; [exact H |]. exfalso. apply N. lra. }
      assert (S := scaled_below (- q) P). rewrite (quantum_opp q N) in S.
      split.
      * rewrite <- (rne_Z (- 2 ^ prec f)). apply rne_monotone.
        rewrite inject_Z_opp.
        assert (S' : - q / pow2 (quantum f q) == - (q / pow2 (quantum f q))).
        { field. apply Qnot_eq_sym, Qlt_not_eq, pow2_pos. }
        rewrite S' in S. lra.
      * apply Z.le_trans with 0%Z; [| apply Z.pow_nonneg; lia].
        rewrite <- (rne_Z 0). apply rne_monotone.
        apply Qle_shift_div_r; [apply pow2_pos |]. change (inject_Z 0) with 0. lra.
Qed.

(** The error of one rounding is at most half a unit of the last
    place. *)
Lemma rounded_error (q : Q) :
  Qabs (rounded f q - q) <= (1 # 2) * pow2 (quantum f q).
Proof using precision.
  destruct (Qeq_dec q 0) as [Z0 | N].
  - rewrite (rounded_0 q Z0).
    assert (A : Qabs (0 - q) == 0) by (rewrite Z0; reflexivity).
    rewrite A. apply Qmult_le_0_compat; [lra | apply Qlt_le_weak, pow2_pos].
  - rewrite rounded_nonzero by exact N.
    set (p := pow2 (quantum f q)). assert (Hp : 0 < p) by apply pow2_pos.
    assert (A : inject_Z (rne (q / p)) * p - q == (inject_Z (rne (q / p)) - q / p) * p).
    { field. lra. }
    rewrite A, Qabs_Qmult, (Qabs_pos p) by lra.
    apply Qmult_le_compat_r; [apply rne_error | lra].
Qed.

End Rounding.

Section Values.

Local Open Scope Q_scope.

Lemma is_value_comp (a : fval) (x y : Q) : is_value a x -> x == y -> is_value a y.
Proof. intros (q & E & V) H. exists q. split; [exact E | rewrite V; exact H]. Qed.

Lemma is_value_Finite (q : Q) : is_value (Finite q) q.
Proof. exists q. split; reflexivity. Qed.

Lemma is_value_unique (a : fval) (x y : Q) : is_value a x -> is_value a y -> x == y.
Proof.
  intros (q & E & V) (q' & E' & V'). rewrite E in E'. injection E' as <-.
  rewrite <- V, <- V'. reflexivity.
Qed.

Lemma is_value_eq (q q' : Q) : q == q' -> is_value (Finite q) q'.
Proof. intros E. exists q. split; [reflexivity | exact E]. Qed.

End Values.

Section Operations.

Local Open Scope Q_scope.

Variable f : format.
Hypothesis precision : (1 <= prec f)%Z.

Lemma pow2_representable (k : Z) :
  (emin f - prec f + 1 <= k)%Z -> representable f (pow2 k).
Proof using precision.
  intros Hk. exists 1%Z, k. split; [ring | split; [| exact Hk]].
  cbn. assert (0 < 2 ^ prec f)%Z by (apply Z.pow_pos_nonneg; lia). lia.
Qed.

(** A value within the range of the format rounds to a number. *)
Lemma round_value (q : Q) (k : Z) :
  Qabs q <= pow2 k -> (emin f - prec f + 1 <= k)%Z -> (k <= emax f)%Z ->
  is_value (round f q) (rounded f q).
Proof using precision.
  intros Hq Hlow Hhigh. unfold round.
  assert (B : Qabs (rounded f q) <= pow2 k).
  { apply Qabs_Qle_condition in Hq. apply Qabs_Qle_condition.
    assert (E := rounded_exact f precision (pow2 k) (pow2_representable k Hlow)).
    split.
    - rewrite <- E, <- (rounded_opp f precision). apply rounded_monotone; [exact precision | tauto].
    - rewrite <- E. apply rounded_monotone; [exact precision | tauto]. }
  destruct (Qle_bool (pow2 (emax f + 1)) (Qabs (rounded f q))) eqn:O.
  - exfalso. apply Qle_bool_iff in O.
    assert (C : pow2 k < pow2 (emax f + 1)) by (apply pow2_lt; lia).
    apply (Qlt_irrefl (pow2 k)). eapply Qlt_le_trans; [exact C |].
    eapply Qle_trans; eassumption.
  - exists (Qred (rounded f q)). split; [reflexivity | apply Qred_correct].
Qed.

Lemma add_value (a b : fval) (x y : Q) (k : Z) :
  is_value a x -> is_value b y ->
  Qabs (x + y) <= pow2 k -> (emin f - prec f + 1 <= k)%Z -> (k <= emax f)%Z ->
  is_value (add f a b) (rounded f (x + y)).
Proof using precision.
  intros (x' & -> & Ex) (y' & -> & Ey) B L U. cbn [add].
  assert (E : x' + y' == x + y) by (rewrite Ex, Ey; reflexivity).
  apply is_value_comp with (rounded f (x' + y')).
  - apply round_value with k; [rewrite E; exact B | exact L | exact U].
  - apply (rounded_comp f precision). exact E.
Qed.

Lemma sub_value (a b : fval) (x y : Q) (k : Z) :
  is_value a x -> is_value b y ->
  Qabs (x - y) <= pow2 k -> (emin f - prec f + 1 <= k)%Z -> (k <= emax f)%Z ->
  is_value (sub f a b) (rounded f (x - y)).
Proof using precision.
  intros (x' & -> & Ex) (y' & -> & Ey) B L U. cbn [sub opp add].
  assert (E : x' + - y' == x - y) by (rewrite Ex, Ey; reflexivity).
  apply is_value_comp with (rounded f (x' + - y')).
  - apply round_value with k; [rewrite E; exact B | exact L | exact U].
  - apply (rounded_comp f precision). exact E.
Qed.

Lemma mul_value (a b : fval) (x y : Q) (k : Z) :
  is_value a x -> is_value b y ->
  Qabs (x * y) <= pow2 k -> (emin f - prec f + 1 <= k)%Z -> (k <= emax f)%Z ->
  is_value (mul f a b) (rounded f (x * y)).
Proof using precision.
  intros (x' & -> & Ex) (y' & -> & Ey) B L U. cbn [mul].
  assert (E : x' * y' == x * y) by (rewrite Ex, Ey; reflexivity).
  apply is_value_comp with (rounded f (x' * y')).
  - apply round_value with k; [rewrite E; exact B | exact L | exact U].
  - apply (rounded_comp f precision). exact E.
Qed.

Lemma div_value (a b : fval) (x y : Q) (k : Z) :
  is_value a x -> is_value b y -> ~ y == 0 ->
  Qabs (x / y) <= pow2 k -> (emin f - prec f + 1 <= k)%Z -> (k <= emax f)%Z ->
  is_value (div f a b) (rounded f (x / y)).
Proof using precision.
  intros (x' & -> & Ex) (y' & -> & Ey) N B L U. cbn [div].
  destruct (Qeq_bool y' 0) eqn:Z0.
  - exfalso. apply Qeq_bool_eq in Z0. apply N. rewrite <- Ey. exact Z0.
  - assert (E : x' / y' == x / y) by (rewrite Ex, Ey; reflexivity).
    apply is_value_comp with (rounded f (x' / y')).
    + apply round_value with k; [rewrite E; exact B | exact L | exact U].
    + apply (rounded_comp f precision). exact E.
Qed.

Lemma of_Z_value (z : Z) :
  (Z.abs z <= 2 ^ prec f)%Z -> (emin f - prec f + 1 <= 0)%Z -> (prec f <= emax f)%Z ->
  is_value (of_Z f z) (inject_Z z).
Proof using precision.
  intros Hz L U. unfold of_Z.
  assert (R : representable f (inject_Z z)).
  { exists z, 0%Z. split; [change (pow2 0) with 1; ring | split; [exact Hz | exact L]]. }
  apply is_value_comp with (rounded f (inject_Z z)).
  - apply round_value with (prec f); [| lia | exact U].
    rewrite Qabs_inject_Z, (pow2_Z (prec f)) by lia. rewrite <- Zle_Qle. exact Hz.
  - apply (rounded_exact f precision). exact R.
Qed.

(** A rounded value below the largest power of two is a number. *)
Lemma round_below (q : Q) :
  Qabs (rounded f q) < pow2 (emax f + 1) -> is_value (round f q) (rounded f q).
Proof using precision.
  intros B. unfold round.
  destruct (Qle_bool (pow2 (emax f + 1)) (Qabs (rounded f q))) eqn:O.
  - exfalso. apply Qle_bool_iff in O. apply (Qlt_irrefl (pow2 (emax f + 1))).
    eapply Qle_lt_trans; eassumption.
  - exists (Qred (rounded f q)). split; [reflexivity | apply Qred_correct].
Qed.

(** A whole number rounds to a whole number. *)
Lemma rounded_whole (z : Z) :
  exists z' : Z, rounded f (inject_Z z) == inject_Z z'.
Proof using precision.
  destruct (Z.eq_dec z 0) as [-> | N].
  - exists 0%Z. rewrite (rounded_0 f precision); reflexivity.
  - assert (NQ : ~ inject_Z z == 0).
    { change 0 with (inject_Z 0). rewrite inject_Z_injective. exact N. }
    destruct (Z_le_gt_dec 0 (quantum f (inject_Z z))) as [Coarse | Fine].
    + exists (rne (inject_Z z / pow2 (quantum f (inject_Z z)))
              * 2 ^ quantum f (inject_Z z))%Z.
      rewrite (rounded_nonzero f precision _ NQ), inject_Z_mult.
      assert (E := pow2_Z (quantum f (inject_Z z)) Coarse).
      apply Qmult_comp; [reflexivity | exact E].
    + exists z. apply (rounded_exact f precision).
      exists (z * 2 ^ (- quantum f (inject_Z z)))%Z, (quantum f (inject_Z z)).
      split; [| split; [| apply (quantum_low f precision)]].
      * rewrite inject_Z_mult, <- (pow2_Z (- quantum f (inject_Z z))) by lia.
        rewrite <- Qmult_assoc, (Qmult_comm (pow2 (- _))), pow2_opp. ring.
      * assert (P : 0 < Qabs (inject_Z z)) by (apply Qabs_pos_lt, NQ).
        destruct (ilog2_spec _ P) as [_ U].
        assert (B : Qabs (inject_Z z) < pow2 (quantum f (inject_Z z) + prec f)).
        { eapply Qlt_le_trans; [exact U |]. apply pow2_le. unfold quantum. lia. }
        rewrite Qabs_inject_Z, pow2_add in B.
        rewrite (pow2_Z (prec f)) in B by lia.
        assert (C : inject_Z (Z.abs z) * pow2 (- quantum f (inject_Z z))
                    < inject_Z (2 ^ prec f)).
        { apply (Qmult_lt_r _ _ (pow2 (quantum f (inject_Z z)))); [apply pow2_pos |].
          rewrite <- Qmult_assoc, (Qmult_comm (pow2 (- _))), pow2_opp, Qmult_1_r.
          rewrite (Qmult_comm (inject_Z (2 ^ prec f))). exact B. }
        rewrite (pow2_Z (- quantum f (inject_Z z))) in C by lia.
        rewrite <- inject_Z_mult, <- Zlt_Qlt in C.
        rewrite Z.abs_mul, (Z.abs_eq (2 ^ _)) by (apply Z.pow_nonneg; lia). lia.
Qed.

(** The error of a rounding, from a bound of the value. *)
Lemma rounded_within (q : Q) (k : Z) :
  Qabs q < pow2 k -> (emin f < k)%Z ->
  Qabs (rounded f q - q) <= pow2 (k - prec f - 1).
Proof using precision.
  intros B L. destruct (Qeq_dec q 0) as [Z0 | N].
  - assert (Q0 : Qabs (rounded f q - q) == 0).
    { rewrite (rounded_0 f precision q Z0), Z0. reflexivity. }
    rewrite Q0. apply Qlt_le_weak, pow2_pos.
  - eapply Qle_trans; [apply rounded_error; exact precision |].
    assert (Q1 : (quantum f q <= k - prec f)%Z).
    { unfold quantum.
      assert (A : (ilog2 (Qabs q) < k)%Z).
      { apply pow2_lt_inv. eapply Qle_lt_trans; [| exact B].
        apply ilog2_spec, Qabs_pos_lt, N. }
      lia. }
    replace (k - prec f - 1)%Z with (-1 + (k - prec f))%Z by lia.
    rewrite pow2_add. change (pow2 (-1)) with (1 # 2).
    apply Qmult_le_l; [reflexivity | apply pow2_le, Q1].
Qed.

End Operations.

Section Integers.

Local Open Scope Q_scope.

Lemma truncate_nonneg (q : Q) : 0 <= q -> truncate q = Qfloor q.
Proof.
  intros Hq. destruct q as [n d]. unfold truncate, Qfloor. cbn [Qnum Qden].
  apply Z.quot_div_nonneg; [| reflexivity].
  unfold Qle in Hq. cbn in Hq. lia.
Qed.

(** The conversion of a value that is not negative and fits. *)
Lemma to_integer_nonneg (bits : Z) (a : fval) (q : Q) :
  is_value a q -> 0 <= q -> q < inject_Z (2 ^ (bits - 1)) ->
  to_integer bits a = Qfloor q.
Proof.
  intros (q' & -> & E) L U. cbn [to_integer].
  rewrite truncate_nonneg by (rewrite E; exact L).
  rewrite (Qfloor_comp _ _ E).
  assert (A : (0 <= Qfloor q)%Z).
  { rewrite <- (Qfloor_Z 0). apply Qfloor_resp_le. exact L. }
  assert (B : (Qfloor q < 2 ^ (bits - 1))%Z).
  { rewrite Zlt_Qlt. eapply Qle_lt_trans; [apply Qfloor_le | exact U]. }
  assert (P : (0 < 2 ^ (bits - 1))%Z) by lia.
  destruct (Z.leb_spec (- 2 ^ (bits - 1)) (Qfloor q)); [| lia].
  destruct (Z.ltb_spec (Qfloor q) (2 ^ (bits - 1))); [reflexivity | lia].
Qed.

End Integers.

(** ** The scheduler *)

Section Scheduler.

Import Sidereal.
Local Open Scope Z_scope.

(** With enough fuel the carry loop runs to its exit. *)
Lemma carry_loop_exit (fuel : nat) :
  forall sec t,
    0 <= t -> (Z.to_nat (t / 10) <= fuel)%nat ->
    carry_loop fuel sec t = (sec + t / 10, t mod 10).
Proof.
  induction fuel as [|n IH]; intros sec t Ht Hfuel; simpl.
  - assert (0 <= t / 10) by (apply Z.div_pos; lia).
    assert (t / 10 = 0) by lia.
    assert (t mod 10 = t) by (pose proof (Z.div_mod t 10); lia).
    f_equal; lia.
  - destruct (Z.leb_spec 10 t) as [Hge|Hlt].
    + assert (Hq : (t - 10) / 10 = t / 10 - 1).
      { replace t with ((t - 10) + 1 * 10) at 2 by ring.
        rewrite Z.div_add by lia. lia. }
      assert (Hm : (t - 10) mod 10 = t mod 10).
      { replace t with ((t - 10) + 1 * 10) at 2 by ring.
        rewrite Z.mod_add by lia. reflexivity. }
      rewrite IH by lia. rewrite Hq, Hm. f_equal; lia.
    + rewrite Z.div_small, Z.mod_small by lia. f_equal; lia.
Qed.

Lemma hundredth_val_range (now : timespec) :
  normalized now ->
  uint (Z.quot (tv_nsec now) HUNDREDTH_IN_NANOS) = tv_nsec now / 10000000
  /\ 0 <= tv_nsec now / 10000000 < 100.
Proof.
  unfold normalized, uint, HUNDREDTH_IN_NANOS, SECOND_IN_NANOS. intros Hn.
  change (Z.quot (1000 * 1000 * 1000) 100) with 10000000.
  rewrite Z.quot_div_nonneg by lia.
  assert (0 <= tv_nsec now / 10000000 < 100).
  { split; [apply Z.div_pos; lia | apply Z.div_lt_upper_bound; lia]. }
  split; [apply Z.mod_small; lia | assumption].
Qed.

(** The nanosecond field and the second of the expiry, in closed form. *)
Lemma wake_time_fields (now : timespec) :
  normalized now ->
  let t := (tv_nsec now / 10000000 + 5) / 10 + 1 in
  wake_time now =
    if t mod 10 =? 0
    then mk_timespec (tv_sec now + t / 10 - 1) (1000000000 - 250000)
    else mk_timespec (tv_sec now + t / 10) (t mod 10 * 100000000 - 250000).
Proof.
  intros Hn t. unfold wake_time.
  destruct (hundredth_val_range now Hn) as [-> Hhv].
  assert (Ht : 1 <= t <= 11).
  { unfold t. split.
    - assert (0 <= (tv_nsec now / 10000000 + 5) / 10)
        by (apply Z.div_pos; lia). lia.
    - assert ((tv_nsec now / 10000000 + 5) / 10 < 11)
        by (apply Z.div_lt_upper_bound; lia). lia. }
  assert (E1 : uint (tv_nsec now / 10000000 + 5) = tv_nsec now / 10000000 + 5)
    by (apply Z.mod_small; lia).
  rewrite E1.
  rewrite (Z.quot_div_nonneg (tv_nsec now / 10000000 + 5) 10) by lia.
  fold t.
  assert (E2 : uint t = t) by (apply Z.mod_small; lia).
  rewrite E2. rewrite (Z.quot_div_nonneg t 10) by lia.
  rewrite carry_loop_exit by lia. cbn [fst snd].
  unfold TENTH_IN_NANOS, SECOND_IN_NANOS, FUDGE.
  change (Z.quot (1000 * 1000 * 1000) 10) with 100000000.
  change (1000 * 1000 * 1000) with 1000000000.
  change (250 * 1000) with 250000.
  destruct (Z.eqb_spec (t mod 10) 0); reflexivity.
Qed.

(** The expiry as an instant: the reading cut to hundredths of a
    second, rounded to the nearest tenth (a half goes up), plus one
    tenth, minus [FUDGE]. *)
Lemma wake_time_nanos (now : timespec) :
  normalized now ->
  nanos (wake_time now)
  = ((nanos now / 10000000 + 5) / 10 + 1) * 100000000 - FUDGE.
Proof.
  intros Hn. rewrite (wake_time_fields now Hn). cbv zeta.
  pose proof (hundredth_val_range now Hn) as [_ Hhv].
  unfold normalized in Hn. unfold nanos at 2, FUDGE.
  set (hv := tv_nsec now / 10000000) in *.
  assert (Hd : (tv_sec now * 1000000000 + tv_nsec now) / 10000000
               = tv_sec now * 100 + hv).
  { unfold hv.
    replace (tv_sec now * 1000000000 + tv_nsec now)
      with (tv_nsec now + (tv_sec now * 100) * 10000000) by ring.
    rewrite Z.div_add by lia. ring. }
  rewrite Hd.
  assert (Hd2 : (tv_sec now * 100 + hv + 5) / 10
                = tv_sec now * 10 + (hv + 5) / 10).
  { replace (tv_sec now * 100 + hv + 5)
      with ((hv + 5) + (tv_sec now * 10) * 10) by ring.
    rewrite Z.div_add by lia. ring. }
  rewrite Hd2.
  set (t := (hv + 5) / 10 + 1).
  pose proof (Z.div_mod t 10 ltac:(lia)) as Hdm.
  pose proof (Z.mod_pos_bound t 10 ltac:(lia)) as Hmb.
  replace (tv_sec now * 10 + (hv + 5) / 10 + 1) with (tv_sec now * 10 + t)
    by (unfold t; ring).
  destruct (Z.eqb_spec (t mod 10) 0) as [E|E]; unfold nanos; cbn [tv_sec tv_nsec]; lia.
Qed.

Lemma wake_time_normalized (now : timespec) :
  normalized now -> normalized (wake_time now).
Proof.
  intros Hn. rewrite (wake_time_fields now Hn). cbv zeta.
  set (t := (tv_nsec now / 10000000 + 5) / 10 + 1).
  pose proof (Z.mod_pos_bound t 10 ltac:(lia)) as Hmb.
  destruct (Z.eqb_spec (t mod 10) 0) as [E|E];
    unfold normalized; cbn [tv_nsec]; lia.
Qed.

End Scheduler.

Section Spacing.

Import Sidereal.
Local Open Scope Z_scope.

(** Every expiry lies on the grid of tenths of a second, [FUDGE]
    early. *)
Lemma wake_time_on_grid (now : timespec) :
  normalized now ->
  (nanos (wake_time now) + FUDGE) mod 100000000 = 0.
Proof.
  intros Hn. rewrite (wake_time_nanos now Hn).
  replace (((nanos now / 10000000 + 5) / 10 + 1) * 100000000 - FUDGE + FUDGE)
    with (((nanos now / 10000000 + 5) / 10 + 1) * 100000000) by ring.
  apply Z.mod_mul. lia.
Qed.

(** Every expiry is later than the reading it was computed from. *)
Lemma wake_time_ahead (now : timespec) :
  normalized now -> nanos now < nanos (wake_time now).
Proof.
  intros Hn. rewrite (wake_time_nanos now Hn). unfold FUDGE.
  generalize (nanos now). intros n. Z.div_mod_to_equations. lia.
Qed.

(** A reading taken when the previous expiry has passed gives an
    expiry a whole number of tenths later. *)
Lemma wake_time_step (prev r : timespec) :
  normalized prev -> normalized r ->
  Spec.fires_after prev r ->
  nanos (wake_time prev) < nanos (wake_time r)
  /\ exists k, 1 <= k
       /\ nanos (wake_time r) - nanos (wake_time prev) = k * TENTH_IN_NANOS.
Proof.
  unfold Spec.fires_after. intros Hp Hr Hfire.
  pose proof (wake_time_ahead r Hr) as Hahead.
  pose proof (wake_time_nanos prev Hp) as Ep.
  pose proof (wake_time_nanos r Hr) as Er.
  split; [lia|].
  exists (((nanos r / 10000000 + 5) / 10 + 1)
          - ((nanos prev / 10000000 + 5) / 10 + 1)).
  change TENTH_IN_NANOS with 100000000. split; lia.
Qed.

(** A prompt reading gives the very next tenth. *)
Lemma wake_time_next (prev r : timespec) :
  normalized prev -> normalized r ->
  Spec.fires_after prev r -> Spec.prompt prev r ->
  nanos (wake_time r) - nanos (wake_time prev) = TENTH_IN_NANOS.
Proof.
  unfold Spec.fires_after, Spec.prompt. intros Hp Hr Hfire Hprompt.
  rewrite (wake_time_nanos r Hr).
  rewrite (wake_time_nanos prev Hp) in *.
  change TENTH_IN_NANOS with 100000000.
  change HUNDREDTH_IN_NANOS with 10000000 in Hprompt.
  unfold FUDGE in *. change (250 * 1000) with 250000 in *.
  revert Hfire Hprompt. generalize (nanos r) (nanos prev). intros b a.
  intros Hfire Hprompt.
  Z.div_mod_to_equations. lia.
Qed.

(** A late reading skips a tenth at least. *)
Lemma wake_time_late (prev r : timespec) :
  normalized prev -> normalized r ->
  Spec.late prev r ->
  2 * TENTH_IN_NANOS <= nanos (wake_time r) - nanos (wake_time prev).
Proof.
  unfold Spec.late. intros Hp Hr Hlate.
  rewrite (wake_time_nanos r Hr).
  rewrite (wake_time_nanos prev Hp) in *.
  change TENTH_IN_NANOS with 100000000.
  change HUNDREDTH_IN_NANOS with 10000000 in Hlate.
  unfold FUDGE in *. change (250 * 1000) with 250000 in *.
  revert Hlate. generalize (nanos r) (nanos prev). intros b a Hlate.
  Z.div_mod_to_equations. lia.
Qed.

Lemma late_chain (readings : list timespec) :
  Forall normalized readings ->
  Spec.chain
    (fun a b => Spec.late a b ->
                2 * TENTH_IN_NANOS <= nanos (wake_time b) - nanos (wake_time a))
    readings.
Proof.
  induction readings as [|a [|b tl] IH]; intros Hn.
  - exact I.
  - exact I.
  - inversion Hn as [|? ? Ha Hn']; subst.
    pose proof Hn' as Hn''. inversion Hn'' as [|? ? Hb _]; subst.
    split; [apply wake_time_late; assumption | apply IH; exact Hn'].
Qed.

Lemma wake_chain (readings : list timespec) :
  Forall normalized readings ->
  Spec.chain Spec.fires_after readings ->
  Spec.chain
    (fun a b => nanos a < nanos b
                /\ exists k, 1 <= k /\ nanos b - nanos a = k * TENTH_IN_NANOS)
    (map wake_time readings)
  /\ (Spec.chain Spec.prompt readings ->
      Spec.chain (fun a b => nanos b - nanos a = TENTH_IN_NANOS)
                 (map wake_time readings)).
Proof.
  induction readings as [|a [|b tl] IH]; intros Hn Hc.
  - simpl. auto.
  - simpl. auto.
  - inversion Hn as [|? ? Ha Hn']; subst.
    pose proof Hn' as Hn''. inversion Hn'' as [|? ? Hb _]; subst.
    destruct Hc as [Hab Hc].
    destruct (IH Hn' Hc) as [IH1 IH2].
    split.
    + change (map wake_time (a :: b :: tl))
        with (wake_time a :: map wake_time (b :: tl)).
      change (map wake_time (b :: tl))
        with (wake_time b :: map wake_time tl) in *.
      split; [apply wake_time_step; assumption | exact IH1].
    + intros [Hpab Hp].
      change (map wake_time (a :: b :: tl))
        with (wake_time a :: map wake_time (b :: tl)).
      change (map wake_time (b :: tl))
        with (wake_time b :: map wake_time tl) in *.
      split; [apply wake_time_next; assumption | exact (IH2 Hp)].
Qed.

End Spacing.

(** ** Runs of the sidereal clock in which no call fails *)

Section HealthyRun.

Import Sidereal.

Variable e : env.
Variable rd : nat -> timespec.
Hypothesis clock_ok : forall k, clock_at e k = Some (rd k).
Hypothesis ioctl_ok : forall k, ioctl_at e k = true.
Hypothesis timer_ok : forall k, timer_at e k = true.

Lemma write_reg_ok (reg data : Z) (s : sys) :
  write_reg reg data e s
  = Running tt (mk_sys (clock_calls s) (S (ioctl_calls s)) (timer_calls s)
                       ((uchar reg, uchar data) :: wire s) (armed s) (stderr s)).
Proof.
  unfold write_reg, bind, spi_transfer. rewrite ioctl_ok. reflexivity.
Qed.

Lemma schedule_timer_ok (s : sys) :
  schedule_timer e s
  = Running tt (mk_sys (S (clock_calls s)) (ioctl_calls s) (S (timer_calls s))
                       (wire s) (wake_time (rd (clock_calls s)) :: armed s)
                       (stderr s)).
Proof.
  unfold schedule_timer, bind, clock_gettime, timer_settime.
  rewrite clock_ok. cbn [fst snd]. unfold ret.
  cbn [clock_calls ioctl_calls timer_calls wire armed stderr].
  rewrite timer_ok. reflexivity.
Qed.

Lemma bind_running {A B} (c : M A) (k : A -> M B) (s s' : sys) (a : A) :
  c e s = Running a s' -> bind c k e s = k a e s'.
Proof. intros E. unfold bind. rewrite E. reflexivity. Qed.

Lemma write_frame_ok (o : options) (h m sec tenth_val : Z) (s : sys) :
  exists w,
    write_frame o h m sec tenth_val e s
    = Running tt (mk_sys (clock_calls s) (9 + ioctl_calls s) (timer_calls s)
                         w (armed s) (stderr s)).
Proof.
  unfold write_frame.
  repeat (erewrite bind_running by apply write_reg_ok;
          cbn [clock_calls ioctl_calls timer_calls wire armed stderr]).
  rewrite write_reg_ok.
  cbn [clock_calls ioctl_calls timer_calls wire armed stderr].
  eexists. reflexivity.
Qed.

Lemma update_display_ok (o : options) (s : sys) :
  ends (sidereal_hours (longitude o) (rd (clock_calls s))) = true ->
  exists s',
    update_display o e s = Running tt s'
    /\ clock_calls s' = S (S (clock_calls s))
    /\ armed s' = wake_time (rd (S (clock_calls s))) :: armed s.
Proof.
  intros Hends. unfold update_display.
  erewrite bind_running
    by (unfold clock_gettime; rewrite clock_ok; reflexivity).
  cbn [fst snd].
  erewrite bind_running by reflexivity.
  destruct (sidereal_hours (longitude o) (rd (clock_calls s))) as [g |];
    [| discriminate Hends].
  match goal with
  | |- context [write_frame ?o ?h ?m ?sec ?t] =>
      destruct (write_frame_ok o h m sec t
                  (mk_sys (S (clock_calls s)) (ioctl_calls s) (timer_calls s)
                          (wire s) (armed s) (stderr s))) as [w Ew]
  end.
  erewrite bind_running by exact Ew.
  rewrite schedule_timer_ok.
  cbn [clock_calls ioctl_calls timer_calls wire armed stderr].
  eexists. split; [reflexivity|]. split; reflexivity.
Qed.

Lemma updates_ok (o : options) (n : nat) :
  forall s,
    (forall i, (i < n)%nat ->
       ends (sidereal_hours (longitude o) (rd (clock_calls s + 2 * i)%nat))
       = true) ->
    exists s',
      updates n o e s = Running tt s'
      /\ clock_calls s' = (clock_calls s + 2 * n)%nat
      /\ rev (armed s')
         = rev (armed s)
           ++ map (fun i => wake_time (rd (clock_calls s + 2 * i + 1)%nat))
                  (seq 0 n).
Proof.
  induction n as [|n IH]; intros s Hends.
  - exists s. simpl. rewrite app_nil_r. repeat split. lia.
  - destruct (update_display_ok o s) as (s1 & E1 & C1 & A1).
    { rewrite <- (Hends O) by lia. do 3 f_equal. lia. }
    destruct (IH s1) as (s2 & E2 & C2 & A2).
    { intros i Hi. rewrite <- (Hends (S i)) by lia. do 3 f_equal. lia. }
    exists s2. split; [|split].
    + cbn [updates]. unfold bind. rewrite E1. exact E2.
    + lia.
    + rewrite A2, A1. cbn [rev]. rewrite <- app_assoc. f_equal.
      cbn [seq map app]. f_equal.
      * f_equal. f_equal. lia.
      * rewrite <- seq_shift, map_map, C1.
        apply map_ext. intros i. f_equal. f_equal. lia.
Qed.

End HealthyRun.

(** ** The expiry time (claims C3 and C4) *)

Section WakeTime.

Import Sidereal.
Local Open Scope Z_scope.

(** C3, as stated, fails: a reading of 0.05 s past a tenth is not
    rounded up to the next tenth (0.1 s) but taken to 0.2 s, less
    [FUDGE]. *)
Lemma wake_time_not_rounded_up :
  ~ Spec.rounded_up_minus_fudge (mk_timespec 0 50000000).
Proof.
  unfold Spec.rounded_up_minus_fudge. vm_compute.
  intros [E|E]; discriminate E.
Qed.

(** C3, amended: for every clock reading, the expiry time is the
    reading cut to hundredths of a second and rounded to the nearest
    tenth (a half goes up), plus one tenth, minus [FUDGE].  So it is
    the next tenth-of-second boundary minus [FUDGE] for a reading in
    the first half of a tenth, and the boundary after that one minus
    [FUDGE] for a reading in the second half. *)
Theorem wake_time_nearest_tenth_plus_one (now : timespec) :
  normalized now ->
  normalized (wake_time now)
  /\ nanos (wake_time now)
     = ((nanos now / HUNDREDTH_IN_NANOS + 5) / 10 + 1) * TENTH_IN_NANOS - FUDGE
  /\ (nanos now mod TENTH_IN_NANOS < 5 * HUNDREDTH_IN_NANOS ->
      nanos (wake_time now) = Spec.next_tenth_after (nanos now) - FUDGE)
  /\ (5 * HUNDREDTH_IN_NANOS <= nanos now mod TENTH_IN_NANOS ->
      nanos (wake_time now)
      = Spec.next_tenth_after (nanos now) + TENTH_IN_NANOS - FUDGE).
Proof.
  intros Hn.
  change TENTH_IN_NANOS with 100000000.
  change HUNDREDTH_IN_NANOS with 10000000.
  split; [apply wake_time_normalized; exact Hn|].
  split; [apply wake_time_nanos; exact Hn|].
  rewrite (wake_time_nanos now Hn). unfold Spec.next_tenth_after.
  generalize (nanos now). intros n.
  split; intros Hhalf; Z.div_mod_to_equations; lia.
Qed.

Lemma wake_time_nearest_tenth_plus_one_witness :
  normalized (mk_timespec 1500000059 950000000)
  /\ nanos (wake_time (mk_timespec 1500000059 950000000))
     = 1500000060100000000 - FUDGE.
Proof.
  assert (Hn : normalized (mk_timespec 1500000059 950000000))
    by (unfold normalized; simpl; lia).
  split; [exact Hn|].
  exact (proj1 (proj2
           (wake_time_nearest_tenth_plus_one
              (mk_timespec 1500000059 950000000) Hn))).
Defined.

(** C4, as stated, fails: in a run where no call fails and every
    callback runs after its expiry, a callback that takes its reading
    60 ms late gives an expiry two tenths of a second after the
    previous one. *)
Lemma late_tick_skips_a_tenth :
  let run := updates 2 defaults (Scenario.healthy Scenario.late) boot in
  exited run = false
  /\ Spec.chain Spec.fires_after
       (Spec.schedule_readings (Scenario.reading_of Scenario.late) 2)
  /\ Spec.wake_times run
     = [ mk_timespec 1500000000 99750000; mk_timespec 1500000000 299750000 ]
  /\ ~ Spec.chain Spec.tenth_apart (Spec.wake_times run).
Proof.
  cbv zeta.
  assert (E : Spec.wake_times
                (updates 2 defaults (Scenario.healthy Scenario.late) boot)
              = [ mk_timespec 1500000000 99750000;
                  mk_timespec 1500000000 299750000 ])
    by (vm_compute; reflexivity).
  split; [vm_compute; reflexivity|].
  split; [vm_compute; split; [discriminate | exact I]|].
  split; [exact E|].
  rewrite E. vm_compute. intros [[_ H] _]. apply H. reflexivity.
Qed.

(** C4, amended: in every run of [n] updates in which no call fails,
    every conversion comes to an end and each callback takes its
    reading when the previous expiry has passed, the expiry times given
    to the timer are each computed from the clock reading of the same
    callback, and each strictly exceeds the previous one by a whole
    number of tenths of a second, also across second, minute, hour and
    day boundaries; the spacing is exactly one tenth whenever the
    reading is taken less than 50 ms after the instant the previous
    expiry aimed at, and two tenths or more whenever it is taken
    later. *)
Theorem wake_times_strictly_increase
    (e : env) (rd : nat -> timespec) (o : options) (n : nat) :
  (forall k, clock_at e k = Some (rd k)) ->
  (forall k, ioctl_at e k = true) ->
  (forall k, timer_at e k = true) ->
  (forall i, (i < n)%nat ->
     ends (sidereal_hours (longitude o) (rd (2 * i)%nat)) = true) ->
  Forall normalized (Spec.schedule_readings rd n) ->
  Spec.chain Spec.fires_after (Spec.schedule_readings rd n) ->
  let targets := Spec.wake_times (updates n o e boot) in
  (exists s', updates n o e boot = Running tt s')
  /\ targets = map wake_time (Spec.schedule_readings rd n)
  /\ Forall normalized targets
  /\ Spec.chain
       (fun a b => nanos a < nanos b
                   /\ exists k, 1 <= k
                        /\ nanos b - nanos a = k * TENTH_IN_NANOS)
       targets
  /\ (Spec.chain Spec.prompt (Spec.schedule_readings rd n) ->
      Spec.chain (fun a b => nanos b - nanos a = TENTH_IN_NANOS) targets)
  /\ Spec.chain
       (fun a b => Spec.late a b ->
                   2 * TENTH_IN_NANOS
                   <= nanos (wake_time b) - nanos (wake_time a))
       (Spec.schedule_readings rd n).
Proof.
  intros Hclock Hioctl Htimer Hends Hnorm Hfire targets.
  destruct (updates_ok e rd Hclock Hioctl Htimer o n boot Hends)
    as (s' & Erun & _ & Earmed).
  assert (Et : targets = map wake_time (Spec.schedule_readings rd n)).
  { unfold targets, Spec.wake_times. rewrite Erun. cbn [final].
    rewrite Earmed. cbn [boot armed rev app clock_calls].
    unfold Spec.schedule_readings. rewrite map_map.
    apply map_ext. intros i. f_equal. }
  split; [exists s'; exact Erun|].
  split; [exact Et|].
  rewrite Et.
  split; [| split; [| split]].
  - apply Forall_map. revert Hnorm. apply Forall_impl.
    intros a. apply wake_time_normalized.
  - apply wake_chain; assumption.
  - apply wake_chain; assumption.
  - apply late_chain; assumption.
Qed.

Lemma wake_times_strictly_increase_witness :
  Spec.wake_times (updates 3 defaults (Scenario.healthy Scenario.on_time) boot)
  = [ mk_timespec 1500000059 999750000; mk_timespec 1500000060 99750000;
      mk_timespec 1500000060 199750000 ].
Proof.
  assert (He : forall i, (i < 3)%nat ->
                 ends (sidereal_hours (longitude defaults)
                         (Scenario.reading_of Scenario.on_time (2 * i)%nat))
                 = true).
  { intros i Hi. destruct i as [|[|[|i]]]; [vm_compute; reflexivity .. | lia]. }
  assert (Hn : Forall normalized
                 (Spec.schedule_readings
                    (Scenario.reading_of Scenario.on_time) 3))
    by (repeat constructor; simpl; lia).
  assert (Hf : Spec.chain Spec.fires_after
                 (Spec.schedule_readings
                    (Scenario.reading_of Scenario.on_time) 3))
    by (vm_compute; repeat split; discriminate).
  exact (proj1 (proj2
           (wake_times_strictly_increase
              (Scenario.healthy Scenario.on_time)
              (Scenario.reading_of Scenario.on_time) defaults 3
              (fun k => eq_refl) (fun k => eq_refl) (fun k => eq_refl)
              He Hn Hf))).
Defined.


End WakeTime.

(** ** The sidereal conversion (claims C1 and C5)

  The conversion of lines 221-237, followed operation by operation.  For
  a reading the kernel can give (its clock is a count of nanoseconds in
  64 bits, so the second is below 9223372037) every intermediate value
  is a number, the day is found exactly, and the error of the result is
  that of a dozen roundings. *)

(** Division by a constant, as a product with the constant's inverse,
  which is the form [lra] reads. *)
Ltac by_inverse :=
  unfold Qdiv in *;
  repeat match goal with
         | |- context [Qinv ?c] =>
             let v := eval vm_compute in (Qinv c) in
             progress change (Qinv c) with v
         | H : context [Qinv ?c] |- _ =>
             let v := eval vm_compute in (Qinv c) in
             progress change (Qinv c) with v in H
         end.

Section LongDouble.

Import Sidereal.
Local Open Scope Q_scope.

Lemma ld_ok : (1 <= prec long_double)%Z.
Proof. discriminate. Qed.

Lemma dbl_ok : (1 <= prec double)%Z.
Proof. discriminate. Qed.

Lemma ld_monotone (q q' : Q) :
  q <= q' -> rounded long_double q <= rounded long_double q'.
Proof. apply rounded_monotone, ld_ok. Qed.

Lemma ld_Z (z : Z) :
  (Z.abs z <= 2 ^ 64)%Z -> rounded long_double (inject_Z z) == inject_Z z.
Proof.
  intros Hz. apply (rounded_exact long_double ld_ok).
  exists z, 0%Z. split; [change (pow2 0) with 1; ring | split; [exact Hz | discriminate]].
Qed.

Lemma ld_error (k : Z) (q : Q) :
  (-16382 < k)%Z -> Qabs q < pow2 k ->
  Qabs (rounded long_double q - q) <= pow2 (k - 65).
Proof.
  intros Hk B.
  replace (k - 65)%Z with (k - prec long_double - 1)%Z by (cbn; lia).
  apply (rounded_within long_double ld_ok); [exact B | exact Hk].
Qed.

Lemma dbl_exact (m e : Z) :
  (Z.abs m <= 2 ^ 53)%Z -> (-1074 <= e)%Z ->
  rounded double (inject_Z m * pow2 e) == inject_Z m * pow2 e.
Proof.
  intros Hm He. apply (rounded_exact double dbl_ok).
  exists m, e. split; [reflexivity | split; [exact Hm | exact He]].
Qed.

Lemma ld_exact (m e : Z) :
  (Z.abs m <= 2 ^ 64)%Z -> (-16445 <= e)%Z ->
  rounded long_double (inject_Z m * pow2 e) == inject_Z m * pow2 e.
Proof.
  intros Hm He. apply (rounded_exact long_double ld_ok).
  exists m, e. split; [reflexivity | split; [exact Hm | exact He]].
Qed.

#[global] Instance ld_proper : Proper (Qeq ==> Qeq) (rounded long_double).
Proof. intros x y E. apply (rounded_comp long_double ld_ok), E. Qed.

#[global] Instance dbl_proper : Proper (Qeq ==> Qeq) (rounded double).
Proof. intros x y E. apply (rounded_comp double dbl_ok), E. Qed.

Lemma ld_nonneg (q : Q) : 0 <= q -> 0 <= rounded long_double q.
Proof. apply rounded_pos_nonneg, ld_ok. Qed.

Lemma ld_round (q : Q) :
  Qabs q <= 18446744073709551616 ->
  is_value (round long_double q) (rounded long_double q).
Proof.
  intros B. apply (round_value long_double ld_ok q 64); [exact B | discriminate | discriminate].
Qed.

Lemma ld_add (a b : fval) (x y : Q) :
  is_value a x -> is_value b y -> Qabs (x + y) <= 18446744073709551616 ->
  is_value (add long_double a b) (rounded long_double (x + y)).
Proof.
  intros A B C. apply (add_value long_double ld_ok a b x y 64); try assumption; discriminate.
Qed.

Lemma ld_sub (a b : fval) (x y : Q) :
  is_value a x -> is_value b y -> Qabs (x - y) <= 18446744073709551616 ->
  is_value (sub long_double a b) (rounded long_double (x - y)).
Proof.
  intros A B C. apply (sub_value long_double ld_ok a b x y 64); try assumption; discriminate.
Qed.

Lemma ld_mul (a b : fval) (x y : Q) :
  is_value a x -> is_value b y -> Qabs (x * y) <= 18446744073709551616 ->
  is_value (mul long_double a b) (rounded long_double (x * y)).
Proof.
  intros A B C. apply (mul_value long_double ld_ok a b x y 64); try assumption; discriminate.
Qed.

Lemma ld_div (a b : fval) (x y : Q) :
  is_value a x -> is_value b y -> ~ y == 0 ->
  Qabs (x / y) <= 18446744073709551616 ->
  is_value (div long_double a b) (rounded long_double (x / y)).
Proof.
  intros A B N C. apply (div_value long_double ld_ok a b x y 64); try assumption; discriminate.
Qed.

Lemma ld_of_Z (z : Z) :
  (Z.abs z <= 2 ^ 64)%Z -> is_value (of_Z long_double z) (inject_Z z).
Proof.
  intros Hz. apply (of_Z_value long_double ld_ok z); [exact Hz | discriminate | discriminate].
Qed.

Lemma dbl_of_Z (z : Z) :
  (Z.abs z <= 2 ^ 53)%Z -> is_value (of_Z double z) (inject_Z z).
Proof.
  intros Hz. apply (of_Z_value double dbl_ok z); [exact Hz | discriminate | discriminate].
Qed.

End LongDouble.

(** The closed powers of two of a goal, as numerals. *)
Ltac pow2_numerals :=
  repeat match goal with
         | |- context [pow2 ?k] =>
             let v := eval vm_compute in (pow2 k) in
             progress change (pow2 k) with v
         | H : context [pow2 ?k] |- _ =>
             let v := eval vm_compute in (pow2 k) in
             progress change (pow2 k) with v in H
         end.

(** The error of rounding [x], a value below [2 ^ k], to long double. *)
Ltac ld_err k x E :=
  assert (E : (Qabs (rounded Sidereal.long_double x - x) <= pow2 (k - 65)%Z)%Q)
    by (apply (ld_error k);
        [reflexivity
        | apply Qabs_Qlt_condition; pow2_numerals; by_inverse; split; lra]);
  apply Qabs_Qle_condition in E;
  let v := eval vm_compute in (pow2 (k - 65)%Z) in
  change (pow2 (k - 65)%Z) with v in E.


(** A literal of the source, as the compiler rounds it. *)
Ltac literal f c :=
  let v := eval vm_compute in (round f c) in
  replace (round f c) with v by (vm_compute; reflexivity).

(** The value of a literal that is not a binary fraction. *)
Ltac literal_value f c :=
  let v := eval vm_compute in (round f c) in
  match v with
  | Finite ?b =>
      let E := fresh "L" in
      assert (E : (rounded f c == b)%Q) by (vm_compute; reflexivity);
      rewrite E; clear E
  end.

(** A bound of an absolute value, by linear arithmetic. *)
Ltac bounded := apply Qabs_Qle_condition; by_inverse; split; lra.

Section Products.

Local Open Scope Q_scope.

Lemma product_bound (a b A B : Q) :
  - A <= a <= A -> - B <= b <= B -> - (A * B) <= a * b <= A * B.
Proof.
  intros Ha Hb.
  assert (P1 : 0 <= (A - a) * (B - b)) by (apply Qmult_le_0_compat; lra).
  assert (P2 : 0 <= (A + a) * (B + b)) by (apply Qmult_le_0_compat; lra).
  assert (P3 : 0 <= (A - a) * (B + b)) by (apply Qmult_le_0_compat; lra).
  assert (P4 : 0 <= (A + a) * (B - b)) by (apply Qmult_le_0_compat; lra).
  split; lra.
Qed.

End Products.

Section Instant.

Import Sidereal.
Local Open Scope Q_scope.

Variable t : timespec.
Hypothesis Hn : normalized t.
Hypothesis Hlo : (0 <= tv_sec t)%Z.
Hypothesis Hhi : (tv_sec t <= 9223372036)%Z.

Lemma sec_bounds : 0 <= inject_Z (tv_sec t) <= 9223372036.
Proof using Hlo Hhi.
  split.
  - change 0 with (inject_Z 0). rewrite <- Zle_Qle. exact Hlo.
  - change 9223372036 with (inject_Z 9223372036). rewrite <- Zle_Qle. exact Hhi.
Qed.

Lemma nsec_bounds : 0 <= inject_Z (tv_nsec t) <= 999999999.
Proof using Hn.
  unfold normalized in Hn. split.
  - change 0 with (inject_Z 0). rewrite <- Zle_Qle. lia.
  - change 999999999 with (inject_Z 999999999). rewrite <- Zle_Qle. lia.
Qed.

(** Line 221: the reading as a long double lies in the second of the
    reading, half a nanosecond from the instant at most. *)
Lemma fraction_value :
  exists now : Q,
    is_value (fraction t) now
    /\ inject_Z (tv_sec t) <= now
    /\ now <= inject_Z (tv_sec t) + 1 - (5 # 10000000000)
    /\ - (1 # 2000000000) <= now - Almanac.instant t <= 1 # 2000000000
    /\ now == Values.now t.
Proof using Hn Hlo Hhi.
  assert (HS := sec_bounds). assert (HN := nsec_bounds).
  unfold Almanac.instant.
  set (S := inject_Z (tv_sec t)) in *. set (N := inject_Z (tv_nsec t)) in *.
  (* the fraction of the second *)
  assert (Va : is_value (div long_double (of_Z long_double (tv_nsec t))
                                         (of_Z long_double SECOND_IN_NANOS))
                        (rounded long_double (N / 1000000000))).
  { apply (ld_div _ _ N 1000000000).
    - apply ld_of_Z. unfold normalized in Hn. lia.
    - apply (ld_of_Z 1000000000). discriminate.
    - discriminate.
    - bounded. }
  set (a := rounded long_double (N / 1000000000)) in *.
  assert (A0 : 0 <= a).
  { apply ld_nonneg. by_inverse. lra. }
  ld_err 0%Z (N / 1000000000) Ea. fold a in Ea.
  (* the sum *)
  assert (Vnow : is_value (fraction t) (rounded long_double (S + a))).
  { unfold fraction. apply ld_add.
    - apply ld_of_Z. lia.
    - exact Va.
    - by_inverse. bounded. }
  ld_err 34%Z (S + a) En.
  assert (Mono : S <= rounded long_double (S + a)).
  { unfold S at 1. rewrite <- (ld_Z (tv_sec t)) by lia. fold S.
    apply ld_monotone. lra. }
  exists (rounded long_double (S + a)).
  split; [exact Vnow |]. split; [exact Mono |].
  split; [by_inverse; lra |].
  split; [by_inverse; split; lra |].
  unfold Values.now, Values.ld. reflexivity.
Qed.

Lemma day_bounds :
  inject_Z (Almanac.day_of t) * 86400 <= inject_Z (tv_sec t)
  /\ inject_Z (tv_sec t) + 1 <= (inject_Z (Almanac.day_of t) + 1) * 86400
  /\ 0 <= inject_Z (Almanac.day_of t) <= 106751.
Proof using Hlo Hhi.
  unfold Almanac.day_of.
  assert (A := Z.div_mod (tv_sec t) 86400 ltac:(lia)).
  assert (B := Z.mod_pos_bound (tv_sec t) 86400 ltac:(lia)).
  assert (C : (0 <= tv_sec t / 86400 <= 106751)%Z).
  { split; [apply Z.div_pos; lia |].
    apply Z.lt_succ_r. apply Z.div_lt_upper_bound; lia. }
  change 86400 with (inject_Z 86400). change 1 with (inject_Z 1).
  change 0 with (inject_Z 0). change 106751 with (inject_Z 106751).
  rewrite <- !inject_Z_plus, <- !inject_Z_mult, <- !Zle_Qle. lia.
Qed.

Lemma slong_small (x : Z) : (- 2 ^ 63 <= x < 2 ^ 63)%Z -> slong x = x.
Proof. intros Hx. unfold slong. rewrite Z.mod_small; lia. Qed.

(** Line 225: the cast to [long] finds the day of the reading. *)
Lemma day_value (nowf : fval) (now : Q) :
  is_value nowf now ->
  inject_Z (tv_sec t) <= now ->
  now <= inject_Z (tv_sec t) + 1 - (5 # 10000000000) ->
  to_integer 64 (div long_double nowf (of_Z long_double 86400)) = Almanac.day_of t.
Proof using Hlo Hhi.
  intros V L U. assert (HS := sec_bounds). destruct day_bounds as (D1 & D2 & D3).
  set (S := inject_Z (tv_sec t)) in *. set (D := inject_Z (Almanac.day_of t)) in *.
  assert (Vq : is_value (div long_double nowf (of_Z long_double 86400))
                        (rounded long_double (now / 86400))).
  { apply ld_div; [exact V | apply (ld_of_Z 86400); discriminate | discriminate | bounded]. }
  set (dq := rounded long_double (now / 86400)) in *.
  assert (Low : D <= dq).
  { unfold D at 1. rewrite <- (ld_Z (Almanac.day_of t)).
    - fold D. apply ld_monotone. by_inverse. lra.
    - unfold D in D3. change 0 with (inject_Z 0) in D3.
      change 106751 with (inject_Z 106751) in D3. rewrite <- !Zle_Qle in D3. lia. }
  ld_err 17%Z (now / 86400) Edq. fold dq in Edq.
  assert (High : dq < D + 1) by (by_inverse; lra).
  rewrite (to_integer_nonneg 64 _ dq Vq).
  - apply floor_unique; rewrite ?inject_Z_plus; fold D; [exact Low | exact High].
  - lra.
  - change (inject_Z (2 ^ (64 - 1))) with 9223372036854775808. lra.
Qed.

(** Lines 225-227: the Julian date of the midnight before the reading
    is exact. *)
Lemma JD0_value (nowf : fval) (now : Q) :
  is_value nowf now ->
  inject_Z (tv_sec t) <= now ->
  now <= inject_Z (tv_sec t) + 1 - (5 # 10000000000) ->
  is_value (JD0 nowf) (inject_Z (Almanac.day_of t) + 2440587.5).
Proof using Hlo Hhi.
  intros V L U. destruct day_bounds as (D1 & D2 & D3).
  assert (R : (0 <= Almanac.day_of t <= 106751)%Z).
  { change 0 with (inject_Z 0) in D3.
    change 106751 with (inject_Z 106751) in D3. rewrite <- !Zle_Qle in D3. exact D3. }
  unfold JD0. rewrite (day_value nowf now V L U).
  rewrite (slong_small (Almanac.day_of t * 86400)) by lia.
  rewrite slong_small by (unfold EPOCH_CTIME; lia).
  unfold EPOCH_JDATE. literal double 86400. literal double 2451544.5.
  set (z := (Almanac.day_of t * 86400 - EPOCH_CTIME)%Z).
  assert (Z1 : inject_Z z / 86400 == inject_Z (Almanac.day_of t - 10957)).
  { unfold z, EPOCH_CTIME. unfold Zminus.
    rewrite !inject_Z_plus, inject_Z_mult, !inject_Z_opp.
    change (inject_Z 86400) with 86400. change (inject_Z 946684800) with 946684800.
    change (inject_Z 10957) with 10957. field. }
  assert (Vd : is_value (div double (of_Z double z) (Finite 86400))
                        (inject_Z (Almanac.day_of t - 10957))).
  { apply is_value_comp with (rounded double (inject_Z z / 86400)).
    - apply (div_value double dbl_ok _ _ (inject_Z z) 86400 64);
        try discriminate.
      + apply dbl_of_Z. unfold z, EPOCH_CTIME. lia.
      + apply is_value_Finite.
      + rewrite Z1, Qabs_inject_Z, (pow2_Z 64) by lia.
        rewrite <- Zle_Qle. lia.
    - rewrite Z1. rewrite <- (Qmult_1_r (inject_Z (Almanac.day_of t - 10957))).
      change 1 with (pow2 0). apply dbl_exact; lia. }
  apply is_value_comp
    with (rounded double (inject_Z (Almanac.day_of t - 10957) + (4903089 # 2))).
  - apply (add_value double dbl_ok _ _ _ _ 64); try discriminate.
    + exact Vd.
    + apply is_value_Finite.
    + pow2_numerals. unfold Zminus. rewrite inject_Z_plus, inject_Z_opp.
      change (inject_Z 10957) with 10957. bounded.
  - assert (E : inject_Z (Almanac.day_of t - 10957) + (4903089 # 2)
                == inject_Z (2 * (Almanac.day_of t - 10957) + 4903089) * pow2 (-1)).
    { rewrite inject_Z_plus, inject_Z_mult. change (pow2 (-1)) with (1 # 2).
      change (inject_Z 2) with 2. change (inject_Z 4903089) with 4903089. field. }
    rewrite E, dbl_exact by lia. rewrite <- E.
    unfold Zminus. rewrite inject_Z_plus, inject_Z_opp.
    change (inject_Z 10957) with 10957. field.
Qed.

Lemma day_range : (0 <= Almanac.day_of t <= 106751)%Z.
Proof using Hlo Hhi.
  destruct day_bounds as (_ & _ & D3).
  change 0 with (inject_Z 0) in D3.
  change 106751 with (inject_Z 106751) in D3. rewrite <- !Zle_Qle in D3. exact D3.
Qed.

Lemma noon_value : noon = Finite 2451545.
Proof. vm_compute. reflexivity. Qed.

(** Line 227: the days from J2000.0 to the midnight before the reading
    are exact. *)
Lemma D0_value (nowf : fval) (now : Q) :
  is_value nowf now ->
  inject_Z (tv_sec t) <= now ->
  now <= inject_Z (tv_sec t) + 1 - (5 # 10000000000) ->
  is_value (D0 nowf) (inject_Z (Almanac.day_of t) - 10957.5).
Proof using Hlo Hhi.
  intros V L U. assert (R := day_range). destruct day_bounds as (_ & _ & D3).
  unfold D0. rewrite noon_value.
  apply is_value_comp
    with (rounded long_double (inject_Z (Almanac.day_of t) + 2440587.5 - 2451545)).
  - apply ld_sub; [apply (JD0_value nowf now V L U) | apply is_value_Finite | bounded].
  - assert (E : inject_Z (Almanac.day_of t) + 2440587.5 - 2451545
                == inject_Z (2 * Almanac.day_of t - 21915) * pow2 (-1)).
    { unfold Zminus. rewrite inject_Z_plus, inject_Z_mult, inject_Z_opp.
      change (pow2 (-1)) with (1 # 2).
      change (inject_Z 2) with 2. change (inject_Z 21915) with 21915. field. }
    rewrite E, ld_exact by lia. rewrite <- E. field.
Qed.

(** Line 223: the Julian date of the reading lies in its day, and
    within 1.3e-13 day of the exact one. *)
Lemma JD_value (nowf : fval) (now : Q) :
  is_value nowf now ->
  inject_Z (tv_sec t) <= now ->
  now <= inject_Z (tv_sec t) + 1 - (5 # 10000000000) ->
  - (1 # 2000000000) <= now - Almanac.instant t <= 1 # 2000000000 ->
  exists jd : Q,
    is_value (JD nowf) jd
    /\ inject_Z (Almanac.day_of t) + 2440587.5 <= jd <= inject_Z (Almanac.day_of t) + 2440588.5
    /\ - (13 # 100000000000000) <= jd - Almanac.julian_date (Almanac.instant t)
        <= 13 # 100000000000000
    /\ jd == Values.JD now.
Proof using Hlo Hhi.
  intros V L U E. assert (HS := sec_bounds). assert (R := day_range).
  destruct day_bounds as (D1 & D2 & D3).
  unfold Almanac.julian_date. set (u := Almanac.instant t) in *.
  set (S := inject_Z (tv_sec t)) in *. set (D := inject_Z (Almanac.day_of t)) in *.
  unfold JD, EPOCH_JDATE. literal long_double 86400. literal double 2451544.5.
  (* now - EPOCH_CTIME *)
  assert (V1 : is_value (sub long_double nowf (of_Z long_double EPOCH_CTIME))
                        (rounded long_double (now - 946684800))).
  { apply ld_sub; [exact V | apply (ld_of_Z 946684800); discriminate | bounded]. }
  set (b1 := rounded long_double (now - 946684800)) in *.
  ld_err 34%Z (now - 946684800) E1. fold b1 in E1.
  assert (X1 : rounded long_double (D * 86400 - 946684800) == D * 86400 - 946684800).
  { assert (X : D * 86400 - 946684800 == inject_Z (Almanac.day_of t * 86400 - 946684800)).
    { unfold Zminus. rewrite inject_Z_plus, inject_Z_mult, inject_Z_opp. reflexivity. }
    rewrite X. apply ld_Z. lia. }
  assert (Y1 : rounded long_double ((D + 1) * 86400 - 946684800)
               == (D + 1) * 86400 - 946684800).
  { assert (X : (D + 1) * 86400 - 946684800
                == inject_Z ((Almanac.day_of t + 1) * 86400 - 946684800)).
    { unfold Zminus. rewrite !inject_Z_plus, inject_Z_mult, !inject_Z_plus, inject_Z_opp.
      reflexivity. }
    rewrite X. apply ld_Z. lia. }
  assert (M1 : D * 86400 - 946684800 <= b1 <= (D + 1) * 86400 - 946684800).
  { split.
    - rewrite <- X1. apply ld_monotone. lra.
    - rewrite <- Y1. apply ld_monotone. lra. }
  (* ... / 86400.0L *)
  assert (V2 : is_value (div long_double
                           (sub long_double nowf (of_Z long_double EPOCH_CTIME))
                           (Finite 86400))
                        (rounded long_double (b1 / 86400))).
  { apply ld_div; [exact V1 | apply is_value_Finite | discriminate | bounded]. }
  set (b2 := rounded long_double (b1 / 86400)) in *.
  ld_err 17%Z (b1 / 86400) E2. fold b2 in E2.
  assert (X2 : rounded long_double (D - 10957) == D - 10957).
  { assert (X : D - 10957 == inject_Z (Almanac.day_of t - 10957)).
    { unfold Zminus. rewrite inject_Z_plus, inject_Z_opp. reflexivity. }
    rewrite X. apply ld_Z. lia. }
  assert (Y2 : rounded long_double (D + 1 - 10957) == D + 1 - 10957).
  { assert (X : D + 1 - 10957 == inject_Z (Almanac.day_of t + 1 - 10957)).
    { unfold Zminus. rewrite !inject_Z_plus, inject_Z_opp. reflexivity. }
    rewrite X. apply ld_Z. lia. }
  assert (M2 : D - 10957 <= b2 <= D + 1 - 10957).
  { split.
    - rewrite <- X2. apply ld_monotone. by_inverse. lra.
    - rewrite <- Y2. apply ld_monotone. by_inverse. lra. }
  (* ... + EPOCH_JDATE *)
  assert (V3 : is_value (add long_double
                           (div long_double
                              (sub long_double nowf (of_Z long_double EPOCH_CTIME))
                              (Finite 86400))
                           (Finite (4903089 # 2)))
                        (rounded long_double (b2 + 2451544.5))).
  { apply ld_add; [exact V2 | apply is_value_eq; reflexivity | bounded]. }
  set (jd := rounded long_double (b2 + 2451544.5)) in *.
  ld_err 22%Z (b2 + 2451544.5) E3. fold jd in E3.
  assert (X3 : rounded long_double (D + 2440587.5) == D + 2440587.5).
  { assert (X : D + 2440587.5 == inject_Z (2 * Almanac.day_of t + 4881175) * pow2 (-1)).
    { rewrite inject_Z_plus, inject_Z_mult. change (pow2 (-1)) with (1 # 2).
      change (inject_Z 2) with 2. change (inject_Z 4881175) with 4881175. fold D. field. }
    rewrite X. apply ld_exact; lia. }
  assert (Y3 : rounded long_double (D + 2440588.5) == D + 2440588.5).
  { assert (X : D + 2440588.5 == inject_Z (2 * Almanac.day_of t + 4881177) * pow2 (-1)).
    { rewrite inject_Z_plus, inject_Z_mult. change (pow2 (-1)) with (1 # 2).
      change (inject_Z 2) with 2. change (inject_Z 4881177) with 4881177. fold D. field. }
    rewrite X. apply ld_exact; lia. }
  exists jd. split; [exact V3 |]. split; [| split].
  - split.
    + rewrite <- X3. apply ld_monotone. lra.
    + rewrite <- Y3. apply ld_monotone. lra.
  - by_inverse. split; lra.
  - unfold Values.JD, Values.ld. reflexivity.
Qed.

Lemma instant_bounds :
  inject_Z (tv_sec t) <= Almanac.instant t < inject_Z (tv_sec t) + 1.
Proof using Hn.
  assert (HN := nsec_bounds). unfold Almanac.instant. by_inverse. split; lra.
Qed.

Lemma instant_midnight :
  Almanac.last_midnight (Almanac.instant t) == inject_Z (Almanac.day_of t) * 86400.
Proof using Hn Hlo Hhi.
  unfold Almanac.last_midnight.
  destruct day_bounds as (D1 & D2 & _). destruct instant_bounds as [I1 I2].
  rewrite (floor_unique (Almanac.instant t / 86400) (Almanac.day_of t)); [reflexivity | |].
  - by_inverse. lra.
  - rewrite inject_Z_plus. change (inject_Z 1) with 1. by_inverse. lra.
Qed.

(** Line 228: the hours since midnight lie between 0 and 24 and within
    3.2e-12 h of the exact ones. *)
Lemma H_value (nowf : fval) (now : Q) :
  is_value nowf now ->
  inject_Z (tv_sec t) <= now ->
  now <= inject_Z (tv_sec t) + 1 - (5 # 10000000000) ->
  - (1 # 2000000000) <= now - Almanac.instant t <= 1 # 2000000000 ->
  exists h : Q,
    is_value (H nowf) h
    /\ 0 <= h <= 24
    /\ - (32 # 10000000000000) <= h - Almanac.H (Almanac.instant t)
        <= 32 # 10000000000000
    /\ h == Values.H (Values.JD now)
                     (inject_Z (Almanac.day_of t) + 2440587.5).
Proof using Hn Hlo Hhi.
  intros V L U E.
  destruct (JD_value nowf now V L U E) as (jd & Vjd & Bjd & Ejd & Fjd).
  assert (Vj0 := JD0_value nowf now V L U).
  assert (LM := instant_midnight).
  unfold Almanac.H. unfold Almanac.julian_date in Ejd.
  set (mid := Almanac.last_midnight (Almanac.instant t)) in *.
  set (u := Almanac.instant t) in *. set (D := inject_Z (Almanac.day_of t)) in *.
  unfold H. literal double 24.
  assert (V1 : is_value (sub long_double (JD nowf) (JD0 nowf))
                        (rounded long_double (jd - (D + 2440587.5)))).
  { apply ld_sub; [exact Vjd | exact Vj0 | bounded]. }
  set (c1 := rounded long_double (jd - (D + 2440587.5))) in *.
  ld_err 1%Z (jd - (D + 2440587.5)) E1. fold c1 in E1.
  assert (M1 : 0 <= c1 <= 1).
  { split.
    - apply ld_nonneg. lra.
    - rewrite <- (ld_Z 1) by discriminate. apply ld_monotone.
      change (inject_Z 1) with 1. lra. }
  assert (V2 : is_value (mul long_double (sub long_double (JD nowf) (JD0 nowf))
                                         (Finite 24))
                        (rounded long_double (c1 * 24))).
  { apply ld_mul; [exact V1 | apply is_value_Finite | bounded]. }
  set (h := rounded long_double (c1 * 24)) in *.
  ld_err 5%Z (c1 * 24) E2. fold h in E2.
  exists h. split; [exact V2 |]. split; [| split].
  - split.
    + apply ld_nonneg. lra.
    + rewrite <- (ld_Z 24) by discriminate. apply ld_monotone.
      change (inject_Z 24) with 24. lra.
  - by_inverse. split; lra.
  - unfold Values.H, Values.ld. rewrite <- Fjd. reflexivity.
Qed.

(** Line 229: the centuries since J2000.0, within 4e-18 of the exact
    ones. *)
Lemma T_value (nowf : fval) (now : Q) :
  is_value nowf now ->
  inject_Z (tv_sec t) <= now ->
  now <= inject_Z (tv_sec t) + 1 - (5 # 10000000000) ->
  - (1 # 2000000000) <= now - Almanac.instant t <= 1 # 2000000000 ->
  exists c : Q,
    is_value (T nowf) c
    /\ - (31 # 100) <= c <= 263 # 100
    /\ - (31 # 100) <= Almanac.T 2451545 (Almanac.instant t) <= 263 # 100
    /\ - (4 # 1000000000000000000)
        <= c - Almanac.T 2451545 (Almanac.instant t)
        <= 4 # 1000000000000000000
    /\ c == Values.T (Values.JD now).
Proof using Hn Hlo Hhi.
  intros V L U E.
  destruct (JD_value nowf now V L U E) as (jd & Vjd & Bjd & Ejd & Fjd).
  destruct day_bounds as (D1 & D2 & D3). destruct instant_bounds as [I1 I2].
  unfold Almanac.T. unfold Almanac.julian_date in *.
  set (u := Almanac.instant t) in *. set (D := inject_Z (Almanac.day_of t)) in *.
  set (S := inject_Z (tv_sec t)) in *.
  unfold T. rewrite noon_value. literal double 36525.
  assert (V1 : is_value (sub long_double (JD nowf) (Finite 2451545))
                        (rounded long_double (jd - 2451545))).
  { apply ld_sub; [exact Vjd | apply is_value_Finite | bounded]. }
  set (t1 := rounded long_double (jd - 2451545)) in *.
  ld_err 17%Z (jd - 2451545) E1. fold t1 in E1.
  assert (V2 : is_value (div long_double (sub long_double (JD nowf) (Finite 2451545))
                                         (Finite 36525))
                        (rounded long_double (t1 / 36525))).
  { apply ld_div; [exact V1 | apply is_value_Finite | discriminate | bounded]. }
  set (c := rounded long_double (t1 / 36525)) in *.
  ld_err 2%Z (t1 / 36525) E2. fold c in E2.
  exists c. split; [exact V2 |].
  split; [by_inverse; split; lra |].
  split; [by_inverse; split; lra |].
  split; [by_inverse; split; lra |].
  unfold Values.T, Values.ld. rewrite <- Fjd. reflexivity.
Qed.

Lemma D0_almanac :
  Almanac.D0 2451545 (Almanac.instant t) == inject_Z (Almanac.day_of t) - 10957.5.
Proof using Hn Hlo Hhi.
  unfold Almanac.D0, Almanac.julian_date. rewrite instant_midnight. field.
Qed.

(** Line 231: Greenwich mean sidereal time, within 4e-12 h of the
    polynomial. *)
Lemma gmst_value (nowf : fval) (now : Q) :
  is_value nowf now ->
  inject_Z (tv_sec t) <= now ->
  now <= inject_Z (tv_sec t) + 1 - (5 # 10000000000) ->
  - (1 # 2000000000) <= now - Almanac.instant t <= 1 # 2000000000 ->
  exists g : Q,
    is_value (gmst nowf) g
    /\ representable long_double g
    /\ - (4 # 1000000000000)
        <= g - Almanac.gmst_from 2451545 2451545 (Almanac.instant t)
        <= 4 # 1000000000000
    /\ g == Values.gmst_at (Almanac.day_of t) now.
Proof using Hn Hlo Hhi.
  intros V L U E.
  destruct (H_value nowf now V L U E) as (h & Vh & Bh & Eh & Fh).
  destruct (T_value nowf now V L U E) as (c & Vc & Bc & Bc' & Ec & Fc).
  assert (Vd := D0_value nowf now V L U).
  destruct day_bounds as (_ & _ & D3).
  unfold Almanac.gmst_from, Almanac.polynomial.
  assert (ED := D0_almanac).
  set (De := Almanac.D0 2451545 (Almanac.instant t)) in *.
  set (He := Almanac.H (Almanac.instant t)) in *.
  set (Te := Almanac.T 2451545 (Almanac.instant t)) in *.
  set (D := inject_Z (Almanac.day_of t)) in *.
  unfold gmst.
  literal long_double 6.697374558. literal long_double 0.06570982441908.
  literal long_double 1.00273790935. literal double 0.000026.
  (* 0.06570982441908L * D0 *)
  match goal with
  | |- context [mul long_double (Finite ?b) (D0 nowf)] =>
      assert (V1 : is_value (mul long_double (Finite b) (D0 nowf))
                            (rounded long_double (b * (D - 10957.5))))
        by (apply ld_mul; [apply is_value_Finite | exact Vd | bounded]);
      set (p1 := rounded long_double (b * (D - 10957.5))) in *;
      ld_err 13%Z (b * (D - 10957.5)) E1; fold p1 in E1
  end.
  (* 6.697374558L + ... *)
  match goal with
  | |- context [add long_double (Finite ?a) ?x] =>
      assert (V2 : is_value (add long_double (Finite a) x)
                            (rounded long_double (a + p1)))
        by (apply ld_add; [apply is_value_Finite | exact V1 | bounded]);
      set (p2 := rounded long_double (a + p1)) in *;
      ld_err 13%Z (a + p1) E2; fold p2 in E2
  end.
  (* 1.00273790935L * H *)
  match goal with
  | |- context [mul long_double (Finite ?b) (H nowf)] =>
      assert (V3 : is_value (mul long_double (Finite b) (H nowf))
                            (rounded long_double (b * h)))
        by (apply ld_mul; [apply is_value_Finite | exact Vh | bounded]);
      set (p3 := rounded long_double (b * h)) in *;
      ld_err 5%Z (b * h) E3; fold p3 in E3
  end.
  match goal with
  | |- context [add long_double (add long_double ?x ?y) ?z] =>
      assert (V4 : is_value (add long_double x y) (rounded long_double (p2 + p3)))
        by (apply ld_add; [exact V2 | exact V3 | bounded]);
      set (p4 := rounded long_double (p2 + p3)) in *;
      ld_err 13%Z (p2 + p3) E4; fold p4 in E4
  end.
  (* 0.000026 * T * T *)
  match goal with
  | |- context [mul long_double (Finite ?k) (T nowf)] =>
      assert (V5 : is_value (mul long_double (Finite k) (T nowf))
                            (rounded long_double (k * c)))
        by (apply ld_mul; [apply is_value_Finite | exact Vc | bounded]);
      set (q1 := rounded long_double (k * c)) in *;
      ld_err (-13)%Z (k * c) E5; fold q1 in E5;
      assert (B5 : - (7 # 100000) <= q1 <= 7 # 100000) by lra;
      assert (X1 := product_bound q1 c (7 # 100000) (263 # 100) B5 ltac:(lra));
      assert (X2 := product_bound (q1 - k * c) c (1 # 302231454903657293676544)
                      (263 # 100) E5 ltac:(lra));
      assert (X3 := product_bound (c - Te) (c + Te) (4 # 1000000000000000000)
                      (526 # 100) Ec ltac:(lra));
      assert (X4 := product_bound Te Te (263 # 100) (263 # 100)
                      ltac:(lra) ltac:(lra))
  end.
  assert (V6 : is_value (mul long_double (mul long_double
                           (Finite (7673845534663173 # 295147905179352825856)) (T nowf))
                           (T nowf))
                        (rounded long_double (q1 * c))).
  { apply ld_mul; [exact V5 | exact Vc | bounded]. }
  set (q2 := rounded long_double (q1 * c)) in *.
  ld_err (-12)%Z (q1 * c) E6. fold q2 in E6.
  match goal with
  | |- context [is_value (add long_double ?x ?y)] =>
      assert (V7 : is_value (add long_double x y) (rounded long_double (p4 + q2)))
        by (apply ld_add; [exact V4 | exact V6 | bounded])
  end.
  set (g := rounded long_double (p4 + q2)) in *.
  ld_err 13%Z (p4 + q2) E7. fold g in E7.
  exists g. split; [exact V7 |]. split; [| split].
  - apply rounded_representable, ld_ok.
  - split; lra.
  - unfold Values.gmst_at, Values.gmst, Values.ld. fold D.
    rewrite <- Fh, <- Fc.
    literal_value long_double 6.697374558.
    literal_value long_double 0.06570982441908.
    literal_value long_double 1.00273790935.
    literal_value double 0.000026.
    reflexivity.
Qed.

Lemma almanac_bounds :
  Almanac.D0 2451545 (Almanac.instant t) == inject_Z (Almanac.day_of t) - 10957.5
  /\ 0 <= Almanac.H (Almanac.instant t) < 24
  /\ 0 <= Almanac.T 2451545 (Almanac.instant t) * Almanac.T 2451545 (Almanac.instant t)
       <= 7.
Proof using Hn Hlo Hhi.
  split; [apply D0_almanac |].
  assert (LM := instant_midnight). destruct day_bounds as (D1 & D2 & D3).
  destruct instant_bounds as [I1 I2].
  split.
  - unfold Almanac.H. set (mid := Almanac.last_midnight _) in *.
    by_inverse. split; lra.
  - assert (B : - (31 # 100) <= Almanac.T 2451545 (Almanac.instant t) <= 263 # 100).
    { unfold Almanac.T, Almanac.julian_date. by_inverse. split; lra. }
    set (Te := Almanac.T 2451545 (Almanac.instant t)) in *.
    assert (X := product_bound Te Te (263 # 100) (263 # 100) ltac:(lra) ltac:(lra)).
    split; [| lra].
    assert (Y := Qsqr_nonneg Te). simpl in Y. lra.
Qed.

(** Line 232: local sidereal time before the loop, for a longitude
    between -360 and 360 degrees. *)
Lemma gmst_local_value (lon : fval) (l : Q) :
  is_value lon l -> -360 <= l <= 360 ->
  exists g : Q,
    is_value (gmst_local lon (fraction t)) g
    /\ representable long_double g
    /\ - (5 # 1000000000000)
        <= g - (Almanac.gmst_from 2451545 2451545 (Almanac.instant t) + l / 15)
        <= 5 # 1000000000000.
Proof using Hn Hlo Hhi.
  intros Vl Bl.
  destruct fraction_value as (now & V & L & U & E & _).
  destruct (gmst_value (fraction t) now V L U E) as (g & Vg & _ & Eg & _).
  destruct almanac_bounds as (AD & AH & AT). destruct day_bounds as (_ & _ & D3).
  unfold Almanac.gmst_from, Almanac.polynomial in *.
  set (De := Almanac.D0 2451545 (Almanac.instant t)) in *.
  set (He := Almanac.H (Almanac.instant t)) in *.
  set (Te := Almanac.T 2451545 (Almanac.instant t)) in *.
  set (D := inject_Z (Almanac.day_of t)) in *.
  unfold gmst_local. literal long_double 360. literal long_double 24.
  assert (V1 : is_value (div long_double lon (Finite 360))
                        (rounded long_double (l / 360))).
  { apply ld_div; [exact Vl | apply is_value_Finite | discriminate | bounded]. }
  set (a := rounded long_double (l / 360)) in *.
  ld_err 1%Z (l / 360) E1. fold a in E1.
  assert (V2 : is_value (mul long_double (div long_double lon (Finite 360)) (Finite 24))
                        (rounded long_double (a * 24))).
  { apply ld_mul; [exact V1 | apply is_value_Finite | by_inverse; bounded]. }
  set (b := rounded long_double (a * 24)) in *.
  ld_err 5%Z (a * 24) E2. fold b in E2.
  assert (V3 : is_value (add long_double (gmst (fraction t))
                           (mul long_double (div long_double lon (Finite 360)) (Finite 24)))
                        (rounded long_double (g + b))).
  { apply ld_add; [exact Vg | exact V2 | by_inverse; bounded]. }
  ld_err 13%Z (g + b) E3.
  exists (rounded long_double (g + b)). split; [exact V3 |]. split.
  - apply rounded_representable, ld_ok.
  - by_inverse. split; lra.
Qed.

End Instant.

(** *** The conversion never runs backwards within a day *)

Section Monotone.

Local Open Scope Q_scope.

Lemma now_monotone (a b : timespec) :
  normalized a -> normalized b ->
  (Z.abs (tv_sec a) <= 2 ^ 64)%Z -> (Z.abs (tv_sec b) <= 2 ^ 64)%Z ->
  Almanac.instant a <= Almanac.instant b ->
  Values.now a <= Values.now b.
Proof.
  intros Ha Hb Ra Rb. unfold Almanac.instant, Values.now, Values.ld.
  assert (Na := nsec_bounds a Ha). assert (Nb := nsec_bounds b Hb).
  intros Hab.
  assert (Fa : 0 <= rounded Sidereal.long_double
                      (inject_Z (tv_nsec a) / 1000000000) <= 1).
  { split; [apply ld_nonneg; by_inverse; lra |].
    rewrite <- (ld_Z 1) by discriminate. apply ld_monotone.
    change (inject_Z 1) with 1. by_inverse. lra. }
  assert (Fb : 0 <= rounded Sidereal.long_double
                      (inject_Z (tv_nsec b) / 1000000000)).
  { apply ld_nonneg; by_inverse; lra. }
  apply ld_monotone.
  destruct (Z_lt_le_dec (tv_sec a) (tv_sec b)) as [Lt | Ge].
  - assert (S1 : inject_Z (tv_sec a) + 1 <= inject_Z (tv_sec b)).
    { change 1 with (inject_Z 1). rewrite <- inject_Z_plus, <- Zle_Qle. lia. }
    lra.
  - assert (Eq' : tv_sec a = tv_sec b).
    { destruct (Z.eq_dec (tv_sec a) (tv_sec b)) as [E | N]; [exact E |].
      exfalso.
      assert (S1 : inject_Z (tv_sec b) + 1 <= inject_Z (tv_sec a)).
      { change 1 with (inject_Z 1). rewrite <- inject_Z_plus, <- Zle_Qle.
        lia. }
      revert Hab. by_inverse. lra. }
    rewrite Eq' in *.
    assert (M : rounded Sidereal.long_double
                  (inject_Z (tv_nsec a) / 1000000000)
                <= rounded Sidereal.long_double
                     (inject_Z (tv_nsec b) / 1000000000)).
    { apply ld_monotone. revert Hab. by_inverse. lra. }
    lra.
Qed.

Lemma JD_monotone (x y : Q) : x <= y -> Values.JD x <= Values.JD y.
Proof.
  intros H. unfold Values.JD, Values.ld.
  assert (M : rounded Sidereal.long_double (x - 946684800)
              <= rounded Sidereal.long_double (y - 946684800))
    by (apply ld_monotone; lra).
  apply ld_monotone.
  assert (M' : rounded Sidereal.long_double
                 (rounded Sidereal.long_double (x - 946684800) / 86400)
               <= rounded Sidereal.long_double
                    (rounded Sidereal.long_double (y - 946684800) / 86400))
    by (apply ld_monotone; by_inverse; lra).
  lra.
Qed.

Lemma H_monotone (jd jd' jd0 : Q) :
  jd <= jd' -> Values.H jd jd0 <= Values.H jd' jd0.
Proof.
  intros H. unfold Values.H, Values.ld.
  assert (M : rounded Sidereal.long_double (jd - jd0)
              <= rounded Sidereal.long_double (jd' - jd0))
    by (apply ld_monotone; lra).
  apply ld_monotone. lra.
Qed.

Lemma T_monotone (jd jd' : Q) :
  2451545 <= jd -> jd <= jd' ->
  0 <= Values.T jd /\ Values.T jd <= Values.T jd'.
Proof.
  intros H0 H. unfold Values.T, Values.ld.
  assert (P : 0 <= rounded Sidereal.long_double (jd - 2451545))
    by (apply ld_nonneg; lra).
  assert (M : rounded Sidereal.long_double (jd - 2451545)
              <= rounded Sidereal.long_double (jd' - 2451545))
    by (apply ld_monotone; lra).
  split; [apply ld_nonneg | apply ld_monotone]; by_inverse; lra.
Qed.

Lemma gmst_monotone (d0 h h' c c' : Q) :
  h <= h' -> 0 <= c -> c <= c' ->
  Values.gmst d0 h c <= Values.gmst d0 h' c'.
Proof.
  intros Hh Hc Hcc. unfold Values.gmst, Values.ld.
  assert (KC : 0 <= rounded Sidereal.long_double 1.00273790935)
    by (apply ld_nonneg; unfold Qle; simpl; lia).
  assert (KT : 0 <= rounded Sidereal.double 0.000026)
    by (apply (rounded_pos_nonneg Sidereal.double dbl_ok);
        unfold Qle; simpl; lia).
  set (C := rounded Sidereal.long_double 1.00273790935) in *.
  set (K := rounded Sidereal.double 0.000026) in *.
  assert (M1 : rounded Sidereal.long_double (C * h)
               <= rounded Sidereal.long_double (C * h')).
  { apply ld_monotone. nra. }
  assert (P2 : 0 <= rounded Sidereal.long_double (K * c)).
  { apply ld_nonneg. apply Qmult_le_0_compat; assumption. }
  assert (M2 : rounded Sidereal.long_double (K * c)
               <= rounded Sidereal.long_double (K * c')).
  { apply ld_monotone. nra. }
  assert (M3 : rounded Sidereal.long_double
                 (rounded Sidereal.long_double (K * c) * c)
               <= rounded Sidereal.long_double
                    (rounded Sidereal.long_double (K * c') * c')).
  { apply ld_monotone.
    revert P2 M2.
    generalize (rounded Sidereal.long_double (K * c))
               (rounded Sidereal.long_double (K * c')).
    intros p p' P2 M2. nra. }
  apply ld_monotone.
  assert (M4 : rounded Sidereal.long_double
                 (rounded Sidereal.long_double
                    (rounded Sidereal.long_double 6.697374558
                     + rounded Sidereal.long_double
                         (rounded Sidereal.long_double 0.06570982441908 * d0))
                  + rounded Sidereal.long_double (C * h))
               <= rounded Sidereal.long_double
                    (rounded Sidereal.long_double
                       (rounded Sidereal.long_double 6.697374558
                        + rounded Sidereal.long_double
                            (rounded Sidereal.long_double 0.06570982441908
                             * d0))
                     + rounded Sidereal.long_double (C * h')))
    by (apply ld_monotone; lra).
  lra.
Qed.

(** Two readings of one day after 2000-01-01T12:00. *)
Lemma gmst_at_monotone (day : Z) (x y : Q) :
  946728000 <= x -> x <= y ->
  Values.gmst_at day x <= Values.gmst_at day y.
Proof.
  intros H0 H. unfold Values.gmst_at.
  assert (J : Values.JD x <= Values.JD y) by (apply JD_monotone; exact H).
  assert (J0 : 2451545 <= Values.JD x).
  { assert (E : Values.JD 946728000 == 2451545) by (vm_compute; reflexivity).
    rewrite <- E. apply JD_monotone. exact H0. }
  destruct (T_monotone _ _ J0 J) as [T0 TM].
  apply gmst_monotone; [apply H_monotone; exact J | exact T0 | exact TM].
Qed.

End Monotone.

(** *** The wrapping loop *)

Section Wrap.

Import Sidereal.
Local Open Scope Q_scope.

(** Below [2 ^ 66] the subtraction of the loop is exact. *)
Lemma less_24_representable (g : Q) :
  representable long_double g -> 24 < g -> g <= 73786976294838206464 ->
  representable long_double (g - 24).
Proof.
  intros (m & e & E & Hm & He) L U.
  change (prec long_double) with 64%Z in *.
  change (emin long_double - 64 + 1)%Z with (-16445)%Z in *.
  assert (Pe := pow2_pos e).
  assert (Mpos : (0 < m)%Z).
  { rewrite Zlt_Qlt. change (inject_Z 0) with 0.
    destruct (Qlt_le_dec 0 (inject_Z m)) as [P | NP]; [exact P |].
    exfalso. assert (inject_Z m * pow2 e <= 0).
    { rewrite <- (Qmult_0_l (pow2 e)). apply Qmult_le_compat_r; lra. }
    lra. }
  destruct (Z_le_gt_dec e 3) as [Small | Large].
  - exists (m - 3 * 2 ^ (3 - e))%Z, e. split; [| split; [| exact He]].
    + unfold Zminus. rewrite inject_Z_plus, inject_Z_opp, inject_Z_mult.
      rewrite <- (pow2_Z (3 + - e)) by lia.
      assert (P : pow2 (3 + - e) * pow2 e == 8).
      { rewrite <- pow2_add. replace (3 + - e + e)%Z with 3%Z by lia. reflexivity. }
      change (inject_Z 3) with 3. rewrite E.
      setoid_replace ((inject_Z m + - (3 * pow2 (3 + - e))) * pow2 e)
        with (inject_Z m * pow2 e - 3 * (pow2 (3 + - e) * pow2 e)) by ring.
      rewrite P. ring.
    + assert (P : (0 < 2 ^ (3 - e))%Z) by (apply Z.pow_pos_nonneg; lia).
      assert (Q0 : (0 < m - 3 * 2 ^ (3 - e))%Z).
      { rewrite Zlt_Qlt. change (inject_Z 0) with 0.
        unfold Zminus. rewrite inject_Z_plus, inject_Z_opp, inject_Z_mult.
        rewrite <- (pow2_Z (3 + - e)) by lia. change (inject_Z 3) with 3.
        assert (P' : pow2 (3 + - e) * pow2 e == 8).
        { rewrite <- pow2_add. replace (3 + - e + e)%Z with 3%Z by lia. reflexivity. }
        assert (G : 24 < inject_Z m * pow2 e) by (rewrite <- E; exact L).
        apply (Qmult_lt_r _ _ (pow2 e) Pe).
        setoid_replace ((inject_Z m + - (3 * pow2 (3 + - e))) * pow2 e)
          with (inject_Z m * pow2 e - 3 * (pow2 (3 + - e) * pow2 e)) by ring.
        rewrite P'. lra. }
      change (prec long_double) with 64%Z. lia.
  - exists (m * 2 ^ (e - 3) - 3)%Z, 3%Z. split; [| split; [| discriminate]].
    + unfold Zminus. rewrite inject_Z_plus, inject_Z_opp, inject_Z_mult.
      rewrite <- (pow2_Z (e + - 3)) by lia. change (inject_Z 3) with 3.
      change (pow2 3) with 8.
      assert (P : pow2 (e + - 3) * 8 == pow2 e).
      { change 8 with (pow2 3). rewrite <- pow2_add.
        replace (e + - 3 + 3)%Z with e by lia. reflexivity. }
      rewrite E, <- P. ring.
    + assert (P : pow2 (e + - 3) * 8 == pow2 e).
      { change 8 with (pow2 3). rewrite <- pow2_add.
        replace (e + - 3 + 3)%Z with e by lia. reflexivity. }
      assert (G1 : 24 < inject_Z m * (pow2 (e + - 3) * 8)).
      { rewrite P, <- E. exact L. }
      assert (G2 : inject_Z m * (pow2 (e + - 3) * 8) <= 73786976294838206464).
      { rewrite P, <- E. exact U. }
      assert (X : inject_Z (m * 2 ^ (e - 3)) == inject_Z m * pow2 (e + - 3)).
      { rewrite inject_Z_mult, <- (pow2_Z (e - 3)) by lia. reflexivity. }
      assert (Y1 : 3 < inject_Z (m * 2 ^ (e - 3))) by (rewrite X; lra).
      assert (Y2 : inject_Z (m * 2 ^ (e - 3)) <= 9223372036854775808) by (rewrite X; lra).
      change 3 with (inject_Z 3) in Y1.
      change 9223372036854775808 with (inject_Z 9223372036854775808) in Y2.
      rewrite <- Zlt_Qlt in Y1. rewrite <- Zle_Qle in Y2.
      change (prec long_double) with 64%Z. lia.
Qed.

Lemma wrap_loop_eq (fuel : nat) (g : fval) :
  wrap_loop fuel g
  = if gt g (Finite 24)
    then
      if same (sub long_double g (Finite 24)) g then Spins
      else match fuel with
           | O => Spins
           | S n => wrap_loop n (sub long_double g (Finite 24))
           end
    else Ends g.
Proof.
  assert (E : round double 24 = Finite 24) by (vm_compute; reflexivity).
  destruct fuel; cbn [wrap_loop]; rewrite E; reflexivity.
Qed.

(** From a long double up to [2 ^ 64] the loop ends, at the
    value less a whole number of times 24. *)
Lemma wrap_loop_ends (fuel : nat) :
  forall (gf : fval) (g : Q),
    is_value gf g -> representable long_double g ->
    g <= 18446744073709551616 -> (Qfloor g <= Z.of_nat fuel)%Z ->
    exists (rf : fval) (r : Q) (k : nat),
      wrap_loop fuel gf = Ends rf
      /\ is_value rf r
      /\ representable long_double r
      /\ r == g - 24 * inject_Z (Z.of_nat k)
      /\ r <= 24
      /\ (0 < g -> 0 < r).
Proof.
  induction fuel as [| n IH]; intros gf g V R U F; rewrite wrap_loop_eq.
  - (* no fuel: the value is below 1 *)
    assert (G : g < 1).
    { assert (A := Qlt_floor g). eapply Qlt_le_trans; [exact A |].
      change 1 with (inject_Z 1). rewrite <- Zle_Qle. cbn in F. lia. }
    destruct V as (q & -> & Eq). cbn [gt].
    assert (C : Qle_bool q 24 = true) by (apply Qle_bool_iff; rewrite Eq; lra).
    rewrite C. cbn [negb].
    exists (Finite q), g, O. split; [reflexivity |]. split; [exists q; split; [reflexivity | exact Eq] |].
    split; [exact R |].
    split; [change (inject_Z (Z.of_nat 0)) with 0; ring |]. split; [lra | tauto].
  - destruct (Qlt_le_dec 24 g) as [Above | Below].
    + assert (V' : is_value (sub long_double gf (Finite 24)) (g - 24)).
      { apply is_value_comp with (rounded long_double (g - 24)).
        - apply ld_sub; [exact V | apply is_value_Finite | bounded].
        - apply (rounded_exact long_double ld_ok).
          apply less_24_representable; [exact R | exact Above | lra]. }
      assert (F' : (Qfloor (g - 24) <= Z.of_nat n)%Z).
      { assert (X : Qfloor (g - 24) = (Qfloor g - 24)%Z).
        { apply floor_unique.
          - unfold Zminus. rewrite inject_Z_plus, inject_Z_opp.
            change (inject_Z 24) with 24. assert (A := Qfloor_le g). lra.
          - assert (A := Qlt_floor g). unfold Zminus in *.
            rewrite !inject_Z_plus in *. rewrite inject_Z_opp.
            change (inject_Z 24) with 24. change (inject_Z 1) with 1 in *. lra. }
        rewrite X. rewrite Nat2Z.inj_succ in F. lia. }
      destruct (IH (sub long_double gf (Finite 24)) (g - 24) V'
                  (less_24_representable g R Above ltac:(lra)) ltac:(lra) F')
        as (rf & r & k & Erun & Vr & Rr & Er & Br & Pr).
      destruct V as (q & -> & Eq). destruct V' as (q' & Eq' & Eq'').
      rewrite Eq' in *. cbn [gt same].
      assert (C : Qle_bool q 24 = false).
      { destruct (Qle_bool q 24) eqn:X; [| reflexivity].
        apply Qle_bool_iff in X. rewrite Eq in X. lra. }
      assert (C' : Qeq_bool q' q = false).
      { destruct (Qeq_bool q' q) eqn:X; [| reflexivity].
        apply Qeq_bool_eq in X. rewrite Eq, Eq'' in X. lra. }
      rewrite C, C'. cbn [negb].
      exists rf, r, (S k). split; [exact Erun |]. split; [exact Vr |].
      split; [exact Rr |].
      split; [| split; [exact Br | intros _; apply Pr; lra]].
      rewrite Er, Nat2Z.inj_succ. unfold Z.succ. rewrite inject_Z_plus.
      change (inject_Z 1) with 1. ring.
    + destruct V as (q & -> & Eq). cbn [gt].
      assert (C : Qle_bool q 24 = true) by (apply Qle_bool_iff; rewrite Eq; exact Below).
      rewrite C. cbn [negb].
      exists (Finite q), g, O. split; [reflexivity |].
      split; [exists q; split; [reflexivity | exact Eq] |].
      split; [exact R |].
      split; [change (inject_Z (Z.of_nat 0)) with 0; ring |]. split; [lra | tauto].
Qed.

Lemma wrap_ends (gf : fval) (g : Q) :
  is_value gf g -> representable long_double g ->
  0 < g -> g <= 18446744073709551616 ->
  exists (rf : fval) (r : Q) (k : nat),
    wrap gf = Ends rf
    /\ is_value rf r
    /\ representable long_double r
    /\ r == g - 24 * inject_Z (Z.of_nat k)
    /\ 0 < r <= 24.
Proof.
  intros V R P U. unfold wrap.
  assert (F : (Qfloor g <= Z.of_nat (patience gf))%Z).
  { destruct V as (q & -> & Eq). cbn [patience]. rewrite (Qfloor_comp _ _ Eq).
    assert (A : (0 <= Qfloor g)%Z).
    { rewrite <- (Qfloor_Z 0). apply Qfloor_resp_le. change (inject_Z 0) with 0. lra. }
    rewrite Z2Nat.id by exact A. lia. }
  destruct (wrap_loop_ends (patience gf) gf g V R U F)
    as (rf & r & k & Erun & Vr & Rr & Er & Br & Pr).
  exists rf, r, k. split; [exact Erun |]. split; [exact Vr |]. split; [exact Rr |].
  split; [exact Er |]. split; [apply Pr; exact P | exact Br].
Qed.

(** A long double above [2 ^ 64] is a whole number. *)
Lemma large_is_whole (g : Q) :
  representable long_double g -> 18446744073709551616 < g ->
  exists z : Z, g == inject_Z z.
Proof.
  intros (m & e & E & Hm & He) L.
  change (prec long_double) with 64%Z in *.
  destruct (Z_le_gt_dec 0 e) as [Whole | Part].
  - exists (m * 2 ^ e)%Z. rewrite E, inject_Z_mult, <- (pow2_Z e) by lia. reflexivity.
  - exfalso.
    assert (B : - 18446744073709551616 <= inject_Z m <= 18446744073709551616).
    { change (- 18446744073709551616) with (inject_Z (- 18446744073709551616)).
      change 18446744073709551616 with (inject_Z 18446744073709551616).
      rewrite <- !Zle_Qle. lia. }
    assert (C : - 1 <= pow2 e <= 1).
    { assert (X := pow2_pos e). split; [lra |].
      change 1 with (pow2 0). apply pow2_le. lia. }
    assert (D := product_bound (inject_Z m) (pow2 e) 18446744073709551616 1 B C).
    lra.
Qed.

(** The fuel of [wrap] is enough: with more of it the loop gives the
    same. *)
Lemma wrap_loop_fuel (n : nat) :
  forall (gf : fval) (g : Q),
    is_value gf g -> representable long_double g -> g < pow2 16384 ->
    (Qfloor g <= Z.of_nat n)%Z ->
    forall m : nat, (n <= m)%nat -> wrap_loop m gf = wrap_loop n gf.
Proof.
  induction n as [| n IH]; intros gf g V R U F m Hm;
    rewrite (wrap_loop_eq m gf);
    [rewrite (wrap_loop_eq 0 gf) | rewrite (wrap_loop_eq (S n) gf)].
  - (* the value is below 1: the loop is not entered *)
    assert (G : g < 1).
    { assert (A := Qlt_floor g). eapply Qlt_le_trans; [exact A |].
      change 1 with (inject_Z 1). rewrite <- Zle_Qle. cbn in F. lia. }
    destruct V as (q & -> & Eq). cbn [gt].
    assert (C : Qle_bool q 24 = true) by (apply Qle_bool_iff; rewrite Eq; lra).
    rewrite C. reflexivity.
  - destruct (Qlt_le_dec 24 g) as [Above | Below].
    + assert (Ex : rounded long_double g == g)
        by (apply (rounded_exact long_double ld_ok), R).
      assert (M1 : 0 <= rounded long_double (g - 24)) by (apply ld_nonneg; lra).
      assert (M2 : rounded long_double (g - 24) <= g).
      { rewrite <- Ex at 2. apply ld_monotone. lra. }
      assert (V' : is_value (sub long_double gf (Finite 24))
                            (rounded long_double (g - 24))).
      { destruct V as (q & -> & Eq). cbn [sub opp add].
        apply is_value_comp with (rounded long_double (q + - 24)).
        - apply (round_below long_double ld_ok).
          assert (X : rounded long_double (q + - 24) == rounded long_double (g - 24)).
          { apply ld_proper. rewrite Eq. reflexivity. }
          rewrite X, Qabs_pos by exact M1.
          eapply Qle_lt_trans; [exact M2 | exact U].
        - apply ld_proper. rewrite Eq. reflexivity. }
      set (g' := rounded long_double (g - 24)) in *.
      destruct V as (q & -> & Eq). destruct V' as (q' & Eq' & Eq'').
      rewrite Eq'. cbn [gt same].
      assert (C : Qle_bool q 24 = false).
      { destruct (Qle_bool q 24) eqn:X; [| reflexivity].
        apply Qle_bool_iff in X. rewrite Eq in X. lra. }
      rewrite C. cbn [negb].
      destruct (Qeq_bool q' q) eqn:Same; [reflexivity |].
      destruct m as [| m]; [lia |].
      assert (N : ~ g' == g).
      { intros X. apply Qeq_bool_neq in Same. apply Same. rewrite Eq, Eq''. exact X. }
      (* a step that is not absorbed takes off one at least *)
      assert (Step : g' <= g - 1).
      { destruct (Qlt_le_dec 18446744073709551616 g) as [Large | Small].
        - destruct (large_is_whole g R Large) as (z & Ez).
          destruct (rounded_whole long_double ld_ok (z - 24)) as (z' & Ez').
          assert (X : g' == inject_Z z').
          { unfold g'. rewrite <- Ez'. apply ld_proper. rewrite Ez.
            unfold Zminus. rewrite inject_Z_plus, inject_Z_opp. reflexivity. }
          assert (Y : (z' < z)%Z).
          { rewrite Zlt_Qlt, <- X, <- Ez. lra. }
          assert (Y' : inject_Z z' <= inject_Z (z - 1)) by (rewrite <- Zle_Qle; lia).
          unfold Zminus in Y'. rewrite inject_Z_plus, inject_Z_opp in Y'.
          change (inject_Z 1) with 1 in Y'. lra.
        - assert (X : g' == g - 24).
          { apply (rounded_exact long_double ld_ok).
            apply less_24_representable; [exact R | exact Above | lra]. }
          lra. }
      apply (IH (Finite q') g').
      * exists q'. split; [reflexivity | exact Eq''].
      * apply rounded_representable, ld_ok.
      * eapply Qle_lt_trans; [exact M2 | exact U].
      * assert (B : (Qfloor g' <= Qfloor g - 1)%Z).
        { rewrite <- (floor_unique (g - 1) (Qfloor g - 1)).
          - apply Qfloor_resp_le. exact Step.
          - unfold Zminus. rewrite inject_Z_plus, inject_Z_opp.
            change (inject_Z 1) with 1. assert (B3 := Qfloor_le g). lra.
          - assert (B1 := Qlt_floor g). unfold Zminus.
            rewrite !inject_Z_plus in *. rewrite inject_Z_opp.
            change (inject_Z 1) with 1 in *. lra. }
        rewrite Nat2Z.inj_succ in F. lia.
      * lia.
    + destruct V as (q & -> & Eq). cbn [gt].
      assert (C : Qle_bool q 24 = true) by (apply Qle_bool_iff; rewrite Eq; exact Below).
      rewrite C. reflexivity.
Qed.

End Wrap.

(** *** The fields of the sidereal time *)

Section Fields.

Import Sidereal.
Local Open Scope Q_scope.

(** The part after the point of a long double is a long double. *)
Lemma fraction_representable (x : Q) :
  representable long_double x -> 0 <= x ->
  representable long_double (x - inject_Z (Qfloor x)).
Proof.
  intros (m & e & E & Hm & He) P.
  change (prec long_double) with 64%Z in *.
  assert (Pe := pow2_pos e).
  assert (F1 := Qfloor_le x). assert (F2 := Qlt_floor x).
  rewrite inject_Z_plus in F2. change (inject_Z 1) with 1 in F2.
  assert (H0 : (0 <= Qfloor x)%Z).
  { rewrite <- (Qfloor_Z 0). apply Qfloor_resp_le. exact P. }
  destruct (Z_le_gt_dec 0 e) as [Whole | Part].
  - (* a whole number *)
    assert (X : x == inject_Z (m * 2 ^ e)).
    { rewrite E, inject_Z_mult, <- (pow2_Z e) by lia. reflexivity. }
    assert (F : Qfloor x = (m * 2 ^ e)%Z).
    { rewrite (Qfloor_comp _ _ X). apply Qfloor_Z. }
    exists 0%Z, e. split; [| split; [| exact He]].
    + rewrite F, <- X. change (inject_Z 0) with 0. ring.
    + cbn. lia.
  - exists (m - Qfloor x * 2 ^ (- e))%Z, e. split; [| split; [| exact He]].
    + unfold Zminus. rewrite inject_Z_plus, inject_Z_opp, inject_Z_mult.
      rewrite <- (pow2_Z (- e)) by lia.
      assert (Q1 : pow2 (- e) * pow2 e == 1).
      { rewrite Qmult_comm. apply pow2_opp. }
      setoid_replace ((inject_Z m + - (inject_Z (Qfloor x) * pow2 (- e))) * pow2 e)
        with (inject_Z m * pow2 e - inject_Z (Qfloor x) * (pow2 (- e) * pow2 e)) by ring.
      rewrite Q1. lra.
    + assert (P2 : (0 < 2 ^ (- e))%Z) by (apply Z.pow_pos_nonneg; lia).
      assert (M0 : (0 <= m - Qfloor x * 2 ^ (- e))%Z).
      { rewrite Zle_Qle. change (inject_Z 0) with 0.
        unfold Zminus. rewrite inject_Z_plus, inject_Z_opp, inject_Z_mult.
        rewrite <- (pow2_Z (- e)) by lia.
        assert (Q1 : pow2 (- e) * pow2 e == 1).
        { rewrite Qmult_comm. apply pow2_opp. }
        assert (G : inject_Z (Qfloor x) <= inject_Z m * pow2 e) by (rewrite <- E; exact F1).
        apply (Qmult_le_r _ _ (pow2 e) Pe).
        setoid_replace ((inject_Z m + - (inject_Z (Qfloor x) * pow2 (- e))) * pow2 e)
          with (inject_Z m * pow2 e - inject_Z (Qfloor x) * (pow2 (- e) * pow2 e)) by ring.
        rewrite Q1. lra. }
      assert (M1 : (0 <= Qfloor x * 2 ^ (- e))%Z) by (apply Z.mul_nonneg_nonneg; lia).
      change (prec long_double) with 64%Z. lia.
Qed.

(** The largest long double below 1 is [1 - 2 ^ -64]. *)
Lemma below_one (x : Q) :
  representable long_double x -> x < 1 -> x <= 1 - (1 # 18446744073709551616).
Proof.
  intros (m & e & E & Hm & He) U.
  change (prec long_double) with 64%Z in *.
  assert (Pe := pow2_pos e).
  destruct (Z_le_gt_dec (-64) e) as [Fine | Tiny].
  - assert (X : x * 18446744073709551616 == inject_Z (m * 2 ^ (e + 64))).
    { rewrite E, inject_Z_mult, <- (pow2_Z (e + 64)) by lia.
      rewrite pow2_add. change (pow2 64) with 18446744073709551616. ring. }
    assert (N : (m * 2 ^ (e + 64) < 18446744073709551616)%Z).
    { rewrite Zlt_Qlt, <- X. change (inject_Z 18446744073709551616) with 18446744073709551616.
      lra. }
    assert (N' : inject_Z (m * 2 ^ (e + 64)) <= 18446744073709551615).
    { change 18446744073709551615 with (inject_Z 18446744073709551615).
      rewrite <- Zle_Qle. lia. }
    rewrite <- X in N'. lra.
  - assert (B : inject_Z m <= 18446744073709551616).
    { change 18446744073709551616 with (inject_Z 18446744073709551616).
      rewrite <- Zle_Qle. lia. }
    assert (C : pow2 e <= 1 # 36893488147419103232).
    { change (1 # 36893488147419103232) with (pow2 (-65)). apply pow2_le. lia. }
    assert (D := product_bound (inject_Z m) (pow2 e) 18446744073709551616
                   (1 # 36893488147419103232)).
    destruct (Qlt_le_dec (inject_Z m) 0) as [Neg | Pos].
    + assert (inject_Z m * pow2 e <= 0).
      { rewrite <- (Qmult_0_l (pow2 e)). apply Qmult_le_compat_r; lra. }
      lra.
    + assert (inject_Z m * pow2 e <= 18446744073709551616 * (1 # 36893488147419103232)).
      { apply D; split; lra. }
      lra.
Qed.

Lemma sixty_below : rounded long_double (60 * (1 - (1 # 18446744073709551616))) < 60.
Proof. vm_compute. reflexivity. Qed.

Lemma ten_below : rounded long_double (10 * (1 - (1 # 18446744073709551616))) < 10.
Proof. vm_compute. reflexivity. Qed.

(** One step of lines 235-237: the whole part of a long double that is
    not negative is taken off exactly, and the rest times [c], rounded,
    stays below [c]. *)
Lemma field_step (xf : fval) (x : Q) (n : Z) (c : Q) :
  is_value xf x -> representable long_double x ->
  0 <= x -> x < 2147483648 ->
  n = to_integer 32 xf ->
  0 < c -> c <= 60 ->
  rounded long_double (c * (1 - (1 # 18446744073709551616))) < c ->
  n = Qfloor x
  /\ exists y : Q,
       is_value (mul long_double (sub long_double xf (of_Z long_double n)) (Finite c)) y
       /\ representable long_double y
       /\ 0 <= y < c
       /\ - (1 # 576460752303423488) <= y - c * (x - inject_Z n)
          <= 1 # 576460752303423488.
Proof.
  intros V R P U En Pc Uc Below.
  assert (F : to_integer 32 xf = Qfloor x).
  { apply to_integer_nonneg; [exact V | exact P |].
    change (inject_Z (2 ^ (32 - 1))) with 2147483648. exact U. }
  rewrite F in En. subst n. split; [reflexivity |].
  assert (F1 := Qfloor_le x). assert (F2 := Qlt_floor x).
  rewrite inject_Z_plus in F2. change (inject_Z 1) with 1 in F2.
  assert (H0 : (0 <= Qfloor x)%Z).
  { rewrite <- (Qfloor_Z 0). apply Qfloor_resp_le. exact P. }
  assert (H1 : (Qfloor x < 2147483648)%Z).
  { rewrite Zlt_Qlt. change (inject_Z 2147483648) with 2147483648. lra. }
  assert (B0 : 0 <= inject_Z (Qfloor x) <= 2147483648).
  { split.
    - change 0 with (inject_Z 0). rewrite <- Zle_Qle. exact H0.
    - change 2147483648 with (inject_Z 2147483648). rewrite <- Zle_Qle. lia. }
  set (h := inject_Z (Qfloor x)) in *.
  assert (V1 : is_value (sub long_double xf (of_Z long_double (Qfloor x))) (x - h)).
  { apply is_value_comp with (rounded long_double (x - h)).
    - apply ld_sub; [exact V | apply ld_of_Z; lia | bounded].
    - apply (rounded_exact long_double ld_ok).
      apply fraction_representable; assumption. }
  assert (B1 : x - h <= 1 - (1 # 18446744073709551616)).
  { apply below_one; [apply fraction_representable; assumption | lra]. }
  assert (V2 : is_value (mul long_double (sub long_double xf (of_Z long_double (Qfloor x)))
                                         (Finite c))
                        (rounded long_double ((x - h) * c))).
  { apply ld_mul; [exact V1 | apply is_value_Finite |].
    assert (X := product_bound (x - h) c 1 60 ltac:(lra) ltac:(lra)).
    apply Qabs_Qle_condition. split; lra. }
  set (y := rounded long_double ((x - h) * c)) in *.
  assert (X := product_bound (x - h) c 1 60 ltac:(lra) ltac:(lra)).
  ld_err 6%Z ((x - h) * c) E.
  fold y in E.
  exists y. split; [exact V2 |]. split; [apply rounded_representable, ld_ok |].
  split; [split |].
  - apply ld_nonneg. apply Qmult_le_0_compat; lra.
  - eapply Qle_lt_trans; [| exact Below]. apply ld_monotone.
    rewrite (Qmult_comm c). apply Qmult_le_compat_r; lra.
  - split; lra.
Qed.

Lemma sixty_value : of_Z long_double 60 = Finite 60 /\ round double 60 = Finite 60.
Proof. split; vm_compute; reflexivity. Qed.

Lemma ten_value : of_Z long_double 10 = Finite 10.
Proof. vm_compute. reflexivity. Qed.

Lemma floor_below (x : Q) (n : Z) :
  0 <= x -> x < inject_Z n -> (0 <= Qfloor x <= n - 1)%Z.
Proof.
  intros L U. split.
  - rewrite <- (Qfloor_Z 0). apply Qfloor_resp_le. exact L.
  - assert (A := Qfloor_le x). assert (B : (Qfloor x < n)%Z).
    { rewrite Zlt_Qlt. eapply Qle_lt_trans; eassumption. }
    lia.
Qed.

(** Lines 234-237 on a long double that is not negative: the fields
    are in range, and put together again they are the value cut to
    tenths of a second, give or take the rounding of three products. *)
Lemma fields_value (gf : fval) (g : Q) :
  is_value gf g -> representable long_double g ->
  0 <= g -> g < 2147483648 ->
  let shown := inject_Z (hour_of gf) + inject_Z (minute_of gf) / 60
               + inject_Z (second_of gf) / 3600 + inject_Z (tenth_of gf) / 36000 in
  hour_of gf = Qfloor g
  /\ (0 <= minute_of gf <= 59)%Z
  /\ (0 <= second_of gf <= 59)%Z
  /\ (0 <= tenth_of gf <= 9)%Z
  /\ shown - (3 # 100000000000000000000) <= g
  /\ g < shown + 1 / 36000 + (3 # 100000000000000000000).
Proof.
  intros V R P U. cbv zeta.
  destruct sixty_value as [S1 S2].
  destruct (field_step gf g (hour_of gf) 60 V R P U eq_refl ltac:(lra) ltac:(lra)
              sixty_below) as (Eh & x & Vx & Rx & Bx & Ex).
  assert (Em : minute_of gf
               = to_integer 32 (mul long_double
                                  (sub long_double gf (of_Z long_double (hour_of gf)))
                                  (Finite 60))).
  { unfold minute_of. rewrite S1. reflexivity. }
  destruct (field_step _ x (minute_of gf) 60 Vx Rx ltac:(lra) ltac:(lra) Em
              ltac:(lra) ltac:(lra) sixty_below) as (Em' & y & Vy & Ry & By & Ey).
  assert (Es : second_of gf
               = to_integer 32
                   (mul long_double
                      (sub long_double
                         (mul long_double
                            (sub long_double gf (of_Z long_double (hour_of gf)))
                            (Finite 60))
                         (of_Z long_double (minute_of gf)))
                      (Finite 60))).
  { unfold second_of. rewrite S1, S2. reflexivity. }
  destruct (field_step _ y (second_of gf) 10 Vy Ry ltac:(lra) ltac:(lra) Es
              ltac:(lra) ltac:(lra) ten_below) as (Es' & z & Vz & Rz & Bz & Ez).
  assert (Et : tenth_of gf = Qfloor z).
  { unfold tenth_of. rewrite S1, S2, ten_value.
    apply to_integer_nonneg; [exact Vz | lra |].
    change (inject_Z (2 ^ (32 - 1))) with 2147483648. lra. }
  assert (Fm := floor_below x 60 ltac:(lra) ltac:(change (inject_Z 60) with 60; lra)).
  assert (Fs := floor_below y 60 ltac:(lra) ltac:(change (inject_Z 60) with 60; lra)).
  assert (Ft := floor_below z 10 ltac:(lra) ltac:(change (inject_Z 10) with 10; lra)).
  split; [exact Eh |]. split; [rewrite Em'; lia |]. split; [rewrite Es'; lia |].
  split; [rewrite Et; lia |].
  assert (Z1 := Qfloor_le z). assert (Z2 := Qlt_floor z).
  rewrite inject_Z_plus in Z2. change (inject_Z 1) with 1 in Z2.
  rewrite <- Et in Z1, Z2.
  revert Ex Ey Ez Z1 Z2.
  generalize (inject_Z (hour_of gf)) (inject_Z (minute_of gf))
             (inject_Z (second_of gf)) (inject_Z (tenth_of gf)).
  intros h m s t Ex Ey Ez Z1 Z2.
  by_inverse. split; lra.
Qed.

End Fields.

(** *** Some readings, and what is shown *)

Section Readings.

Import Sidereal.
Local Open Scope Q_scope.

(** At 2017-07-14T03:31:12.454279789 UTC the polynomial has passed
    431 h, which is 23 h of the day; the rounding of the Julian date
    keeps the value just below, and 22:59:59.9 is shown. *)
Lemma shown_before_the_hour :
  let t := mk_timespec 1500003072 454279789 in
  431 <= Almanac.gmst_from 2451545 2451545 (Almanac.instant t)
  /\ exists g,
       sidereal_hours (Finite 0) t = Ends g
       /\ (hour_of g, minute_of g, second_of g, tenth_of g)
          = (22, 59, 59, 9)%Z.
Proof.
  cbv zeta. split; [vm_compute; discriminate |].
  eexists. split; [vm_compute; reflexivity | vm_compute; reflexivity].
Qed.

(** The longitude is a [float]: with the option -l -122.4194 the
    reading of 2017-07-14T02:40:00 UTC is shown as 13:58:58.4. *)
Lemma shown_in_the_west :
  let lon := convert Ieee.binary32 (round Ieee.binary64 (-122.4194)) in
  exists g,
    sidereal_hours lon (mk_timespec 1500000000 0) = Ends g
    /\ (hour_of g, minute_of g, second_of g, tenth_of g)
       = (13, 58, 58, 4)%Z.
Proof.
  cbv zeta. eexists.
  split; [vm_compute; reflexivity | vm_compute; reflexivity].
Qed.

(** The products of lines 235-237 are rounded before they are cut: the
    long double next below 5 h 47 min is shown as 5:47:00.0. *)
Lemma fields_above_the_value :
  exists g : Q,
    round long_double (5 + (47 - (1 # 576460752303423488)) / 60) = Finite g
    /\ g < 5 + 47 / 60
    /\ (hour_of (Finite g), minute_of (Finite g), second_of (Finite g),
        tenth_of (Finite g)) = (5, 47, 0, 0)%Z.
Proof.
  eexists. split; [vm_compute; reflexivity |].
  split; [vm_compute; reflexivity | vm_compute; reflexivity].
Qed.

End Readings.

Section SiderealClaims.

Import Sidereal.
Local Open Scope Q_scope.

(** The local sidereal time of a reading from 2000-09-21 on: the
    value before the loop is positive, the loop ends, and what it
    leaves is a long double above 0 and at most 24. *)
Lemma sidereal_hours_value (lon : fval) (l : Q) (now_spec : timespec) :
  is_value lon l ->
  -360 <= l <= 360 ->
  (969494400 <= tv_sec now_spec)%Z -> (nanos now_spec < 2 ^ 63)%Z ->
  normalized now_spec ->
  exists (g0 r : Q) (k : nat),
    is_value (gmst_local lon (fraction now_spec)) g0
    /\ Qabs (g0 - (Almanac.gmst_from 2451545 2451545
                     (Almanac.instant now_spec) + l / 15))
       <= 5 # 1000000000000
    /\ sidereal_hours lon now_spec = Ends (Finite r)
    /\ representable long_double r
    /\ r == g0 - 24 * inject_Z (Z.of_nat k)
    /\ 0 < r <= 24.
Proof.
  intros Vl Bl Hfrom Hkernel Hn.
  assert (Hlo : (0 <= tv_sec now_spec)%Z) by lia.
  assert (Hhi : (tv_sec now_spec <= 9223372036)%Z).
  { unfold nanos, normalized in *. lia. }
  destruct (gmst_local_value now_spec Hn Hlo Hhi lon l Vl Bl)
    as (g0 & V0 & R0 & E0).
  destruct (almanac_bounds now_spec Hn Hlo Hhi) as (AD & AH & AT).
  destruct (day_bounds now_spec Hlo Hhi) as (_ & D2 & D3).
  assert (Dfrom : 11221 <= inject_Z (Almanac.day_of now_spec)).
  { change 11221 with (inject_Z 11221). rewrite <- Zle_Qle.
    unfold Almanac.day_of. apply Z.div_le_lower_bound; lia. }
  assert (A0 : Qabs (g0 - (Almanac.gmst_from 2451545 2451545
                             (Almanac.instant now_spec) + l / 15))
               <= 5 # 1000000000000)
    by (apply Qabs_Qle_condition; exact E0).
  unfold Almanac.gmst_from, Almanac.polynomial in E0.
  set (De := Almanac.D0 2451545 (Almanac.instant now_spec)) in *.
  set (He := Almanac.H (Almanac.instant now_spec)) in *.
  set (Te := Almanac.T 2451545 (Almanac.instant now_spec)) in *.
  set (D := inject_Z (Almanac.day_of now_spec)) in *.
  assert (P0 : 0 < g0) by (by_inverse; lra).
  assert (U0 : g0 <= 18446744073709551616) by (by_inverse; lra).
  destruct (wrap_ends _ g0 V0 R0 P0 U0)
    as (rf & r & k & Erun & (q & -> & Eqr) & Rr & Er & Br).
  exists g0, q, k. split; [exact V0 |]. split; [exact A0 |].
  split; [exact Erun |].
  split; [destruct Rr as (m & x & Em & Bm); exists m, x;
          split; [rewrite Eqr; exact Em | exact Bm] |].
  split; [rewrite Eqr; exact Er |]. lra.
Qed.




(** C5, as stated, fails: the code reckons [T] (and [D0]) from Julian
    date 2451545.0, which is 2000-01-01T12:00 UTC, not from
    2451544.5.  At 2017-07-14T02:40:00 UTC the value of the code
    differs from the polynomial with [T] counted from 2451544.5 by
    more than 1e-10 h, whether [D0] is counted from 2451544.5 or from
    2451545.0, which is far beyond the rounding of the operations; it
    is not the polynomial counted from 2451545.0 exactly either, but
    within 4e-12 h of it.  Before the Unix epoch the conversion to
    [long] rounds toward zero, and the code's [D0] is that of the
    midnight to come. *)
Lemma gmst_epoch_is_noon :
  let t := mk_timespec 1500000000 0 in
  let before := mk_timespec (-43200) 0 in
  exists g g' : Q,
    gmst (fraction t) = Finite g
    /\ gmst (fraction before) = Finite g'
    /\ (3 # 100)
       < Qabs (g - Almanac.gmst_from 2451544.5 2451544.5 (Almanac.instant t))
    /\ (1 # 10000000000)
       < Qabs (g - Almanac.gmst_from 2451545 2451544.5 (Almanac.instant t))
    /\ ~ g == Almanac.gmst_from 2451545 2451545 (Almanac.instant t)
    /\ Qabs (g - Almanac.gmst_from 2451545 2451545 (Almanac.instant t))
       <= 4 # 1000000000000
    /\ 20 < Qabs (g' - Almanac.gmst_from 2451545 2451545
                         (Almanac.instant before)).
Proof.
  cbv zeta. eexists. eexists.
  split; [vm_compute; reflexivity |]. split; [vm_compute; reflexivity |].
  split; [vm_compute; reflexivity |]. split; [vm_compute; reflexivity |].
  split; [vm_compute; intros E; discriminate E |].
  split; [vm_compute; intros E; discriminate E |].
  vm_compute; reflexivity.
Qed.

(** C5, amended: for every wall-clock instant from the Unix epoch on
    that the kernel's clock can give, [update_display] computes GMST in
    hours, in long double arithmetic, as 6.697374558 + 0.06570982441908
    D0 + 1.00273790935 H + 0.000026 T^2, where D0 is the Julian date of
    the most recent UTC midnight less 2451545.0, H is the hours elapsed
    since that midnight, and T is the Julian centuries elapsed since
    Julian date 2451545.0, that is 2000-01-01T12:00 UTC; the value
    computed is within 4e-12 h of the polynomial. *)
Theorem gmst_is_almanac_polynomial (now_spec : timespec) :
  (0 <= tv_sec now_spec)%Z -> (nanos now_spec < 2 ^ 63)%Z ->
  normalized now_spec ->
  exists g : Q,
    is_value (gmst (fraction now_spec)) g
    /\ Qabs (g - Almanac.polynomial
                   (Almanac.D0 2451545 (Almanac.instant now_spec))
                   (Almanac.H (Almanac.instant now_spec))
                   (Almanac.T 2451545 (Almanac.instant now_spec)))
       <= 4 # 1000000000000.
Proof.
  intros Hlo Hkernel Hn.
  assert (Hhi : (tv_sec now_spec <= 9223372036)%Z).
  { unfold nanos, normalized in *. lia. }
  destruct (fraction_value now_spec Hn Hlo Hhi) as (now & V & L & U & E & _).
  destruct (gmst_value now_spec Hn Hlo Hhi (fraction now_spec) now V L U E)
    as (g & Vg & _ & Eg & _).
  exists g. split; [exact Vg |]. apply Qabs_Qle_condition. exact Eg.
Qed.

Lemma gmst_is_almanac_polynomial_witness :
  exists g : Q,
    is_value (gmst (fraction (mk_timespec 1500000000 0))) g
    /\ Qabs (g - Almanac.gmst_from 2451545 2451545
                   (Almanac.instant (mk_timespec 1500000000 0)))
       <= 4 # 1000000000000.
Proof.
  assert (Hs : (0 <= tv_sec (mk_timespec 1500000000 0))%Z) by (simpl; lia).
  assert (Hk : (nanos (mk_timespec 1500000000 0) < 2 ^ 63)%Z)
    by (vm_compute; reflexivity).
  assert (Hn : normalized (mk_timespec 1500000000 0))
    by (unfold normalized; simpl; lia).
  exact (gmst_is_almanac_polynomial (mk_timespec 1500000000 0) Hs Hk Hn).
Defined.

End SiderealClaims.

(** ** The civil hour (claim C6) *)

Section CivilHour.

Local Open Scope Z_scope.

(** The displayed hour and the flag, in closed form. *)
Lemma civil_hour_closed (hour : Z) :
  0 <= hour <= 23 ->
  Clock.civil_hour true hour
  = (if hour =? 0 then 12 else if 12 <? hour then hour - 12 else hour,
     if 12 <=? hour then 1 else 0).
Proof.
  intros Hh. unfold Clock.civil_hour, uchar.
  rewrite (Z.mod_small hour) by lia.
  destruct (Z.eqb_spec hour 0) as [E0|N0].
  - subst. reflexivity.
  - destruct (Z.eqb_spec hour 12) as [E12|N12].
    + subst. reflexivity.
    + destruct (Z.ltb_spec 12 hour) as [Hgt|Hle];
        destruct (Z.leb_spec 12 hour) as [Hge|Hlt]; try lia.
      * rewrite Z.mod_small by lia. reflexivity.
      * reflexivity.
Qed.

(** The meridiem lights of digit 7 follow the flag. *)
Lemma misc_val_meridiem (o : Clock.options) (pm : Z) :
  Clock.ampm o = true ->
  (Z.land (Clock.misc_val o pm) MASK_PM = MASK_PM <-> pm <> 0)
  /\ (Z.land (Clock.misc_val o pm) MASK_AM = MASK_AM <-> pm = 0).
Proof.
  intros Ha. unfold Clock.misc_val. rewrite Ha.
  destruct (Z.eqb_spec pm 0) as [E|N]; destruct (Clock.colon o);
    vm_compute; repeat split; intros; try congruence; try discriminate.
Qed.

(** C6: in 12-hour civil mode, for every hour-of-day in [0,23], hours
    0 and 12 both display as 12, hours 1-11 display unchanged, hours
    13-23 display as hour minus 12, and the meridiem flag is PM if and
    only if the hour-of-day is at least 12; the PM light of digit 7 is
    then lit and the AM light is not, and the other way round before
    noon. *)
Theorem civil_hour_twelve (hour : Z) :
  0 <= hour <= 23 ->
  let h := fst (Clock.civil_hour true hour) in
  let pm := snd (Clock.civil_hour true hour) in
  (hour = 0 \/ hour = 12 -> h = 12)
  /\ (1 <= hour <= 11 -> h = hour)
  /\ (13 <= hour <= 23 -> h = hour - 12)
  /\ (pm <> 0 <-> 12 <= hour)
  /\ (forall colon tenth background brightness,
        let o := Clock.mk_options true brightness colon tenth background in
        (Z.land (Clock.misc_val o pm) MASK_PM = MASK_PM <-> 12 <= hour)
        /\ (Z.land (Clock.misc_val o pm) MASK_AM = MASK_AM <-> hour < 12)).
Proof.
  intros Hh. cbv zeta. rewrite (civil_hour_closed hour Hh). cbn [fst snd].
  split; [intros [E|E]; subst; reflexivity|].
  split.
  { intros H1. destruct (Z.eqb_spec hour 0); [lia|].
    destruct (Z.ltb_spec 12 hour); lia. }
  split.
  { intros H1. destruct (Z.eqb_spec hour 0); [lia|].
    destruct (Z.ltb_spec 12 hour); lia. }
  split.
  { destruct (Z.leb_spec 12 hour); split; intros; try lia; congruence. }
  intros colon tenth background brightness.
  destruct (misc_val_meridiem
              (Clock.mk_options true brightness colon tenth background)
              (if 12 <=? hour then 1 else 0) eq_refl)
    as [Hpm Ham].
  rewrite Hpm, Ham.
  destruct (Z.leb_spec 12 hour); split; split; intros; try lia; congruence.
Qed.

Lemma civil_hour_twelve_witness :
  fst (Clock.civil_hour true 0) = 12 /\ fst (Clock.civil_hour true 17) = 5.
Proof.
  split.
  - apply (proj1 (civil_hour_twelve 0 ltac:(lia))). left. reflexivity.
  - apply (proj1 (proj2 (proj2 (civil_hour_twelve 17 ltac:(lia))))). lia.
Defined.

End CivilHour.

(** ** The decode register and the misc digit (claims C7, C8 and C9) *)

Section DecodeMask.

Local Open Scope Z_scope.

Lemma digit_cases (digit : Z) :
  0 <= digit <= 7 ->
  digit = 0 \/ digit = 1 \/ digit = 2 \/ digit = 3
  \/ digit = 4 \/ digit = 5 \/ digit = 6 \/ digit = 7.
Proof. lia. Qed.

Ltac each_digit H :=
  repeat (destruct H as [H|H]; [subst|]); [..|subst].

Lemma clock_mask_sense (o : Clock.options) (h : Z) :
  Protocol.set_selects_decode (Clock.decode_val o h) (Clock.digit_meant o h).
Proof.
  intros digit Hd. apply digit_cases in Hd.
  unfold Clock.decode_val, Clock.digit_meant.
  destruct (Clock.ampm o), (Clock.tenth o), (h <? 10);
    each_digit Hd; vm_compute; split; congruence.
Qed.

Lemma sidereal_mask_sense (o : Sidereal.options) :
  Protocol.set_selects_decode (Sidereal.decode_mask o)
                              (Sidereal.digit_meant o).
Proof.
  intros digit Hd. apply digit_cases in Hd.
  unfold Sidereal.decode_mask, Sidereal.digit_meant.
  destruct (Sidereal.tenth_enable o);
    each_digit Hd; vm_compute; split; congruence.
Qed.

(** C7, as stated, fails: in the decode-mode byte of either program
    with its default options (0x7F), bit 7 is 0 and digit 7 is the raw
    segment digit, and bit 1 is 1 and digit 1 is a numeral. *)
Lemma decode_bit_set_is_not_raw :
  ~ Protocol.set_selects_raw (Clock.decode_val Clock.defaults 12)
                             (Clock.digit_meant Clock.defaults 12)
  /\ ~ Protocol.set_selects_raw (Sidereal.decode_mask Sidereal.defaults)
                                (Sidereal.digit_meant Sidereal.defaults).
Proof.
  split; intros H; destruct (H 7 ltac:(lia)) as [_ H7];
    specialize (H7 eq_refl); vm_compute in H7; discriminate H7.
Qed.

(** C7, amended: in every decode-mode register byte the program emits,
    a bit value of 1 for a digit position selects BCD/numeral decode
    for that position and a bit value of 0 selects raw segment mode. *)
Theorem decode_bit_set_is_decode (digit : Z) :
  0 <= digit <= 7 ->
  (forall o h,
      (Z.testbit (Clock.decode_val o h) digit = true
       <-> Clock.digit_meant o h digit = Decoded)
      /\ (Z.testbit (Clock.decode_val o h) digit = false
          <-> Clock.digit_meant o h digit = RawSegments))
  /\ (forall o,
      (Z.testbit (Sidereal.decode_mask o) digit = true
       <-> Sidereal.digit_meant o digit = Decoded)
      /\ (Z.testbit (Sidereal.decode_mask o) digit = false
          <-> Sidereal.digit_meant o digit = RawSegments)).
Proof.
  intros Hd. split.
  - intros o h. pose proof (clock_mask_sense o h digit Hd) as [H1 H2].
    split; [split; assumption|].
    destruct (Z.testbit (Clock.decode_val o h) digit);
      destruct (Clock.digit_meant o h digit);
      split; intros; try reflexivity; try discriminate;
      try (specialize (H1 eq_refl); discriminate);
      try (specialize (H2 eq_refl); discriminate).
  - intros o. pose proof (sidereal_mask_sense o digit Hd) as [H1 H2].
    split; [split; assumption|].
    destruct (Z.testbit (Sidereal.decode_mask o) digit);
      destruct (Sidereal.digit_meant o digit);
      split; intros; try reflexivity; try discriminate;
      try (specialize (H1 eq_refl); discriminate);
      try (specialize (H2 eq_refl); discriminate).
Qed.

Lemma decode_bit_set_is_decode_witness :
  Z.testbit (Sidereal.decode_mask Sidereal.defaults) 7 = false
  /\ Z.testbit (Clock.decode_val Clock.defaults 12) 3 = true.
Proof.
  split.
  - apply (proj2 (proj2 (decode_bit_set_is_decode 7 ltac:(lia))
                   Sidereal.defaults)).
    reflexivity.
  - apply (proj1 (proj1 (decode_bit_set_is_decode 3 ltac:(lia))
                   Clock.defaults 12)).
    reflexivity.
Defined.

(** C8: in every emitted decode-mask byte, the tenths digit's decode
    bit (bit 6) is clear if and only if the sub-second digit is
    disabled, and the indicator digit's (digit 7's) decode bit is
    always clear. *)
Theorem decode_mask_tenths_and_indicator :
  (forall o h,
      (Z.testbit (Clock.decode_val o h) 6 = false <-> Clock.tenth o = false)
      /\ Z.testbit (Clock.decode_val o h) 7 = false)
  /\ (forall o,
      (Z.testbit (Sidereal.decode_mask o) DIGIT_100_MSEC = false
       <-> Sidereal.tenth_enable o = false)
      /\ Z.testbit (Sidereal.decode_mask o) DIGIT_MISC = false).
Proof.
  split.
  - intros o h. unfold Clock.decode_val.
    destruct (Clock.ampm o), (Clock.tenth o), (h <? 10);
      vm_compute; repeat split; congruence.
  - intros o. unfold Sidereal.decode_mask.
    destruct (Sidereal.tenth_enable o);
      vm_compute; repeat split; congruence.
Qed.

End DecodeMask.

Section Colons.

Local Open Scope Z_scope.

(** C's [s % 2 == 0] holds for the even values of [s], negative ones
    included. *)
Lemma rem2_even (s : Z) : (Z.rem s 2 =? 0) = Z.even s.
Proof.
  rewrite Z.rem_eq by lia.
  destruct (Z.eqb_spec (s - 2 * Z.quot s 2) 0) as [E|N].
  - symmetry. apply Z.even_spec. exists (Z.quot s 2). lia.
  - destruct (Z.even s) eqn:Ev; [|reflexivity].
    apply Z.even_spec in Ev. destruct Ev as [m Hm]. exfalso. apply N.
    subst s. rewrite (Z.mul_comm 2 m), Z.quot_mul by lia. lia.
Qed.

Lemma colons_lit :
  Protocol.lit MASK_COLON_HM (uchar (Z.lor 0 (Z.lor MASK_COLON_HM MASK_COLON_MS)))
  /\ Protocol.lit MASK_COLON_MS (uchar (Z.lor 0 (Z.lor MASK_COLON_HM MASK_COLON_MS))).
Proof. split; reflexivity. Qed.

Lemma colons_dark :
  ~ Protocol.lit MASK_COLON_HM 0 /\ ~ Protocol.lit MASK_COLON_MS 0.
Proof. split; intros H; discriminate H. Qed.

(** C9: for every decomposed time, with colon enabled and blink
    disabled the hour:minute and minute:second colon bit-pairs of the
    indicator digit are both set whatever the seconds value; with
    colon enabled and blink enabled both pairs are set if and only if
    the seconds value is even.  The civil clock has no blink option,
    and its colons are set whenever they are enabled. *)
Theorem colon_bits (o : Sidereal.options) (s : Z) :
  Sidereal.colon o = true ->
  (Sidereal.colon_blink o = false ->
   Protocol.lit MASK_COLON_HM (Sidereal.misc_digit o s)
   /\ Protocol.lit MASK_COLON_MS (Sidereal.misc_digit o s))
  /\ (Sidereal.colon_blink o = true ->
      (Protocol.lit MASK_COLON_HM (Sidereal.misc_digit o s)
       /\ Protocol.lit MASK_COLON_MS (Sidereal.misc_digit o s)
       <-> Z.even s = true)
      /\ (Z.even s = false ->
          ~ Protocol.lit MASK_COLON_HM (Sidereal.misc_digit o s)
          /\ ~ Protocol.lit MASK_COLON_MS (Sidereal.misc_digit o s)))
  /\ (forall c pm, Clock.colon c = true ->
      Protocol.lit MASK_COLON_HM (Clock.misc_val c pm)
      /\ Protocol.lit MASK_COLON_MS (Clock.misc_val c pm)).
Proof.
  intros Hc. unfold Sidereal.misc_digit. rewrite Hc, rem2_even.
  split; [|split].
  - intros Hb. rewrite Hb. cbn [negb orb andb]. exact colons_lit.
  - intros Hb. rewrite Hb. cbn [negb orb andb].
    destruct (Z.even s).
    + split; [split; [reflexivity | exact (fun _ => colons_lit)]|].
      intros E; discriminate E.
    + split; [|intros _; exact colons_dark].
      split; [|intros E; discriminate E].
      intros [H _]. destruct (proj1 colons_dark H).
  - intros c pm Hcc. unfold Clock.misc_val. rewrite Hcc.
    destruct (Clock.ampm c); [destruct (pm =? 0)|];
      split; reflexivity.
Qed.

Lemma colon_bits_witness :
  Protocol.lit MASK_COLON_HM (Sidereal.misc_digit Sidereal.defaults 37)
  /\ Protocol.lit MASK_COLON_MS (Sidereal.misc_digit Sidereal.defaults 37).
Proof.
  exact (proj1 (colon_bits Sidereal.defaults 37 eq_refl) eq_refl).
Defined.

End Colons.

(** ** Failures of the clock and of the display (claim C2) *)

Section Failures.

Import Frames.

Lemma bind_exited {A B} (c : M A) (k : A -> M B) (e : env) (s s' : sys)
      (code : Z) :
  c e s = Exited code s' -> bind c k e s = Exited code s'.
Proof. intros E. unfold bind. rewrite E. reflexivity. Qed.

Lemma bind_never_exits {A B} (c : M A) (k : A -> M B) :
  never_exits c -> (forall a, never_exits (k a)) -> never_exits (bind c k).
Proof.
  intros Hc Hk e s. unfold bind. specialize (Hc e s).
  destruct (c e s) as [a s'|code s'|s'];
    [apply Hk | discriminate Hc | reflexivity].
Qed.

(** *** The civil clock goes on *)

Lemma clock_write_reg_never_exits (reg data : Z) :
  never_exits (Clock.write_reg reg data).
Proof.
  intros e s. unfold Clock.write_reg, bind, spi_transfer.
  destruct (ioctl_at e (ioctl_calls s)); reflexivity.
Qed.

Lemma clock_write_frame_never_exits o h pm lt tenth_val :
  never_exits (Clock.write_frame o h pm lt tenth_val).
Proof.
  unfold Clock.write_frame.
  repeat (apply bind_never_exits;
          [apply clock_write_reg_never_exits | intros _]).
  apply clock_write_reg_never_exits.
Qed.

Lemma clock_loop_body_never_exits o last_tenth :
  never_exits (Clock.loop_body o last_tenth).
Proof.
  unfold Clock.loop_body.
  apply bind_never_exits.
  { intros e s. unfold clock_gettime.
    destruct (clock_at e (clock_calls s)); reflexivity. }
  intros r. apply bind_never_exits.
  { destruct (fst r); intros e s; reflexivity. }
  intros _. apply bind_never_exits.
  { intros e s. reflexivity. }
  intros lt.
  match goal with |- never_exits (if ?b then _ else _) => destruct b end.
  - apply bind_never_exits;
      [apply clock_write_frame_never_exits | intros _ e s; reflexivity].
  - intros e s. reflexivity.
Qed.

(** Whatever fails, the loop of the civil clock goes on to its next
    pass. *)
Lemma clock_main_loop_never_exits (passes : nat) :
  forall o last_tenth, never_exits (Clock.main_loop passes o last_tenth).
Proof.
  induction passes as [|n IH]; intros o last_tenth.
  - intros e s. reflexivity.
  - cbn [Clock.main_loop]. apply bind_never_exits.
    + apply clock_loop_body_never_exits.
    + intros t. apply IH.
Qed.

(** *** The sidereal clock stops *)

Variable e : env.

Lemma write_reg_cases (reg data : Z) (s : sys) :
  Sidereal.write_reg reg data e s
  = if ioctl_at e (ioctl_calls s)
    then Running tt (mk_sys (clock_calls s) (S (ioctl_calls s))
                            (timer_calls s)
                            ((uchar reg, uchar data) :: wire s)
                            (armed s) (stderr s))
    else Exited 1 (mk_sys (clock_calls s) (S (ioctl_calls s))
                          (timer_calls s) (wire s) (armed s)
                          ("ioctl(SPI_IOC_MESSAGE(1))"%string :: stderr s)).
Proof.
  unfold Sidereal.write_reg, bind, spi_transfer.
  destruct (ioctl_at e (ioctl_calls s)); reflexivity.
Qed.

(** A rejected transfer ends the process at once: no later pair of
    the frame is sent. *)
Lemma write_all_stops (l : list (Z * Z)) :
  forall (s : sys) (j : nat),
    (j < List.length l)%nat ->
    ioctl_at e (ioctl_calls s + j) = false ->
    (forall i, (i < j)%nat -> ioctl_at e (ioctl_calls s + i) = true) ->
    exists s',
      write_all l e s = Exited 1 s'
      /\ ioctl_calls s' = S (ioctl_calls s + j)
      /\ wire s' = rev (map (fun p => (uchar (fst p), uchar (snd p)))
                            (firstn j l)) ++ wire s
      /\ clock_calls s' = clock_calls s
      /\ armed s' = armed s.
Proof.
  induction l as [|[reg data] tl IH]; intros s j Hj Hfail Hok.
  - simpl in Hj. lia.
  - destruct j as [|j].
    + rewrite Nat.add_0_r in Hfail.
      assert (E : Sidereal.write_reg reg data e s
                  = Exited 1 (mk_sys (clock_calls s) (S (ioctl_calls s))
                                (timer_calls s) (wire s) (armed s)
                                ("ioctl(SPI_IOC_MESSAGE(1))"%string
                                   :: stderr s)))
        by (rewrite write_reg_cases, Hfail; reflexivity).
      eexists. split.
      * cbn [write_all]. destruct tl; [exact E | apply bind_exited, E].
      * cbn [ioctl_calls wire clock_calls armed firstn map rev app].
        repeat split. lia.
    + assert (H0 : ioctl_at e (ioctl_calls s) = true).
      { rewrite <- (Nat.add_0_r (ioctl_calls s)). apply Hok. lia. }
      pose proof (write_reg_cases reg data s) as E. rewrite H0 in E.
      destruct tl as [|p tl']; [simpl in Hj; lia|].
      set (s1 := mk_sys (clock_calls s) (S (ioctl_calls s)) (timer_calls s)
                        ((uchar reg, uchar data) :: wire s)
                        (armed s) (stderr s)) in *.
      destruct (IH s1 j) as (s' & E' & Hc & Hw & Hcl & Ha).
      * simpl in Hj |- *. lia.
      * cbn [s1 ioctl_calls]. rewrite <- Hfail. f_equal. lia.
      * intros i Hi. cbn [s1 ioctl_calls].
        rewrite <- (Hok (S i)) by lia. f_equal. lia.
      * exists s'. split; [|split; [|split; [|split]]].
        -- change (write_all ((reg, data) :: p :: tl'))
             with (Sidereal.write_reg reg data ;; write_all (p :: tl')).
           unfold bind. rewrite E. exact E'.
        -- rewrite Hc. cbn [s1 ioctl_calls]. lia.
        -- rewrite Hw. cbn [s1 wire firstn map rev fst snd].
           rewrite <- app_assoc. reflexivity.
        -- rewrite Hcl. reflexivity.
        -- rewrite Ha. reflexivity.
Qed.

Lemma write_frame_is_write_all o h m s tenth_val :
  Sidereal.write_frame o h m s tenth_val
  = write_all (frame o h m s tenth_val).
Proof. reflexivity. Qed.

(** A failed clock read ends [update_display] before anything is
    written. *)
Lemma update_display_clock_failure (o : Sidereal.options) (s : sys) :
  clock_at e (clock_calls s) = None ->
  exists s',
    Sidereal.update_display o e s = Exited 1 s'
    /\ wire s' = wire s /\ armed s' = armed s
    /\ ioctl_calls s' = ioctl_calls s.
Proof.
  intros Hfail. unfold Sidereal.update_display, bind, clock_gettime.
  rewrite Hfail. cbn [fst snd]. unfold perror, exit.
  eexists. split; [reflexivity|]. repeat split.
Qed.

(** A rejected transfer ends [update_display]: the rest of the frame
    is not sent and the timer is not armed again. *)
Lemma update_display_write_failure (o : Sidereal.options) (s : sys)
      (t : timespec) (j : nat) :
  clock_at e (clock_calls s) = Some t ->
  Sidereal.ends (Sidereal.sidereal_hours (Sidereal.longitude o) t) = true ->
  (j < 9)%nat ->
  ioctl_at e (ioctl_calls s + j) = false ->
  (forall i, (i < j)%nat -> ioctl_at e (ioctl_calls s + i) = true) ->
  exists s',
    Sidereal.update_display o e s = Exited 1 s'
    /\ ioctl_calls s' = S (ioctl_calls s + j)
    /\ armed s' = armed s.
Proof.
  intros Hclock Hends Hj Hfail Hok.
  unfold Sidereal.update_display.
  erewrite bind_running
    by (unfold clock_gettime; rewrite Hclock; reflexivity).
  cbn [fst snd]. erewrite bind_running by reflexivity.
  destruct (Sidereal.sidereal_hours (Sidereal.longitude o) t) as [g |];
    [| discriminate Hends].
  rewrite write_frame_is_write_all.
  match goal with
  | |- context [write_all ?l] =>
      destruct (write_all_stops l
                  (mk_sys (S (clock_calls s)) (ioctl_calls s)
                          (timer_calls s) (wire s) (armed s) (stderr s))
                  j Hj Hfail Hok)
        as (s' & E & Hc & _ & _ & Ha)
  end.
  exists s'. split; [apply bind_exited; exact E|].
  split; [exact Hc | exact Ha].
Qed.

(** Once an update has ended the process, no later update runs. *)
Lemma updates_stop (o : Sidereal.options) (n : nat) (s s' : sys) :
  Sidereal.update_display o e s = Exited 1 s' ->
  Sidereal.updates (S n) o e s = Exited 1 s'.
Proof. intros E. cbn [Sidereal.updates]. apply bind_exited, E. Qed.

End Failures.

Section FatalFailures.

(** C2 does not hold of the civil clock.  With every SPI transfer
    rejected, eleven passes of the loop of [SPI_Clock.c] issue the
    eighteen transfers of two frames, all of them failing, and the
    loop goes on; with the clock unreadable, three passes report
    three failures, send a frame made from the unset [now], and the
    loop goes on.  On the same inputs the sidereal clock exits at the
    first failed call. *)
Theorem civil_clock_continues_past_failures :
  let spi := Clock.main_loop 11 Clock.defaults 12 Scenario.no_spi boot in
  let clk := Clock.main_loop 3 Clock.defaults 12 Scenario.no_clock boot in
  let spi' := Sidereal.updates 3 Sidereal.defaults Scenario.no_spi boot in
  let clk' := Sidereal.updates 3 Sidereal.defaults Scenario.no_clock boot in
  (exited spi = false
   /\ clock_calls (final spi) = 11%nat
   /\ ioctl_calls (final spi) = 18%nat
   /\ wire (final spi) = [])
  /\ (exited clk = false
      /\ clock_calls (final clk) = 3%nat
      /\ List.length (stderr (final clk)) = 3%nat
      /\ List.length (wire (final clk)) = 9%nat)
  /\ (exited spi' = true
      /\ clock_calls (final spi') = 1%nat
      /\ ioctl_calls (final spi') = 1%nat)
  /\ (exited clk' = true
      /\ clock_calls (final clk') = 1%nat
      /\ ioctl_calls (final clk') = 0%nat).
Proof. vm_compute. repeat split. Qed.

End FatalFailures.

Lemma clock_write_reg_ok (e : env) (reg data : Z) (s : sys) :
  ioctl_at e (ioctl_calls s) = true ->
  Clock.write_reg reg data e s
  = Running tt (mk_sys (clock_calls s) (S (ioctl_calls s)) (timer_calls s)
                       ((uchar reg, uchar data) :: wire s)
                       (armed s) (stderr s)).
Proof.
  intros Hok. unfold Clock.write_reg, bind, spi_transfer.
  rewrite Hok. reflexivity.
Qed.

(** ** What one update puts on the wire *)

Section OnTheWire.

Import Frames.
Local Open Scope Z_scope.

Variable e : env.
Hypothesis ioctl_ok : forall k, ioctl_at e k = true.

Lemma write_all_sends (l : list (Z * Z)) :
  forall s,
    write_all l e s
    = Running tt (mk_sys (clock_calls s) (List.length l + ioctl_calls s)
                         (timer_calls s) (rev (map as_bytes l) ++ wire s)
                         (armed s) (stderr s)).
Proof.
  induction l as [|[reg data] tl IH]; intros s.
  - destruct s; reflexivity.
  - destruct tl as [|p tl'].
    + cbn [write_all]. rewrite write_reg_cases, ioctl_ok. reflexivity.
    + change (write_all ((reg, data) :: p :: tl'))
        with (Sidereal.write_reg reg data ;; write_all (p :: tl')).
      unfold bind. rewrite write_reg_cases, ioctl_ok. rewrite IH.
      cbn [clock_calls ioctl_calls timer_calls wire armed stderr].
      f_equal. f_equal.
      * cbn [List.length]. lia.
      * cbn [map rev]. rewrite <- !app_assoc. reflexivity.
Qed.

(** The sidereal clock sends the decode-mode byte first and the byte of
    the misc digit last, unchanged by the conversion to
    [unsigned char]. *)
Lemma sidereal_frame_on_wire (o : Sidereal.options) (h m sec tenth_val : Z)
      (s : sys) :
  exists digits,
    rev (wire (final (Sidereal.write_frame o h m sec tenth_val e s)))
    = rev (wire s)
      ++ (MAX_REG_DEC_MODE, Sidereal.decode_mask o) :: digits
      ++ [(0x67, Sidereal.misc_digit o sec)]
    /\ List.length digits = 7%nat.
Proof.
  rewrite write_frame_is_write_all, write_all_sends. cbn [final wire].
  rewrite rev_app_distr, rev_involutive. unfold frame.
  cbn [map]. unfold as_bytes. cbn [fst snd].
  assert (Ed : uchar (Sidereal.decode_mask o) = Sidereal.decode_mask o)
    by (unfold Sidereal.decode_mask; destruct (Sidereal.tenth_enable o);
        reflexivity).
  assert (Em : uchar (Sidereal.misc_digit o sec) = Sidereal.misc_digit o sec)
    by (unfold Sidereal.misc_digit;
        destruct (Sidereal.colon o
                  && (negb (Sidereal.colon_blink o) || (Z.rem sec 2 =? 0)));
        reflexivity).
  rewrite Ed, Em.
  eexists. split.
  - f_equal. change (uchar MAX_REG_DEC_MODE) with MAX_REG_DEC_MODE.
    change (uchar (Z.lor MAX_REG_MASK_BOTH DIGIT_MISC)) with 0x67.
    f_equal.
    match goal with
    | |- [?a; ?b; ?c; ?d; ?f; ?g; ?i; ?last] = _ =>
        change [a; b; c; d; f; g; i; last]
          with ([a; b; c; d; f; g; i] ++ [last])
    end.
    reflexivity.
  - reflexivity.
Qed.

(** So does the civil clock. *)
Lemma clock_frame_on_wire (o : Clock.options) (h pm : Z) (lt : tm)
      (tenth_val : Z) (s : sys) :
  exists digits,
    rev (wire (final (Clock.write_frame o h pm lt tenth_val e s)))
    = rev (wire s)
      ++ (MAX_REG_DEC_MODE, Clock.decode_val o h) :: digits
      ++ [(0x67, Clock.misc_val o pm)]
    /\ List.length digits = 7%nat.
Proof.
  unfold Clock.write_frame.
  repeat (erewrite bind_running by (apply clock_write_reg_ok, ioctl_ok);
          cbn [clock_calls ioctl_calls timer_calls wire armed stderr]).
  rewrite clock_write_reg_ok by apply ioctl_ok. cbn [final wire].
  assert (Ed : uchar (Clock.decode_val o h) = Clock.decode_val o h)
    by (unfold Clock.decode_val;
        destruct (Clock.ampm o && (h <? 10)), (Clock.tenth o); reflexivity).
  assert (Em : uchar (Clock.misc_val o pm) = Clock.misc_val o pm)
    by (unfold Clock.misc_val;
        destruct (Clock.colon o), (Clock.ampm o), (pm =? 0); reflexivity).
  rewrite Ed, Em. cbn [rev app]. rewrite <- !app_assoc. cbn [app].
  eexists. split.
  - f_equal. change (uchar MAX_REG_DEC_MODE) with MAX_REG_DEC_MODE.
    change (uchar (MAX_REG_MASK_BOTH + 7)) with 0x67.
    f_equal.
    match goal with
    | |- [?a; ?b; ?c; ?d; ?f; ?g; ?i; ?last] = _ =>
        change [a; b; c; d; f; g; i; last]
          with ([a; b; c; d; f; g; i] ++ [last])
    end.
    reflexivity.
  - reflexivity.
Qed.

End OnTheWire.

(** ** The brightness option (claim C10) *)

Section Brightness.

Local Open Scope Z_scope.

Lemma low_four_bits (x : Z) :
  uchar (Z.land x 0xf) = Z.land x 0xf
  /\ Z.land x 0xf = x mod 16
  /\ 0 <= Z.land x 0xf <= 15.
Proof.
  assert (E : Z.land x 0xf = x mod 16)
    by (change 0xf with (Z.ones 4); rewrite Z.land_ones by lia;
        reflexivity).
  rewrite E.
  pose proof (Z.mod_pos_bound x 16 ltac:(lia)) as Hb.
  unfold uchar. change (2 ^ 8) with 256.
  rewrite (Z.mod_small (x mod 16)) by lia.
  repeat split; lia.
Qed.

(** The conversion to [int] keeps the value modulo 16. *)
Lemma atoi_mod_16 (s : string) : atoi s mod 16 = strtol s mod 16.
Proof.
  unfold atoi, sint. generalize (strtol s). intros v.
  change (2 ^ 31) with 2147483648. change (2 ^ 32) with 4294967296.
  Z.div_mod_to_equations. lia.
Qed.

(** What [strtol] returns, by the size of the value. *)
Lemma strtol_cases (s : string) :
  (LONG_MIN <= decimal_value s <= LONG_MAX -> strtol s = decimal_value s)
  /\ (LONG_MAX < decimal_value s -> strtol s = LONG_MAX)
  /\ (decimal_value s < LONG_MIN -> strtol s = LONG_MIN).
Proof.
  unfold strtol, LONG_MIN, LONG_MAX. generalize (decimal_value s). intros v.
  change (2 ^ 63) with 9223372036854775808. repeat split; lia.
Qed.

Lemma atoi_in_range (s : string) :
  - 2 ^ 31 <= decimal_value s < 2 ^ 31 -> atoi s = decimal_value s.
Proof.
  intros Hv.
  assert (E : strtol s = decimal_value s).
  { apply strtol_cases. unfold LONG_MIN, LONG_MAX.
    change (2 ^ 31) with 2147483648 in Hv.
    change (2 ^ 63) with 9223372036854775808. lia. }
  unfold atoi, sint. rewrite E. revert Hv. generalize (decimal_value s).
  intros v. change (2 ^ 31) with 2147483648. change (2 ^ 32) with 4294967296.
  intros Hv. rewrite Z.mod_small by lia. lia.
Qed.

(** The four bits kept of what [atoi] returns. *)
Lemma atoi_low_bits (s : string) :
  (LONG_MIN <= decimal_value s <= LONG_MAX ->
   Z.land (atoi s) 0xf = decimal_value s mod 16)
  /\ (LONG_MAX < decimal_value s -> Z.land (atoi s) 0xf = 15)
  /\ (decimal_value s < LONG_MIN -> Z.land (atoi s) 0xf = 0).
Proof.
  destruct (low_four_bits (atoi s)) as (_ & Hm & _).
  destruct (strtol_cases s) as (In & Above & Below).
  rewrite Hm, atoi_mod_16.
  split; [intros H; rewrite (In H); reflexivity |].
  split; intros H; [rewrite (Above H) | rewrite (Below H)]; reflexivity.
Qed.


(** What the start-up of either program sends when no transfer
    fails: the third pair sets the intensity register. *)
Lemma clock_startup_wire (e : env) (o : Clock.options) :
  (forall k, ioctl_at e k = true) ->
  rev (wire (final (Clock.startup o e boot)))
  = [ (MAX_REG_CONFIG, 45); (MAX_REG_SCAN_LIMIT, 7);
      (MAX_REG_INTENSITY, uchar (Clock.brightness o));
      (MAX_REG_TEST, 1); (MAX_REG_TEST, 0) ].
Proof.
  intros Hok. unfold Clock.startup.
  repeat (erewrite bind_running by (apply clock_write_reg_ok, Hok);
          cbn [clock_calls ioctl_calls timer_calls wire armed stderr]).
  rewrite clock_write_reg_ok by apply Hok. reflexivity.
Qed.

Lemma sidereal_startup_wire (e : env) (o : Sidereal.options) :
  (forall k, ioctl_at e k = true) ->
  rev (wire (final (Sidereal.startup o e boot)))
  = [ (MAX_REG_CONFIG, 33); (MAX_REG_SCAN_LIMIT, 7);
      (MAX_REG_INTENSITY, uchar (Sidereal.brightness o));
      (MAX_REG_TEST, 1); (MAX_REG_TEST, 0) ].
Proof.
  intros Hok. unfold Sidereal.startup.
  repeat (erewrite bind_running
            by (rewrite write_reg_cases, Hok; reflexivity);
          cbn [clock_calls ioctl_calls timer_calls wire armed stderr]).
  rewrite write_reg_cases, Hok. reflexivity.
Qed.

(** C10, as stated, fails for an argument beyond the range of [long]:
    there [atoi] does not return the low bits of the value but those of
    [LONG_MAX], and -b 9223372036854775808, whose value is a multiple of
    16, sets brightness 15. *)
Lemma brightness_beyond_long :
  let optarg := "9223372036854775808"%string in
  0 <= decimal_value optarg
  /\ decimal_value optarg mod 16 = 0
  /\ (forall o, exists o',
        Clock.handle_option o "b" optarg = Some o'
        /\ Clock.brightness o' = 15)
  /\ (forall atof o, exists o',
        Sidereal.handle_option atof o "b" optarg = Some o'
        /\ Sidereal.brightness o' = 15).
Proof.
  cbv zeta. split; [vm_compute; discriminate |]. split; [reflexivity |].
  split; [intros o | intros atof o]; eexists; split; reflexivity.
Qed.

(** C10, amended: for every string argument given to the -b option,
    the brightness value written to the intensity register equals the
    [int] that [atoi] returns for the argument, masked to its low 4
    bits; for an argument whose value fits a [long] this is the value
    modulo 16, beyond [LONG_MAX] it is 15 and below [LONG_MIN] it is 0.
    It always lies in [0,15], and an out-of-range argument wraps rather
    than clamps: -b 16 yields brightness 0. *)
Theorem brightness_low_four_bits (optarg : string) (e : env) :
  (forall k, ioctl_at e k = true) ->
  (forall o, exists o',
      Clock.handle_option o "b" optarg = Some o'
      /\ Clock.brightness o' = Z.land (atoi optarg) 0xf
      /\ (LONG_MIN <= decimal_value optarg <= LONG_MAX ->
          Clock.brightness o' = decimal_value optarg mod 16)
      /\ (LONG_MAX < decimal_value optarg -> Clock.brightness o' = 15)
      /\ (decimal_value optarg < LONG_MIN -> Clock.brightness o' = 0)
      /\ 0 <= Clock.brightness o' <= 15
      /\ nth_error (rev (wire (final (Clock.startup o' e boot)))) 2
         = Some (MAX_REG_INTENSITY, Clock.brightness o'))
  /\ (forall atof o, exists o',
      Sidereal.handle_option atof o "b" optarg = Some o'
      /\ Sidereal.brightness o' = Z.land (atoi optarg) 0xf
      /\ (LONG_MIN <= decimal_value optarg <= LONG_MAX ->
          Sidereal.brightness o' = decimal_value optarg mod 16)
      /\ (LONG_MAX < decimal_value optarg -> Sidereal.brightness o' = 15)
      /\ (decimal_value optarg < LONG_MIN -> Sidereal.brightness o' = 0)
      /\ 0 <= Sidereal.brightness o' <= 15
      /\ nth_error (rev (wire (final (Sidereal.startup o' e boot)))) 2
         = Some (MAX_REG_INTENSITY, Sidereal.brightness o'))
  /\ Z.land (atoi "16") 0xf = 0.
Proof.
  intros Hok.
  destruct (low_four_bits (atoi optarg)) as (Hu & Hm & Hr).
  destruct (atoi_low_bits optarg) as (In & Above & Below).
  split; [|split; [|reflexivity]].
  - intros o. eexists. split; [reflexivity|].
    cbn [Clock.brightness]. rewrite Hu.
    split; [reflexivity|].
    split; [exact In|]. split; [exact Above|]. split; [exact Below|].
    split; [exact Hr|].
    rewrite (clock_startup_wire e _ Hok). cbn [nth_error Clock.brightness].
    rewrite !Hu. reflexivity.
  - intros atof o. eexists. split; [reflexivity|].
    cbn [Sidereal.brightness]. rewrite Hu.
    split; [reflexivity|].
    split; [exact In|]. split; [exact Above|]. split; [exact Below|].
    split; [exact Hr|].
    rewrite (sidereal_startup_wire e _ Hok).
    cbn [nth_error Sidereal.brightness].
    rewrite !Hu. reflexivity.
Qed.

Lemma brightness_low_four_bits_witness :
  exists o',
    Clock.handle_option Clock.defaults "b" "-3" = Some o'
    /\ Clock.brightness o' = 13
    /\ nth_error
         (rev (wire (final (Clock.startup o' (Scenario.healthy []) boot)))) 2
       = Some (MAX_REG_INTENSITY, 13).
Proof.
  destruct (proj1 (brightness_low_four_bits
                     "-3" (Scenario.healthy []) (fun k => eq_refl))
                  Clock.defaults)
    as (o' & E & _ & Hin & _ & _ & _ & Hwire).
  assert (Hv : LONG_MIN <= decimal_value "-3" <= LONG_MAX)
    by (vm_compute; split; discriminate).
  exists o'. split; [exact E|]. split; [exact (Hin Hv)|].
  rewrite Hwire. rewrite (Hin Hv). reflexivity.
Defined.


End Brightness.

(** * Further properties of the code *)

(** ** The expiry time *)

Section ExpiryTime.

Import Sidereal.
Local Open Scope Z_scope.

(** The expiry [schedule_timer] computes is never in the past: it lies
    [FUDGE] before a tenth-of-second boundary, more than 49.75 ms and at
    most 149.75 ms after the reading it is computed from. *)
Theorem wake_time_lead (now : timespec) :
  normalized now ->
  (nanos (wake_time now) + FUDGE) mod TENTH_IN_NANOS = 0
  /\ 5 * HUNDREDTH_IN_NANOS - FUDGE < nanos (wake_time now) - nanos now
  /\ nanos (wake_time now) - nanos now <= 15 * HUNDREDTH_IN_NANOS - FUDGE.
Proof.
  intros Hn. split; [exact (wake_time_on_grid now Hn)|].
  rewrite (wake_time_nanos now Hn).
  change HUNDREDTH_IN_NANOS with 10000000. unfold FUDGE.
  generalize (nanos now). intros n.
  split; Z.div_mod_to_equations; lia.
Qed.

Lemma wake_time_lead_witness :
  5 * HUNDREDTH_IN_NANOS - FUDGE
  < nanos (wake_time (mk_timespec 1500000059 999800000))
    - nanos (mk_timespec 1500000059 999800000).
Proof.
  assert (Hn : normalized (mk_timespec 1500000059 999800000))
    by (unfold normalized; simpl; lia).
  exact (proj1 (proj2 (wake_time_lead _ Hn))).
Defined.

(** A later reading never gives an earlier expiry. *)
Theorem wake_time_monotone (a b : timespec) :
  normalized a -> normalized b ->
  nanos a <= nanos b ->
  nanos (wake_time a) <= nanos (wake_time b).
Proof.
  intros Ha Hb Hab.
  rewrite (wake_time_nanos a Ha), (wake_time_nanos b Hb).
  revert Hab. generalize (nanos a) (nanos b). intros x y Hxy.
  Z.div_mod_to_equations. lia.
Qed.

Lemma wake_time_monotone_witness :
  nanos (wake_time (mk_timespec 1500000059 949999999))
  <= nanos (wake_time (mk_timespec 1500000059 950000000)).
Proof.
  apply wake_time_monotone.
  - unfold normalized; simpl; lia.
  - unfold normalized; simpl; lia.
  - unfold nanos; simpl; lia.
Defined.

End ExpiryTime.

(** ** The fields shown *)

Section SiderealFields.

Import Sidereal.
Local Open Scope Q_scope.

(** Lines 234-237 cut a sidereal hour value between 0 and 24 into
    whole hours, minutes below 60, seconds below 60 and tenths below
    10; the hour is the whole part of the value, and the fields put
    together again are the value cut to tenths of a second, but for
    the rounding of the two multiplications by 60 and of the one by
    10, which moves the value by less than 3e-20 h. *)
Theorem sidereal_fields_recompose (gf : fval) (g : Q) :
  is_value gf g -> representable long_double g ->
  0 <= g -> g <= 24 ->
  let h := inject_Z (hour_of gf) in
  let m := inject_Z (minute_of gf) in
  let s := inject_Z (second_of gf) in
  let t := inject_Z (tenth_of gf) in
  hour_of gf = Qfloor g
  /\ (0 <= hour_of gf <= 24)%Z
  /\ (0 <= minute_of gf <= 59)%Z
  /\ (0 <= second_of gf <= 59)%Z
  /\ (0 <= tenth_of gf <= 9)%Z
  /\ h + m / 60 + s / 3600 + t / 36000 - (3 # 100000000000000000000) <= g
  /\ g < h + m / 60 + s / 3600 + (t + 1) / 36000
         + (3 # 100000000000000000000).
Proof.
  intros V R Hg Hday. cbv zeta.
  destruct (fields_value gf g V R Hg ltac:(lra))
    as (Hh & Hm & Hs & Ht & Hlow & Hup).
  split; [exact Hh |].
  split.
  { rewrite Hh. split.
    - rewrite <- (Qfloor_Z 0). apply Qfloor_resp_le. exact Hg.
    - rewrite <- (Qfloor_Z 24). apply Qfloor_resp_le. exact Hday. }
  split; [exact Hm |]. split; [exact Hs |]. split; [exact Ht |].
  revert Hlow Hup.
  generalize (inject_Z (hour_of gf)) (inject_Z (minute_of gf))
             (inject_Z (second_of gf)) (inject_Z (tenth_of gf)).
  intros h m s t Hlow Hup. by_inverse. split; lra.
Qed.

Lemma sidereal_fields_recompose_witness :
  hour_of (Finite 22.125) = Qfloor 22.125
  /\ (0 <= minute_of (Finite 22.125) <= 59)%Z.
Proof.
  assert (R : representable long_double 22.125).
  { exists 177%Z, (-3)%Z. split; [reflexivity |].
    split; vm_compute; discriminate. }
  assert (Hg : 0 <= 22.125) by (unfold Qle; simpl; lia).
  assert (Hd : 22.125 <= 24) by (unfold Qle; simpl; lia).
  destruct (sidereal_fields_recompose (Finite 22.125) 22.125
              (is_value_Finite _) R Hg Hd) as (Hh & _ & Hm & _).
  split; [exact Hh | exact Hm].
Defined.

End SiderealFields.

(** ** The numerals of a frame *)

Section Numerals.

Local Open Scope Z_scope.

Lemma digit_byte (d : Z) :
  0 <= d <= 9 ->
  Display.numeral d = d
  /\ uchar d = d
  /\ Display.numeral (Z.lor d MASK_DP) = d
  /\ uchar (Z.lor d MASK_DP) = Z.lor d MASK_DP
  /\ Display.numeral (Z.lor d 0) = d
  /\ uchar (Z.lor d 0) = Z.lor d 0.
Proof.
  intros Hd.
  assert (H : d = 0 \/ d = 1 \/ d = 2 \/ d = 3 \/ d = 4
              \/ d = 5 \/ d = 6 \/ d = 7 \/ d = 8 \/ d = 9) by lia.
  repeat (destruct H as [H|H]; [subst d; repeat split|]).
  subst d; repeat split.
Qed.

(** A value below 100 as the two numerals the programs write for it. *)
Lemma two_digits (x : Z) :
  0 <= x <= 99 ->
  0 <= Z.quot x 10 <= 9
  /\ 0 <= Z.rem x 10 <= 9
  /\ 10 * Z.quot x 10 + Z.rem x 10 = x.
Proof.
  intros Hx. rewrite Z.quot_div_nonneg, Z.rem_mod_nonneg by lia.
  Z.div_mod_to_equations. lia.
Qed.

End Numerals.

Section SiderealFrame.

Import Sidereal.
Local Open Scope Z_scope.

(** From 2000-09-21 on, whatever the longitude in [-360,360], the
    conversion ends and the frame the sidereal clock sends is the
    decode-mode byte, the seven numerals of the digits 0 to 6 and the
    byte of the misc digit, in this order; no byte is cut by the
    conversion to [unsigned char], the numerals read as the hour,
    minute, second and tenth the conversion found (the tenth as 0 when
    the digit is turned off), and the hour is at most 24. *)
Theorem sidereal_frame_shows
    (e : env) (o : options) (l : Q) (now_spec : timespec) (st : sys) :
  (forall k, ioctl_at e k = true) ->
  is_value (longitude o) l ->
  (-360 <= l <= 360)%Q ->
  969494400 <= tv_sec now_spec ->
  nanos now_spec < 2 ^ 63 ->
  normalized now_spec ->
  exists g bytes,
    sidereal_hours (longitude o) now_spec = Ends g
    /\ rev (wire (final (write_frame o (hour_of g) (minute_of g) (second_of g)
                                     (tenth_of g) e st)))
       = rev (wire st)
         ++ (MAX_REG_DEC_MODE, decode_mask o)
            :: combine Display.digit_registers bytes
         ++ [(0x67, misc_digit o (second_of g))]
    /\ Display.shown bytes
       = Some (hour_of g, minute_of g, second_of g,
               if tenth_enable o then tenth_of g else 0)
    /\ 0 <= hour_of g <= 24.
Proof.
  intros Hok Vl Hlon Hs Hk Hn.
  destruct (sidereal_hours_value (longitude o) l now_spec Vl Hlon Hs Hk Hn)
    as (g0 & r & k & _ & _ & Erun & Rr & _ & Br).
  destruct (fields_value (Finite r) r (is_value_Finite r) Rr
              ltac:(lra) ltac:(lra)) as (Eh & Hm & Hsec & Ht & _).
  assert (Hh : 0 <= hour_of (Finite r) <= 24).
  { rewrite Eh. split.
    - rewrite <- (Qfloor_Z 0). apply Qfloor_resp_le.
      change (inject_Z 0) with 0%Q. lra.
    - rewrite <- (Qfloor_Z 24). apply Qfloor_resp_le.
      change (inject_Z 24) with 24%Q. lra. }
  exists (Finite r). clear Eh.
  generalize dependent (tenth_of (Finite r)).
  generalize dependent (second_of (Finite r)).
  generalize dependent (minute_of (Finite r)).
  generalize dependent (hour_of (Finite r)).
  intros h Hh m Hm s Hsec t Ht.
  destruct (two_digits h ltac:(lia)) as (Hh1 & Hh2 & Hh3).
  destruct (two_digits m ltac:(lia)) as (Hm1 & Hm2 & Hm3).
  destruct (two_digits s ltac:(lia)) as (Hs1 & Hs2 & Hs3).
  destruct (digit_byte _ Hh1) as (Nh1 & Uh1 & _).
  destruct (digit_byte _ Hh2) as (Nh2 & Uh2 & _).
  destruct (digit_byte _ Hm1) as (Nm1 & Um1 & _).
  destruct (digit_byte _ Hm2) as (Nm2 & Um2 & _).
  destruct (digit_byte _ Hs1) as (Ns1 & Us1 & _).
  destruct (digit_byte _ Hs2) as (_ & _ & Ns2 & Us2 & Ns2' & Us2').
  destruct (digit_byte _ Ht) as (Nt & Ut & _).
  exists [Z.quot h 10; Z.rem h 10; Z.quot m 10; Z.rem m 10; Z.quot s 10;
          Z.lor (Z.rem s 10) (if tenth_enable o then MASK_DP else 0);
          if tenth_enable o then t else 0].
  split; [exact Erun |].
  split; [|split; [|exact Hh]].
  - rewrite write_frame_is_write_all, (write_all_sends e Hok).
    cbn [final wire]. rewrite rev_app_distr, rev_involutive.
    f_equal. unfold Frames.frame. cbn [map]. unfold Frames.as_bytes.
    cbn [fst snd combine Display.digit_registers app].
    assert (Ed : uchar (decode_mask o) = decode_mask o)
      by (unfold decode_mask; destruct (tenth_enable o); reflexivity).
    assert (Em : uchar (misc_digit o s) = misc_digit o s)
      by (unfold misc_digit;
          destruct (colon o && (negb (colon_blink o) || (Z.rem s 2 =? 0)));
          reflexivity).
    rewrite Ed, Em, Uh1, Uh2, Um1, Um2, Us1.
    destruct (tenth_enable o); [rewrite Us2, Ut | rewrite Us2']; reflexivity.
  - unfold Display.shown. rewrite Nh1, Nh2, Nm1, Nm2, Ns1, Hh3, Hm3.
    destruct (tenth_enable o).
    + rewrite Ns2, Nt, Hs3. reflexivity.
    + rewrite Ns2', Hs3. reflexivity.
Qed.

Lemma sidereal_frame_shows_witness :
  exists g,
    sidereal_hours (longitude defaults) (mk_timespec 1500000000 0) = Ends g
    /\ 0 <= hour_of g <= 24.
Proof.
  assert (Hlon : (-360 <= 0 <= 360)%Q)
    by (split; unfold Qle; simpl; lia).
  assert (Hs : 969494400 <= tv_sec (mk_timespec 1500000000 0))
    by (simpl; lia).
  assert (Hk : nanos (mk_timespec 1500000000 0) < 2 ^ 63)
    by (vm_compute; reflexivity).
  assert (Hn : normalized (mk_timespec 1500000000 0))
    by (unfold normalized; simpl; lia).
  destruct (sidereal_frame_shows (Scenario.healthy []) defaults 0%Q
              (mk_timespec 1500000000 0) boot (fun k => eq_refl)
              (is_value_Finite 0) Hlon Hs Hk Hn)
    as (g & bytes & E & _ & _ & Hh).
  exists g. split; [exact E | exact Hh].
Defined.

End SiderealFrame.

Section CivilFrame.

Local Open Scope Z_scope.

Lemma civil_hour_range (ampm : bool) (hour : Z) :
  0 <= hour <= 23 ->
  0 <= fst (Clock.civil_hour ampm hour) <= 23
  /\ (ampm = true -> 1 <= fst (Clock.civil_hour ampm hour) <= 12)
  /\ (ampm = false -> Clock.civil_hour ampm hour = (hour, 0)).
Proof.
  intros Hh. destruct ampm.
  - rewrite (civil_hour_closed hour Hh). cbn [fst].
    destruct (Z.eqb_spec hour 0); [repeat split; intros; try lia; congruence|].
    destruct (Z.ltb_spec 12 hour); repeat split; intros; try lia; congruence.
  - unfold Clock.civil_hour, uchar. rewrite Z.mod_small by lia. cbn [fst].
    repeat split; intros; try lia; congruence.
Qed.

Lemma civil_frame_bytes
    (e : env) (o : Clock.options) (lt : tm) (tenth_val : Z) (st : sys) :
  (forall k, ioctl_at e k = true) ->
  0 <= tm_hour lt <= 23 ->
  0 <= tm_min lt <= 59 ->
  0 <= tm_sec lt <= 60 ->
  0 <= tenth_val <= 9 ->
  let h := fst (Clock.civil_hour (Clock.ampm o) (tm_hour lt)) in
  let pm := snd (Clock.civil_hour (Clock.ampm o) (tm_hour lt)) in
  exists bytes,
    rev (wire (final (Clock.write_frame o h pm lt tenth_val e st)))
    = rev (wire st)
      ++ (MAX_REG_DEC_MODE, Clock.decode_val o h)
         :: combine Display.digit_registers bytes
      ++ [(0x67, Clock.misc_val o pm)]
    /\ Display.shown bytes
       = Some (h, tm_min lt, tm_sec lt,
               if Clock.tenth o then tenth_val else 0)
    /\ (if Clock.ampm o then 1 <= h <= 12 else h = tm_hour lt).
Proof.
  intros Hok Hhour Hmin Hsec Ht. cbv zeta.
  destruct (civil_hour_range (Clock.ampm o) (tm_hour lt) Hhour)
    as (Hh & H12 & H24).
  generalize dependent (Clock.civil_hour (Clock.ampm o) (tm_hour lt)).
  intros [h pm]. cbn [fst snd]. intros Hh H12 H24.
  destruct (two_digits h ltac:(lia)) as (Hh1 & Hh2 & Hh3).
  destruct (two_digits (tm_min lt) ltac:(lia)) as (Hm1 & Hm2 & Hm3).
  destruct (two_digits (tm_sec lt) ltac:(lia)) as (Hs1 & Hs2 & Hs3).
  destruct (digit_byte _ Hh1) as (Nh1 & Uh1 & _).
  destruct (digit_byte _ Hh2) as (Nh2 & Uh2 & _).
  destruct (digit_byte _ Hm1) as (Nm1 & Um1 & _).
  destruct (digit_byte _ Hm2) as (Nm2 & Um2 & _).
  destruct (digit_byte _ Hs1) as (Ns1 & Us1 & _).
  destruct (digit_byte _ Hs2) as (_ & _ & Ns2 & Us2 & Ns2' & Us2').
  destruct (digit_byte _ Ht) as (Nt & Ut & _).
  exists [Z.quot h 10; Z.rem h 10;
          Z.quot (tm_min lt) 10; Z.rem (tm_min lt) 10;
          Z.quot (tm_sec lt) 10;
          Z.lor (Z.rem (tm_sec lt) 10) (if Clock.tenth o then MASK_DP else 0);
          if Clock.tenth o then tenth_val else 0].
  split; [|split].
  - unfold Clock.write_frame.
    repeat (erewrite bind_running by (apply clock_write_reg_ok, Hok);
            cbn [clock_calls ioctl_calls timer_calls wire armed stderr]).
    rewrite clock_write_reg_ok by apply Hok. cbn [final wire].
    assert (Ed : uchar (Clock.decode_val o h) = Clock.decode_val o h)
      by (unfold Clock.decode_val;
          destruct (Clock.ampm o && (h <? 10)), (Clock.tenth o);
          reflexivity).
    assert (Em : uchar (Clock.misc_val o pm) = Clock.misc_val o pm)
      by (unfold Clock.misc_val;
          destruct (Clock.colon o), (Clock.ampm o), (pm =? 0); reflexivity).
    rewrite Ed, Em, Uh1, Uh2, Um1, Um2, Us1.
    cbn [rev app]. rewrite <- !app_assoc. cbn [app]. f_equal.
    cbn [combine Display.digit_registers app].
    destruct (Clock.tenth o); [rewrite Us2, Ut | rewrite Us2']; reflexivity.
  - unfold Display.shown. rewrite Nh1, Nh2, Nm1, Nm2, Ns1, Hh3, Hm3.
    destruct (Clock.tenth o).
    + rewrite Ns2, Nt, Hs3. reflexivity.
    + rewrite Ns2', Hs3. reflexivity.
  - destruct (Clock.ampm o).
    + apply H12. reflexivity.
    + specialize (H24 eq_refl). congruence.
Qed.

End CivilFrame.

(** ** When the civil clock redraws *)

Section Redraws.

Import Counting.
Local Open Scope Z_scope.

Lemma costs_bind {A B} (c : M A) (k : A -> M B) (i j i' j' : nat) :
  costs c i j -> (forall a, costs (k a) i' j') ->
  costs (bind c k) (i + i') (j + j').
Proof.
  intros Hc Hk e s. destruct (Hc e s) as (a & s1 & E1 & C1 & I1).
  destruct (Hk a e s1) as (b & s2 & E2 & C2 & I2).
  exists b, s2. unfold bind. rewrite E1. split; [exact E2|]. lia.
Qed.

Lemma costs_ret {A} (a : A) : costs (ret a) 0 0.
Proof. intros e s. exists a, s. unfold ret. repeat split; lia. Qed.

Lemma clock_write_reg_costs (reg data : Z) :
  costs (Clock.write_reg reg data) 0 1.
Proof.
  intros e s. unfold Clock.write_reg, bind, spi_transfer.
  destruct (ioctl_at e (ioctl_calls s)); eexists; eexists;
    (split; [reflexivity|]); cbn [clock_calls ioctl_calls]; lia.
Qed.

Lemma clock_write_frame_costs o h pm lt tenth_val :
  costs (Clock.write_frame o h pm lt tenth_val) 0 9.
Proof.
  unfold Clock.write_frame.
  change 9%nat with (1 + (1 + (1 + (1 + (1 + (1 + (1 + (1 + 1))))))))%nat.
  repeat (apply (costs_bind _ _ 0 1 0);
          [apply clock_write_reg_costs | intros _]).
  apply clock_write_reg_costs.
Qed.

(** One pass reads the clock once, and sends a frame of nine pairs when
    the tenth differs from the one of the pass before, and nothing
    otherwise. *)
Lemma loop_body_costs (e : env) (o : Clock.options) (last_tenth : Z)
      (s : sys) :
  exists s',
    Clock.loop_body o last_tenth e s
    = Running (ClockProgram.tenth_at e (clock_calls s)) s'
    /\ clock_calls s' = S (clock_calls s)
    /\ ioctl_calls s'
       = (ioctl_calls s
          + if (ClockProgram.tenth_at e (clock_calls s) =? last_tenth)%Z
            then 0 else 9)%nat.
Proof.
  unfold Clock.loop_body, ClockProgram.tenth_at, ClockProgram.reading.
  assert (Hgo : forall (t : timespec) (s2 : sys),
             clock_calls s2 = S (clock_calls s) ->
             ioctl_calls s2 = ioctl_calls s ->
             exists s',
               (lt <- Clock.ask_localtime (tv_sec t) ;;
                let hp := Clock.civil_hour (Clock.ampm o) (tm_hour lt) in
                let tenth_val :=
                  uint (Z.quot (tv_nsec t) (100 * 1000 * 1000)) in
                if negb (tenth_val =? last_tenth)
                then Clock.write_frame o (fst hp) (snd hp) lt tenth_val ;;
                     ret tenth_val
                else ret last_tenth) e s2
               = Running (uint (Z.quot (tv_nsec t) (100 * 1000 * 1000))) s'
               /\ clock_calls s' = S (clock_calls s)
               /\ ioctl_calls s'
                  = (ioctl_calls s
                     + if (uint (Z.quot (tv_nsec t) (100 * 1000 * 1000))
                           =? last_tenth)%Z
                       then 0 else 9)%nat).
  { intros t s2 Hc2 Hi2.
    erewrite bind_running by reflexivity. cbv zeta.
    destruct (Z.eqb_spec (uint (Z.quot (tv_nsec t) (100 * 1000 * 1000)))
                         last_tenth) as [E|N]; cbn [negb].
    - exists s2. unfold ret. rewrite E. split; [reflexivity|]. lia.
    - match goal with
      | |- context [Clock.write_frame ?o ?h ?pm ?lt ?tv] =>
          destruct (clock_write_frame_costs o h pm lt tv e s2)
            as ([] & s3 & E3 & C3 & I3)
      end.
      exists s3. erewrite bind_running by exact E3.
      unfold ret. split; [reflexivity|]. lia. }
  destruct (clock_at e (clock_calls s)) as [t|] eqn:Eclock.
  - erewrite bind_running
      by (unfold clock_gettime; rewrite Eclock; reflexivity).
    cbn [fst snd]. erewrite bind_running by reflexivity.
    apply Hgo; reflexivity.
  - erewrite bind_running
      by (unfold clock_gettime; rewrite Eclock; reflexivity).
    cbn [fst snd]. erewrite bind_running by reflexivity.
    apply Hgo; reflexivity.
Qed.

Lemma main_loop_costs (e : env) (o : Clock.options) (passes : nat) :
  forall (last_tenth : Z) (s : sys),
    exists t s',
      Clock.main_loop passes o last_tenth e s = Running t s'
      /\ clock_calls s' = (clock_calls s + passes)%nat
      /\ ioctl_calls s'
         = (ioctl_calls s
            + 9 * ClockProgram.redraws e (clock_calls s) passes last_tenth)%nat.
Proof.
  induction passes as [|n IH]; intros last_tenth s.
  - exists last_tenth, s. cbn [Clock.main_loop ClockProgram.redraws].
    unfold ret. split; [reflexivity|]. lia.
  - destruct (loop_body_costs e o last_tenth s) as (s1 & E1 & C1 & I1).
    destruct (IH (ClockProgram.tenth_at e (clock_calls s)) s1)
      as (t & s2 & E2 & C2 & I2).
    exists t, s2. cbn [Clock.main_loop ClockProgram.redraws].
    erewrite bind_running by exact E1. split; [exact E2|].
    split; [lia|]. rewrite I2, I1, C1.
    destruct (ClockProgram.tenth_at e (clock_calls s) =? last_tenth); lia.
Qed.

(** The tenth of a clock reading as the kernel delivers it is below
    10. *)
Lemma tenth_at_range (e : env) (k : nat) :
  normalized (ClockProgram.reading e k) ->
  0 <= ClockProgram.tenth_at e k <= 9.
Proof.
  unfold normalized, ClockProgram.tenth_at, uint. intros Hn.
  rewrite Z.quot_div_nonneg by lia.
  change (100 * 1000 * 1000) with 100000000.
  assert (0 <= tv_nsec (ClockProgram.reading e k) / 100000000 < 10)
    by (split; [apply Z.div_pos; lia | apply Z.div_lt_upper_bound; lia]).
  rewrite Z.mod_small by lia. lia.
Qed.

(** The loop of the civil clock reads the clock once in every pass and
    redraws the display, with the nine transfers of one frame, in
    exactly those passes whose tenth of a second differs from the one
    of the pass before; no call that fails changes this.  A first pass,
    which starts from [last_tenth] 12, redraws whenever its reading is
    a clock reading as the kernel delivers it. *)
Theorem civil_loop_redraws (e : env) (o : Clock.options) :
  (forall (passes : nat) (last_tenth : Z) (s : sys),
      exists t s',
        Clock.main_loop passes o last_tenth e s = Running t s'
        /\ clock_calls s' = (clock_calls s + passes)%nat
        /\ ioctl_calls s'
           = (ioctl_calls s
              + 9 * ClockProgram.redraws e (clock_calls s) passes
                      last_tenth)%nat)
  /\ (forall (passes first : nat),
        normalized (ClockProgram.reading e first) ->
        (1 <= ClockProgram.redraws e first (S passes)
                ClockProgram.first_last_tenth)%nat).
Proof.
  split; [intros passes; apply main_loop_costs|].
  intros passes first Hn. cbn [ClockProgram.redraws].
  pose proof (tenth_at_range e first Hn) as Ht.
  destruct (Z.eqb_spec (ClockProgram.tenth_at e first)
                       ClockProgram.first_last_tenth) as [E|N];
    [unfold ClockProgram.first_last_tenth in E; lia | lia].
Qed.

End Redraws.

Lemma civil_loop_redraws_witness :
  (1 <= ClockProgram.redraws Scenario.no_spi 0 11
          ClockProgram.first_last_tenth)%nat.
Proof.
  apply (proj2 (civil_loop_redraws Scenario.no_spi Clock.defaults) 10%nat 0%nat).
  unfold normalized. simpl. lia.
Defined.

(** ** The option loops *)

Section OptionLoops.

Import Options.
Local Open Scope Z_scope.

Lemma all_known_cons letters c a rest :
  all_known letters ((c, a) :: rest)
  = existsb (Ascii.eqb c) letters && all_known letters rest.
Proof. reflexivity. Qed.

Lemma given_cons k c a rest :
  given k ((c, a) :: rest) = Ascii.eqb c k || given k rest.
Proof. reflexivity. Qed.

(** Comparisons of two given letters, evaluated. *)
Ltac compare_letters :=
  repeat match goal with
         | |- context [Ascii.eqb (Ascii ?a ?b ?c ?d ?e ?f ?g ?h)
                                 (Ascii ?a' ?b' ?c' ?d' ?e' ?f' ?g' ?h')] =>
             let x := constr:(Ascii.eqb (Ascii a b c d e f g h)
                                        (Ascii a' b' c' d' e' f' g' h')) in
             let v := eval vm_compute in x in
             change x with v
         end;
  cbn [orb andb negb].

Ltac known_letter IH :=
  subst; rewrite IH; compare_letters;
  cbn [Clock.ampm Clock.brightness Clock.colon Clock.tenth Clock.background
       Sidereal.colon Sidereal.colon_blink Sidereal.tenth_enable
       Sidereal.longitude Sidereal.brightness Sidereal.background];
  rewrite ?andb_false_r, ?andb_true_r;
  repeat match goal with
         | |- context [match last_arg ?k ?r with _ => _ end] =>
             destruct (last_arg k r)
         end;
  reflexivity.

Lemma clock_getopt_loop_closed (args : list (ascii * string)) :
  forall o,
    Clock.getopt_loop o args
    = if all_known clock_letters args
      then Some (Clock.mk_options
                   (Clock.ampm o && negb (given "2" args))
                   (match last_arg "b" args with
                    | Some a => brightness_of a
                    | None => Clock.brightness o
                    end)
                   (Clock.colon o && negb (given "c" args))
                   (Clock.tenth o && negb (given "t" args))
                   (Clock.background o && negb (given "d" args)))
      else None.
Proof.
  induction args as [|[c a] rest IH]; intros o.
  - cbn. rewrite !andb_true_r. destruct o; reflexivity.
  - cbn [Clock.getopt_loop]. unfold Clock.handle_option.
    rewrite all_known_cons, !given_cons.
    cbn [existsb clock_letters last_arg]. fold (brightness_of a).
    destruct (Ascii.eqb_spec c "2"); [known_letter IH|].
    destruct (Ascii.eqb_spec c "b"); [known_letter IH|].
    destruct (Ascii.eqb_spec c "c"); [known_letter IH|].
    destruct (Ascii.eqb_spec c "d"); [known_letter IH|].
    destruct (Ascii.eqb_spec c "t"); [known_letter IH|].
    reflexivity.
Qed.

Lemma sidereal_getopt_loop_closed (atof : string -> fval)
      (args : list (ascii * string)) :
  forall o,
    Sidereal.getopt_loop atof o args
    = if all_known sidereal_letters args
      then Some (Sidereal.mk_options
                   (Sidereal.colon o && negb (given "c" args))
                   (Sidereal.colon_blink o || given "B" args)
                   (Sidereal.tenth_enable o && negb (given "t" args))
                   (match last_arg "l" args with
                    | Some a => convert Ieee.binary32 (atof a)
                    | None => Sidereal.longitude o
                    end)
                   (match last_arg "b" args with
                    | Some a => brightness_of a
                    | None => Sidereal.brightness o
                    end)
                   (Sidereal.background o && negb (given "d" args)))
      else None.
Proof.
  induction args as [|[c a] rest IH]; intros o.
  - cbn. rewrite !andb_true_r, orb_false_r. destruct o; reflexivity.
  - cbn [Sidereal.getopt_loop]. unfold Sidereal.handle_option.
    rewrite all_known_cons, !given_cons.
    cbn [existsb sidereal_letters last_arg]. fold (brightness_of a).
    destruct (Ascii.eqb_spec c "b"); [known_letter IH|].
    destruct (Ascii.eqb_spec c "B");
      [subst; rewrite IH; compare_letters;
       cbn [Sidereal.colon Sidereal.colon_blink Sidereal.tenth_enable
            Sidereal.longitude Sidereal.brightness Sidereal.background];
       rewrite ?orb_true_r;
       repeat match goal with
              | |- context [match last_arg ?k ?r with _ => _ end] =>
                  destruct (last_arg k r)
              end;
       reflexivity|].
    destruct (Ascii.eqb_spec c "c"); [known_letter IH|].
    destruct (Ascii.eqb_spec c "d"); [known_letter IH|].
    destruct (Ascii.eqb_spec c "l"); [known_letter IH|].
    destruct (Ascii.eqb_spec c "t"); [known_letter IH|].
    reflexivity.
Qed.

Lemma all_known_spec (letters : list ascii) (args : list (ascii * string)) :
  all_known letters args = false
  <-> exists c a, In (c, a) args /\ ~ In c letters.
Proof.
  unfold all_known. split.
  - intros H. induction args as [|[c a] rest IH]; [discriminate H|].
    cbn [forallb fst] in H. apply andb_false_iff in H. destruct H as [H|H].
    + exists c, a. split; [left; reflexivity|].
      intros Hin. assert (E : existsb (Ascii.eqb c) letters = true).
      { apply existsb_exists. exists c. split; [exact Hin|].
        apply Ascii.eqb_refl. }
      congruence.
    + destruct (IH H) as (c' & a' & Hin & Hnot).
      exists c', a'. split; [right; exact Hin | exact Hnot].
  - intros (c & a & Hin & Hnot).
    destruct (forallb (fun p => existsb (Ascii.eqb (fst p)) letters) args)
      eqn:E; [|reflexivity].
    exfalso. apply Hnot.
    pose proof (proj1 (forallb_forall _ _) E (c, a) Hin) as H.
    cbn [fst] in H. apply existsb_exists in H. destruct H as (k & Hk & Ek).
    apply Ascii.eqb_eq in Ek. subst k. exact Hk.
Qed.

Lemma brightness_of_range (a : string) :
  brightness_of a = atoi a mod 16
  /\ (LONG_MIN <= decimal_value a <= LONG_MAX ->
      brightness_of a = decimal_value a mod 16)
  /\ 0 <= brightness_of a <= 15.
Proof.
  unfold brightness_of.
  destruct (low_four_bits (atoi a)) as (Hu & Hm & Hr).
  rewrite Hu. split; [exact Hm |]. split; [| exact Hr].
  apply atoi_low_bits.
Qed.

(** The option loop of the civil clock ends in [usage(); exit(1)] if
    and only if [getopt] returns something that is not one of the
    letters 2, b, c, d, t.  Otherwise the order and the repetition of
    the options do not matter: each flag is cleared exactly when its
    letter is given, and the brightness is that of the last -b (what
    [atoi] returns modulo 16, which is the value modulo 16 when the
    value fits a [long]), or 15 without one, and always lies in
    [0,15]. *)
Theorem clock_options_parsed (args : list (ascii * string)) :
  (Clock.getopt_loop Clock.defaults args = None
   <-> exists c a, In (c, a) args /\ ~ In c clock_letters)
  /\ (forall o,
        Clock.getopt_loop Clock.defaults args = Some o ->
        Clock.ampm o = negb (given "2" args)
        /\ Clock.colon o = negb (given "c" args)
        /\ Clock.tenth o = negb (given "t" args)
        /\ Clock.background o = negb (given "d" args)
        /\ Clock.brightness o
           = match last_arg "b" args with
             | Some a => atoi a mod 16
             | None => 15
             end
        /\ (forall a, last_arg "b" args = Some a ->
                      LONG_MIN <= decimal_value a <= LONG_MAX ->
                      Clock.brightness o = decimal_value a mod 16)
        /\ 0 <= Clock.brightness o <= 15).
Proof.
  rewrite clock_getopt_loop_closed. split.
  - rewrite <- all_known_spec.
    destruct (all_known clock_letters args); split; intros H;
      try reflexivity; discriminate H.
  - intros o. destruct (all_known clock_letters args); [|discriminate].
    intros H. injection H as <-.
    cbn [Clock.ampm Clock.colon Clock.tenth Clock.background
         Clock.brightness Clock.defaults andb].
    repeat (split; [reflexivity|]).
    destruct (last_arg "b" args) as [a|].
    + destruct (brightness_of_range a) as (Hm & Hv & Hr).
      split; [exact Hm |]. split; [| exact Hr].
      intros a' E. injection E as <-. exact Hv.
    + split; [reflexivity |]. split; [intros a' E; discriminate E | lia].
Qed.

Lemma clock_options_parsed_witness :
  exists o,
    Clock.getopt_loop Clock.defaults
      CommandLine.dim_24h = Some o
    /\ Clock.brightness o = 5 /\ Clock.ampm o = false.
Proof.
  eexists. split; [reflexivity|].
  destruct (proj2 (clock_options_parsed
                     CommandLine.dim_24h)
              _ eq_refl) as (Ha & _ & _ & _ & _ & Hb & _).
  split; [| exact Ha].
  apply (Hb "21"%string eq_refl). vm_compute. split; discriminate.
Defined.

(** The option loop of the sidereal clock ends in [usage(); exit(1)]
    if and only if [getopt] returns something that is not one of the
    letters b, B, c, d, l, t.  Otherwise the order and the repetition of
    the options do not matter: each flag follows the presence of its
    letter, the longitude is the [float] nearest to what [atof] makes
    of the last -l, or 0 without one, and the brightness is that of the
    last -b (what [atoi] returns modulo 16, which is the value modulo
    16 when the value fits a [long]), or 15 without one, and always
    lies in [0,15]. *)
Theorem sidereal_options_parsed
    (atof : string -> fval) (args : list (ascii * string)) :
  (Sidereal.getopt_loop atof Sidereal.defaults args = None
   <-> exists c a, In (c, a) args /\ ~ In c sidereal_letters)
  /\ (forall o,
        Sidereal.getopt_loop atof Sidereal.defaults args = Some o ->
        Sidereal.colon o = negb (given "c" args)
        /\ Sidereal.colon_blink o = given "B" args
        /\ Sidereal.tenth_enable o = negb (given "t" args)
        /\ Sidereal.background o = negb (given "d" args)
        /\ Sidereal.longitude o
           = match last_arg "l" args with
             | Some a => convert Ieee.binary32 (atof a)
             | None => Finite 0
             end
        /\ Sidereal.brightness o
           = match last_arg "b" args with
             | Some a => atoi a mod 16
             | None => 15
             end
        /\ (forall a, last_arg "b" args = Some a ->
                      LONG_MIN <= decimal_value a <= LONG_MAX ->
                      Sidereal.brightness o = decimal_value a mod 16)
        /\ 0 <= Sidereal.brightness o <= 15).
Proof.
  rewrite sidereal_getopt_loop_closed. split.
  - rewrite <- all_known_spec.
    destruct (all_known sidereal_letters args); split; intros H;
      try reflexivity; discriminate H.
  - intros o. destruct (all_known sidereal_letters args); [|discriminate].
    intros H. injection H as <-.
    cbn [Sidereal.colon Sidereal.colon_blink Sidereal.tenth_enable
         Sidereal.longitude Sidereal.brightness Sidereal.background
         Sidereal.defaults andb orb].
    repeat (split; [reflexivity|]).
    destruct (last_arg "b" args) as [a|].
    + destruct (brightness_of_range a) as (Hm & Hv & Hr).
      split; [exact Hm |]. split; [| exact Hr].
      intros a' E. injection E as <-. exact Hv.
    + split; [reflexivity |]. split; [intros a' E; discriminate E | lia].
Qed.

Lemma sidereal_options_parsed_witness :
  exists o,
    Sidereal.getopt_loop (fun _ => Finite (-122)) Sidereal.defaults
      CommandLine.west_blinking = Some o
    /\ Sidereal.colon_blink o = true /\ Sidereal.tenth_enable o = false.
Proof.
  eexists. split; [reflexivity|].
  destruct (proj2 (sidereal_options_parsed (fun _ => Finite (-122))
                     CommandLine.west_blinking)
              _ eq_refl) as (_ & Hb & Ht & _).
  split; [exact Hb | exact Ht].
Defined.

End OptionLoops.

(** ** The lights of digit 7 and the leading zero *)

Section Lights.

Local Open Scope Z_scope.

(** In the byte of digit 7 the civil clock never lights the unused
    segments G and DP; in 24 hour mode it lights neither AM nor PM, in
    12 hour mode exactly one of them; with the colons turned off none
    of the four colon segments is lit.  The sidereal clock lights
    nothing but the colons, and nothing at all when they are turned
    off. *)
Theorem misc_byte_lights :
  (forall o pm,
      Z.land (Clock.misc_val o pm) (Z.lor MASK_G MASK_DP) = 0
      /\ (Clock.ampm o = false ->
          Z.land (Clock.misc_val o pm) (Z.lor MASK_AM MASK_PM) = 0)
      /\ (Clock.ampm o = true ->
          (Protocol.lit MASK_AM (Clock.misc_val o pm)
           \/ Protocol.lit MASK_PM (Clock.misc_val o pm))
          /\ ~ (Protocol.lit MASK_AM (Clock.misc_val o pm)
                /\ Protocol.lit MASK_PM (Clock.misc_val o pm)))
      /\ (Clock.colon o = false ->
          Z.land (Clock.misc_val o pm) (Z.lor MASK_COLON_HM MASK_COLON_MS)
          = 0))
  /\ (forall o s,
      Z.land (Sidereal.misc_digit o s)
             (Z.lnot (Z.lor MASK_COLON_HM MASK_COLON_MS)) = 0
      /\ (Sidereal.colon o = false -> Sidereal.misc_digit o s = 0)).
Proof.
  split.
  - intros o pm. unfold Clock.misc_val, Protocol.lit.
    destruct (Clock.colon o), (Clock.ampm o), (pm =? 0);
      vm_compute; intuition (try congruence; try discriminate).
  - intros o s. unfold Sidereal.misc_digit.
    destruct (Sidereal.colon o), (Sidereal.colon_blink o),
      (Z.rem s 2 =? 0); vm_compute; repeat split; intros; congruence.
Qed.

Lemma misc_byte_lights_witness :
  Sidereal.misc_digit
    (Sidereal.mk_options false true true (Finite 0) 15 true) 10 = 0.
Proof.
  exact (proj2 (proj2 misc_byte_lights
                  (Sidereal.mk_options false true true (Finite 0) 15 true) 10)
               eq_refl).
Defined.

(** For every hour of the day, the civil clock blanks the tens of
    hours (its decode bit is clear and the byte written is 0) exactly
    in 12 hour mode and for the hours 1 to 9 and 13 to 21; in 24 hour
    mode the tens of hours is always a decoded numeral, a 0 before
    10 o'clock. *)
Theorem leading_zero_blanked (o : Clock.options) (hour : Z) :
  0 <= hour <= 23 ->
  let h := fst (Clock.civil_hour (Clock.ampm o) hour) in
  (Z.testbit (Clock.decode_val o h) 0 = false
   <-> Clock.ampm o = true /\ (1 <= hour <= 9 \/ 13 <= hour <= 21))
  /\ (Z.testbit (Clock.decode_val o h) 0 = false -> Z.quot h 10 = 0)
  /\ (Clock.ampm o = false ->
      Z.testbit (Clock.decode_val o h) 0 = true
      /\ (hour < 10 -> Z.quot h 10 = 0)).
Proof.
  intros Hh. cbv zeta.
  assert (Hbit : forall h,
             Z.testbit (Clock.decode_val o h) 0
             = negb (Clock.ampm o && (h <? 10))).
  { intros h. unfold Clock.decode_val.
    destruct (Clock.ampm o && (h <? 10)), (Clock.tenth o); reflexivity. }
  rewrite Hbit.
  destruct (civil_hour_range (Clock.ampm o) hour Hh) as (Hr & H12 & H24).
  destruct (Clock.ampm o) eqn:Ea.
  - rewrite (civil_hour_closed hour Hh) in *. cbn [fst] in *.
    cbn [andb].
    assert (Hq : forall x, 0 <= x < 10 -> Z.quot x 10 = 0)
      by (intros x Hx; apply Z.quot_small; lia).
    destruct (Z.eqb_spec hour 0) as [E0|N0].
    + subst hour. cbn. repeat split; intros; try lia; try discriminate;
        try (destruct H as [_ [H|H]]; lia).
    + destruct (Z.ltb_spec 12 hour) as [Hgt|Hle].
      * destruct (Z.ltb_spec (hour - 12) 10) as [Hs|Hb]; cbn [negb].
        -- repeat split; intros; try lia; try discriminate;
             try (apply Hq; lia).
        -- repeat split; intros; try lia; try discriminate;
             try (destruct H as [_ [H|H]]; lia).
      * destruct (Z.ltb_spec hour 10) as [Hs|Hb]; cbn [negb].
        -- repeat split; intros; try lia; try discriminate;
             try (apply Hq; lia).
        -- repeat split; intros; try lia; try discriminate;
             try (destruct H as [_ [H|H]]; lia).
  - rewrite (H24 eq_refl). cbn [fst andb negb].
    split; [split; [intros H; discriminate H
                   | intros [H _]; discriminate H]|].
    split; [intros H; discriminate H|].
    intros _. split; [reflexivity|].
    intros Hlt. apply Z.quot_small; lia.
Qed.

Lemma leading_zero_blanked_witness :
  Z.testbit (Clock.decode_val Clock.defaults
               (fst (Clock.civil_hour true 15))) 0 = false.
Proof.
  apply (proj1 (leading_zero_blanked Clock.defaults 15 ltac:(lia))).
  split; [reflexivity | right; lia].
Defined.

End Lights.

(** ** When the sidereal clock stops *)

Section SiderealExit.

Import Frames.
Variable e : env.

Lemma write_all_sends_some (l : list (Z * Z)) :
  forall s,
    (forall j, (j < List.length l)%nat ->
               ioctl_at e (ioctl_calls s + j) = true) ->
    write_all l e s
    = Running tt (mk_sys (clock_calls s) (List.length l + ioctl_calls s)
                         (timer_calls s) (rev (map as_bytes l) ++ wire s)
                         (armed s) (stderr s)).
Proof.
  induction l as [|[reg data] tl IH]; intros s Hok.
  - destruct s; reflexivity.
  - assert (H0 : ioctl_at e (ioctl_calls s) = true).
    { rewrite <- (Nat.add_0_r (ioctl_calls s)). apply Hok. simpl. lia. }
    destruct tl as [|p tl'].
    + cbn [write_all]. rewrite write_reg_cases, H0. reflexivity.
    + change (write_all ((reg, data) :: p :: tl'))
        with (Sidereal.write_reg reg data ;; write_all (p :: tl')).
      unfold bind. rewrite write_reg_cases, H0. rewrite IH.
      * cbn [clock_calls ioctl_calls timer_calls wire armed stderr].
        f_equal. f_equal.
        -- cbn [List.length]. lia.
        -- cbn [map rev]. rewrite <- !app_assoc. reflexivity.
      * intros j Hj. cbn [ioctl_calls].
        rewrite <- (Hok (S j)) by (simpl in *; lia). f_equal. lia.
Qed.

(** The first of [n] calls that fails. *)
Lemma first_failure (f : nat -> bool) (n : nat) :
  forallb f (seq 0 n) = false ->
  exists j, (j < n)%nat /\ f j = false
            /\ forall i, (i < j)%nat -> f i = true.
Proof.
  induction n as [|n IH]; intros H; [discriminate H|].
  rewrite seq_S, forallb_app in H. cbn [forallb Nat.add] in H.
  destruct (forallb f (seq 0 n)) eqn:E.
  - exists n. split; [lia|]. split.
    + cbn [andb] in H. rewrite andb_true_r in H. exact H.
    + intros i Hi. apply (proj1 (forallb_forall _ _) E).
      apply in_seq. lia.
  - destruct (IH eq_refl) as (j & Hj & Hf & Hb).
    exists j. split; [lia|]. split; assumption.
Qed.

Lemma schedule_timer_cases (s : sys) :
  match clock_at e (clock_calls s) with
  | None => exists s', Sidereal.schedule_timer e s = Exited 1 s'
                       /\ armed s' = armed s
  | Some _ =>
      if timer_at e (timer_calls s)
      then exists s', Sidereal.schedule_timer e s = Running tt s'
                      /\ clock_calls s' = S (clock_calls s)
                      /\ ioctl_calls s' = ioctl_calls s
                      /\ timer_calls s' = S (timer_calls s)
      else exists s', Sidereal.schedule_timer e s = Exited 1 s'
                      /\ armed s' = armed s
  end.
Proof.
  unfold Sidereal.schedule_timer, bind, clock_gettime, timer_settime.
  destruct (clock_at e (clock_calls s)) as [t|]; cbn [fst snd].
  - unfold ret. cbn [clock_calls ioctl_calls timer_calls wire armed stderr].
    destruct (timer_at e (timer_calls s)).
    + eexists. split; [reflexivity|]. repeat split.
    + eexists. split; [reflexivity|]. reflexivity.
  - eexists. split; [reflexivity|]. reflexivity.
Qed.

Lemma update_display_cases (o : Sidereal.options) (s : sys) :
  if SiderealProgram.converts o e s
  then if SiderealProgram.calls_succeed e s
       then exists s', Sidereal.update_display o e s = Running tt s'
                       /\ clock_calls s' = S (S (clock_calls s))
                       /\ ioctl_calls s' = (9 + ioctl_calls s)%nat
                       /\ timer_calls s' = S (timer_calls s)
       else exists s', Sidereal.update_display o e s = Exited 1 s'
                       /\ armed s' = armed s
  else exists s', Sidereal.update_display o e s = Spinning s'
                  /\ wire s' = wire s /\ armed s' = armed s.
Proof.
  unfold SiderealProgram.calls_succeed, SiderealProgram.converts.
  destruct (clock_at e (clock_calls s)) as [t|] eqn:Eclock.
  2:{ cbn [andb].
      destruct (update_display_clock_failure e o s Eclock)
        as (s' & E & _ & Ha & _).
      exists s'. split; assumption. }
  destruct (Sidereal.sidereal_hours (Sidereal.longitude o) t) as [g |] eqn:Eg;
    cbn [Sidereal.ends].
  2:{ unfold Sidereal.update_display.
      erewrite bind_running
        by (unfold clock_gettime; rewrite Eclock; reflexivity).
      cbn [fst snd]. erewrite bind_running by reflexivity.
      rewrite Eg. eexists. split; [reflexivity |]. split; reflexivity. }
  cbn [andb].
  destruct (forallb (fun j => ioctl_at e (ioctl_calls s + j)) (seq 0 9))
    eqn:Eio.
  2:{ cbn [andb].
      destruct (first_failure _ _ Eio) as (j & Hj & Hf & Hb).
      destruct (update_display_write_failure e o s t j Eclock
                  ltac:(rewrite Eg; reflexivity) Hj Hf Hb)
        as (s' & E & _ & Ha).
      exists s'. split; assumption. }
  cbn [andb].
  assert (Hok : forall j, (j < 9)%nat ->
                          ioctl_at e (ioctl_calls s + j) = true).
  { intros j Hj. apply (proj1 (forallb_forall _ _) Eio). apply in_seq. lia. }
  unfold Sidereal.update_display.
  erewrite bind_running
    by (unfold clock_gettime; rewrite Eclock; reflexivity).
  cbn [fst snd]. erewrite bind_running by reflexivity.
  rewrite Eg.
  rewrite write_frame_is_write_all.
  erewrite bind_running by (apply write_all_sends_some; exact Hok).
  match goal with
  | |- context [Sidereal.schedule_timer e ?s2] =>
      pose proof (schedule_timer_cases s2) as Hst
  end.
  cbn [clock_calls ioctl_calls timer_calls wire armed stderr] in Hst.
  destruct (clock_at e (S (clock_calls s))) as [t2|]; cbn [andb].
  2:{ destruct Hst as (s' & E & Ha). exists s'. split; assumption. }
  destruct (timer_at e (timer_calls s)).
  - destruct Hst as (s' & E & Hc & Hi & Ht).
    exists s'. split; [exact E|]. cbn [List.length frame] in Hi.
    repeat split; assumption.
  - destruct Hst as (s' & E & Ha). exists s'. split; assumption.
Qed.

(** One update of the sidereal clock returns if and only if the
    conversion of its reading ends and all of its calls succeed: the
    reading for the display, the nine transfers of the frame, the
    reading for the timer and the arming of the timer.  At the first
    call that fails the process exits with status 1, and the timer is
    not armed again.  When the loop of the conversion does not end,
    nothing is sent, the timer is not armed, and the process does not
    exit. *)
Theorem update_display_returns_iff (o : Sidereal.options) (s : sys) :
  ((exists s', Sidereal.update_display o e s = Running tt s')
   <-> SiderealProgram.converts o e s = true
       /\ SiderealProgram.calls_succeed e s = true)
  /\ (exited (Sidereal.update_display o e s) = true
      <-> SiderealProgram.converts o e s = true
          /\ SiderealProgram.calls_succeed e s = false)
  /\ (forall code s',
        Sidereal.update_display o e s = Exited code s' ->
        code = 1%Z /\ armed s' = armed s)
  /\ (forall s',
        Sidereal.update_display o e s = Spinning s' ->
        wire s' = wire s /\ armed s' = armed s).
Proof.
  pose proof (update_display_cases o s) as H.
  destruct (SiderealProgram.converts o e s);
    [destruct (SiderealProgram.calls_succeed e s) |].
  - destruct H as (s1 & E & _). rewrite E.
    split; [split; [intros _; split; reflexivity | intros _; exists s1; reflexivity] |].
    split; [split; [intros H'; discriminate H' | intros [_ H']; discriminate H'] |].
    split; [intros code s' H'; discriminate H' | intros s' H'; discriminate H'].
  - destruct H as (s1 & E & Ha). rewrite E.
    split; [split; [intros [s' H']; discriminate H'
                   | intros [_ H']; discriminate H'] |].
    split; [split; [intros _; split; reflexivity | intros _; reflexivity] |].
    split; [| intros s' H'; discriminate H'].
    intros code s' H'. injection H' as <- <-. split; [reflexivity | exact Ha].
  - destruct H as (s1 & E & Hw & Ha). rewrite E.
    split; [split; [intros [s' H']; discriminate H'
                   | intros [H' _]; discriminate H'] |].
    split; [split; [intros H'; discriminate H'
                   | intros [H' _]; discriminate H'] |].
    split; [intros code s' H'; discriminate H' |].
    intros s' H'. injection H' as <-. split; [exact Hw | exact Ha].
Qed.

(** A transfer that is rejected cuts the frame short: the pairs before
    it have reached the display, no later pair is sent, and the process
    has exited with status 1 without arming the timer. *)
Theorem rejected_transfer_cuts_frame
    (o : Sidereal.options) (s : sys) (t : timespec) (g : fval) (j : nat) :
  clock_at e (clock_calls s) = Some t ->
  Sidereal.sidereal_hours (Sidereal.longitude o) t = Sidereal.Ends g ->
  (j < 9)%nat ->
  ioctl_at e (ioctl_calls s + j) = false ->
  (forall i, (i < j)%nat -> ioctl_at e (ioctl_calls s + i) = true) ->
  exists s',
    Sidereal.update_display o e s = Exited 1 s'
    /\ rev (wire s')
       = rev (wire s)
         ++ firstn j (map as_bytes
                          (frame o (Sidereal.hour_of g) (Sidereal.minute_of g)
                                 (Sidereal.second_of g) (Sidereal.tenth_of g)))
    /\ ioctl_calls s' = S (ioctl_calls s + j)
    /\ armed s' = armed s.
Proof.
  intros Hclock Hg Hj Hfail Hok.
  unfold Sidereal.update_display.
  erewrite bind_running
    by (unfold clock_gettime; rewrite Hclock; reflexivity).
  cbn [fst snd]. erewrite bind_running by reflexivity.
  rewrite Hg.
  rewrite write_frame_is_write_all.
  match goal with
  | |- context [write_all ?l] =>
      destruct (write_all_stops e l
                  (mk_sys (S (clock_calls s)) (ioctl_calls s)
                          (timer_calls s) (wire s) (armed s) (stderr s))
                  j Hj Hfail Hok)
        as (s' & E & Hc & Hw & _ & Ha)
  end.
  exists s'. split; [apply bind_exited; exact E|].
  split; [|split; [exact Hc | exact Ha]].
  rewrite Hw. cbn [wire]. rewrite rev_app_distr, rev_involutive.
  rewrite firstn_map. reflexivity.
Qed.

End SiderealExit.

Lemma update_display_returns_iff_witness :
  exited (Sidereal.update_display Sidereal.defaults Scenario.no_clock boot)
  = true.
Proof.
  apply (proj2 (proj1 (proj2 (update_display_returns_iff Scenario.no_clock
                                Sidereal.defaults boot)))).
  split; reflexivity.
Defined.

Lemma rejected_transfer_cuts_frame_witness :
  exists s',
    Sidereal.update_display Sidereal.defaults Faults.fourth_rejected boot
    = Exited 1 s'
    /\ ioctl_calls s' = 4%nat
    /\ armed s' = [].
Proof.
  assert (Hok : forall i, (i < 3)%nat ->
                  ioctl_at Faults.fourth_rejected (ioctl_calls boot + i)
                  = true).
  { intros i Hi. destruct i as [|[|[|i]]]; try reflexivity. lia. }
  assert (Hg : exists g,
             Sidereal.sidereal_hours (Sidereal.longitude Sidereal.defaults)
                                     (mk_timespec 1500000000 0)
             = Sidereal.Ends g)
    by (eexists; vm_compute; reflexivity).
  destruct Hg as (g & Hg).
  destruct (rejected_transfer_cuts_frame Faults.fourth_rejected
              Sidereal.defaults boot (mk_timespec 1500000000 0) g 3
              eq_refl Hg ltac:(lia) eq_refl Hok)
    as (s' & E & _ & Hc & Ha).
  exists s'. split; [exact E|]. split; [exact Hc | exact Ha].
Defined.

(** The loop of lines 232-233 does not end when the subtraction of
    24.0 leaves the value as it is: so with the option -l 1e25. *)
Lemma update_display_spins :
  let o := Sidereal.mk_options true false true
             (convert Ieee.binary32
                (round Ieee.binary64 10000000000000000000000000))
             15 true in
  exists s',
    Sidereal.update_display o (Scenario.healthy Scenario.on_time) boot
    = Spinning s'
    /\ wire s' = [] /\ armed s' = [].
Proof.
  cbv zeta. eexists. split; [lazy; reflexivity |]. split; reflexivity.
Qed.


(** ** The two [main] functions *)

Section SiderealMain.

Import Frames.
Local Open Scope Z_scope.

(** The process has exited with status 1 and the display was never
    written to. *)
Ltac fatal H := exfalso; apply H; lazy; reflexivity.

(** The sidereal clock writes to the display only when every option is
    known and every set-up call but [mlockall] has succeeded ([daemon]
    only when the program goes to the background): otherwise [main]
    exits with status 1 before the first transfer. *)
Theorem sidereal_main_needs_setup
    (atof : string -> fval) (h : host) (args : list (ascii * string))
    (callbacks : nat) (e : env) :
  wire (final (SiderealProgram.main atof h args callbacks e boot)) <> [] ->
  exists o,
    Sidereal.getopt_loop atof Sidereal.defaults args = Some o
    /\ (Sidereal.background o = true -> daemon_ok h = true)
    /\ sched_setscheduler_ok h = true
    /\ attr_init_ok h = true
    /\ attr_setdetachstate_ok h = true
    /\ attr_setschedpolicy_ok h = true
    /\ attr_setschedparam_ok h = true
    /\ timer_create_ok h = true
    /\ attr_destroy_ok h = true
    /\ open_ok h = true
    /\ flock_ok h = true
    /\ wr_mode_ok h = true
    /\ wr_bits_ok h = true
    /\ wr_speed_ok h = true.
Proof.
  unfold SiderealProgram.main.
  destruct (Sidereal.getopt_loop atof Sidereal.defaults args) as [o|];
    [|intros H; fatal H].
  unfold SiderealProgram.setup. intros H. exists o.
  split; [reflexivity|].
  destruct h as [ml sc op fl wm wb ws da ai ad ap asp tc de].
  cbn [mlockall_ok sched_setscheduler_ok open_ok flock_ok wr_mode_ok
       wr_bits_ok wr_speed_ok daemon_ok attr_init_ok attr_setdetachstate_ok
       attr_setschedpolicy_ok attr_setschedparam_ok timer_create_ok
       attr_destroy_ok] in *.
  assert (Hda : Sidereal.background o = true -> da = true).
  { intros Hb. rewrite Hb in H. destruct da; [reflexivity | fatal H]. }
  split; [exact Hda|].
  assert (Hpre : (if Sidereal.background o
                  then exit_unless da "daemon" else ret tt) = ret tt).
  { destruct (Sidereal.background o); [|reflexivity].
    rewrite (Hda eq_refl). reflexivity. }
  rewrite Hpre in H. clear Hpre Hda.
  destruct sc; [|fatal H]. destruct ai; [|fatal H].
  destruct ad; [|fatal H]. destruct ap; [|fatal H].
  destruct asp; [|fatal H]. destruct tc; [|fatal H].
  destruct de; [|fatal H].
  destruct ml;
    (destruct op; [|fatal H]); (destruct fl; [|fatal H]);
    (destruct wm; [|fatal H]); (destruct wb; [|fatal H]);
    (destruct ws; [|fatal H]); repeat split.
Qed.

Lemma sidereal_main_needs_setup_witness :
  exists o,
    Sidereal.getopt_loop (fun _ => Finite 0) Sidereal.defaults
                         CommandLine.west_blinking = Some o
    /\ flock_ok CommandLine.sound_host = true.
Proof.
  assert (H : wire (final (SiderealProgram.main (fun _ => Finite 0)
                             CommandLine.sound_host
                             CommandLine.west_blinking 0
                             (Scenario.healthy []) boot)) <> [])
    by (vm_compute; discriminate).
  destruct (sidereal_main_needs_setup _ _ _ _ _ H)
    as (o & E & _ & _ & _ & _ & _ & _ & _ & _ & _ & Hf & _).
  exists o. split; [exact E | exact Hf].
Defined.

End SiderealMain.

Section ClockMain.

Import Counting.
Local Open Scope Z_scope.

Lemma report_unless_costs (ok : bool) (msg : string) :
  costs (report_unless ok msg) 0 0.
Proof.
  intros e s. destruct ok; cbn [report_unless].
  - exists tt, s. unfold ret. repeat split; lia.
  - eexists. eexists. unfold perror. split; [reflexivity|].
    cbn [clock_calls ioctl_calls]. lia.
Qed.

Lemma clock_startup_costs (o : Clock.options) : costs (Clock.startup o) 0 5.
Proof.
  unfold Clock.startup.
  change 5%nat with (1 + (1 + (1 + (1 + 1))))%nat.
  repeat (apply (costs_bind _ _ 0 1 0);
          [apply clock_write_reg_costs | intros _]).
  apply clock_write_reg_costs.
Qed.

Lemma clock_setup_costs (h : host) :
  open_ok h = true -> flock_ok h = true ->
  costs (ClockProgram.setup h) 0 0.
Proof.
  intros Ho Hf. unfold ClockProgram.setup. rewrite Ho, Hf.
  cbn [exit_unless].
  repeat (apply (costs_bind _ _ 0 0 0 0);
          [first [apply report_unless_costs | apply costs_ret] | intros _]).
  apply report_unless_costs.
Qed.

(** The civil clock exits, with status 1 and before it has written to
    the display, exactly when an option is not known or [open] or
    [flock] fails.  In every other case it goes on through all its
    passes, whatever else fails ([mlockall], [sched_setscheduler], the
    SPI configuration, [daemon], the clock or the SPI transfers): it
    attempts the five transfers of the start-up and the nine of a frame
    in every pass whose tenth differs from the one before. *)
Theorem clock_main_exits_iff
    (h : host) (args : list (ascii * string)) (passes : nat) (e : env) :
  let run := ClockProgram.main h args passes e boot in
  (exited run = true
   <-> Clock.getopt_loop Clock.defaults args = None
       \/ open_ok h = false \/ flock_ok h = false)
  /\ (exited run = true -> ioctl_calls (final run) = 0%nat)
  /\ (exited run = false ->
      clock_calls (final run) = passes
      /\ ioctl_calls (final run)
         = (5 + 9 * ClockProgram.redraws e 0 passes
                      ClockProgram.first_last_tenth)%nat).
Proof.
  cbv zeta. unfold ClockProgram.main.
  destruct (Clock.getopt_loop Clock.defaults args) as [o|].
  2:{ split; [split; [intros _; left; reflexivity | reflexivity]|].
      split; [reflexivity | intros H; discriminate H]. }
  destruct (open_ok h) eqn:Ho.
  2:{ assert (E : (ClockProgram.setup h ;; Clock.startup o ;;
                   Clock.main_loop passes o ClockProgram.first_last_tenth)
                    e boot
                  = Exited 1 (final ((ClockProgram.setup h) e boot))
                    /\ ioctl_calls (final ((ClockProgram.setup h) e boot))
                       = 0%nat).
      { unfold ClockProgram.setup. rewrite Ho.
        destruct (mlockall_ok h), (sched_setscheduler_ok h);
          split; reflexivity. }
      destruct E as [E E0]. rewrite E. cbn [exited final].
      split; [split; [intros _; right; left; reflexivity | reflexivity]|].
      split; [intros _; exact E0 | intros H; discriminate H]. }
  destruct (flock_ok h) eqn:Hf.
  2:{ assert (E : (ClockProgram.setup h ;; Clock.startup o ;;
                   Clock.main_loop passes o ClockProgram.first_last_tenth)
                    e boot
                  = Exited 1 (final ((ClockProgram.setup h) e boot))
                    /\ ioctl_calls (final ((ClockProgram.setup h) e boot))
                       = 0%nat).
      { unfold ClockProgram.setup. rewrite Ho, Hf.
        destruct (mlockall_ok h), (sched_setscheduler_ok h);
          split; reflexivity. }
      destruct E as [E E0]. rewrite E. cbn [exited final].
      split; [split; [intros _; right; right; reflexivity | reflexivity]|].
      split; [intros _; exact E0 | intros H; discriminate H]. }
  destruct (clock_setup_costs h Ho Hf e boot) as ([] & s1 & E1 & C1 & I1).
  destruct (clock_startup_costs o e s1) as ([] & s2 & E2 & C2 & I2).
  destruct (main_loop_costs e o passes ClockProgram.first_last_tenth s2)
    as (t & s3 & E3 & C3 & I3).
  erewrite bind_running by exact E1.
  erewrite bind_running by exact E2.
  rewrite E3. cbn [exited final].
  split.
  - split; [intros H; discriminate H|].
    intros [H|[H|H]]; discriminate H.
  - split; [intros H; discriminate H|]. intros _.
    cbn [boot clock_calls ioctl_calls] in C1, I1.
    assert (Ec : clock_calls s2 = 0%nat) by lia.
    rewrite Ec in *. split; lia.
Qed.

Lemma clock_main_exits_iff_witness :
  exited (ClockProgram.main Faults.device_busy CommandLine.dim_24h 3
            Scenario.no_spi boot) = true
  /\ exited (ClockProgram.main Faults.barely CommandLine.dim_24h 3
               Scenario.no_spi boot) = false.
Proof.
  split.
  - apply (proj1 (clock_main_exits_iff Faults.device_busy
                    CommandLine.dim_24h 3 Scenario.no_spi)).
    right. right. reflexivity.
  - destruct (exited (ClockProgram.main Faults.barely CommandLine.dim_24h 3
                        Scenario.no_spi boot)) eqn:E; [|reflexivity].
    destruct (proj1 (proj1 (clock_main_exits_iff Faults.barely
                              CommandLine.dim_24h 3 Scenario.no_spi)) E)
      as [H|[H|H]]; discriminate H.
Defined.

End ClockMain.

Section SiderealRun.

Import Frames.
Local Open Scope Z_scope.

Variable e : env.
Variable rd : nat -> timespec.
Hypothesis clock_ok : forall k, clock_at e k = Some (rd k).
Hypothesis ioctl_ok : forall k, ioctl_at e k = true.
Hypothesis timer_ok : forall k, timer_at e k = true.

Lemma sidereal_startup_sends (o : Sidereal.options) (s : sys) :
  Sidereal.startup o e s
  = Running tt
      (mk_sys (clock_calls s) (5 + ioctl_calls s) (timer_calls s)
              ([(MAX_REG_TEST, 0); (MAX_REG_TEST, 1);
                (MAX_REG_INTENSITY, uchar (Sidereal.brightness o));
                (MAX_REG_SCAN_LIMIT, 7); (MAX_REG_CONFIG, 33)] ++ wire s)
              (armed s) (stderr s)).
Proof.
  unfold Sidereal.startup.
  repeat (erewrite bind_running
            by (rewrite write_reg_cases, ioctl_ok; reflexivity);
          cbn [clock_calls ioctl_calls timer_calls wire armed stderr]).
  rewrite write_reg_cases, ioctl_ok. reflexivity.
Qed.

Lemma update_display_sends (o : Sidereal.options) (s : sys) :
  Sidereal.ends (Sidereal.sidereal_hours (Sidereal.longitude o)
                                         (rd (clock_calls s))) = true ->
  exists s' sent,
    Sidereal.update_display o e s = Running tt s'
    /\ clock_calls s' = S (S (clock_calls s))
    /\ ioctl_calls s' = (9 + ioctl_calls s)%nat
    /\ timer_calls s' = S (timer_calls s)
    /\ armed s' = Sidereal.wake_time (rd (S (clock_calls s))) :: armed s
    /\ rev (wire s') = rev (wire s) ++ sent
    /\ List.length sent = 9%nat
    /\ stderr s' = stderr s.
Proof.
  intros Hends. unfold Sidereal.update_display.
  erewrite bind_running
    by (unfold clock_gettime; rewrite clock_ok; reflexivity).
  cbn [fst snd]. erewrite bind_running by reflexivity.
  destruct (Sidereal.sidereal_hours (Sidereal.longitude o)
                                    (rd (clock_calls s))) as [g |];
    [| discriminate Hends].
  rewrite write_frame_is_write_all.
  erewrite bind_running by (apply (write_all_sends e ioctl_ok)).
  rewrite (schedule_timer_ok e rd clock_ok timer_ok).
  cbn [clock_calls ioctl_calls timer_calls wire armed stderr].
  eexists. eexists. split; [reflexivity|].
  cbn [clock_calls ioctl_calls timer_calls wire armed stderr].
  split; [reflexivity|]. split; [reflexivity|]. split; [reflexivity|].
  split; [reflexivity|].
  split; [rewrite rev_app_distr, rev_involutive; reflexivity|].
  split; reflexivity.
Qed.

Lemma updates_sends (o : Sidereal.options) (n : nat) :
  forall s,
    (forall i, (i < n)%nat ->
       Sidereal.ends (Sidereal.sidereal_hours
                        (Sidereal.longitude o)
                        (rd (clock_calls s + 2 * i)%nat)) = true) ->
    exists s' sent,
    Sidereal.updates n o e s = Running tt s'
    /\ clock_calls s' = (clock_calls s + 2 * n)%nat
    /\ ioctl_calls s' = (9 * n + ioctl_calls s)%nat
    /\ timer_calls s' = (n + timer_calls s)%nat
    /\ rev (wire s') = rev (wire s) ++ sent
    /\ List.length sent = (9 * n)%nat
    /\ stderr s' = stderr s.
Proof.
  induction n as [|n IH]; intros s Hends.
  - exists s, []. cbn [Sidereal.updates]. unfold ret.
    split; [reflexivity|]. rewrite app_nil_r. repeat split; lia.
  - destruct (update_display_sends o s)
      as (s1 & sent1 & E1 & C1 & I1 & T1 & _ & W1 & L1 & S1).
    { rewrite <- (Hends O) by lia. do 3 f_equal. lia. }
    destruct (IH s1) as (s2 & sent2 & E2 & C2 & I2 & T2 & W2 & L2 & S2).
    { intros i Hi. rewrite <- (Hends (S i)) by lia. do 3 f_equal. lia. }
    exists s2, (sent1 ++ sent2). cbn [Sidereal.updates].
    erewrite bind_running by exact E1. split; [exact E2|].
    split; [lia|]. split; [lia|]. split; [lia|].
    split; [rewrite W2, W1, app_assoc; reflexivity|].
    split; [rewrite length_app; lia | congruence].
Qed.

(** With known options, a set-up in which at most [mlockall] fails, and
    a clock, a display and a timer that work, the sidereal clock runs
    on: after the start-up, whose third transfer sets the intensity to
    the brightness of the options, the forced update and each timer
    callback, as long as the conversion of its reading ends, read the
    clock twice, send the nine pairs of a frame and arm the timer once,
    with the expiry computed from the second reading; a failed
    [mlockall] leaves one message and nothing else. *)
Theorem sidereal_main_runs
    (atof : string -> fval) (args : list (ascii * string))
    (o : Sidereal.options) (locked : bool) (callbacks : nat) :
  Sidereal.getopt_loop atof Sidereal.defaults args = Some o ->
  (forall i, (i < S callbacks)%nat ->
     Sidereal.ends (Sidereal.sidereal_hours (Sidereal.longitude o)
                                            (rd (2 * i)%nat)) = true) ->
  let h := mk_host locked true true true true true true true true true
                   true true true true in
  exists s' frames,
    SiderealProgram.main atof h args callbacks e boot = Running tt s'
    /\ rev (wire s')
       = [ (MAX_REG_CONFIG, 33); (MAX_REG_SCAN_LIMIT, 7);
           (MAX_REG_INTENSITY, Sidereal.brightness o);
           (MAX_REG_TEST, 1); (MAX_REG_TEST, 0) ] ++ frames
    /\ List.length frames = (9 * S callbacks)%nat
    /\ clock_calls s' = (2 * S callbacks)%nat
    /\ timer_calls s' = S callbacks
    /\ rev (armed s')
       = map Sidereal.wake_time (Spec.schedule_readings rd (S callbacks))
    /\ stderr s' = (if locked then [] else ["mlockall"%string]).
Proof.
  intros Hopt Hends. cbv zeta. unfold SiderealProgram.main. rewrite Hopt.
  assert (Hb : uchar (Sidereal.brightness o) = Sidereal.brightness o).
  { pose proof (sidereal_getopt_loop_closed atof args Sidereal.defaults) as Hc.
    rewrite Hopt in Hc.
    destruct (Options.all_known Options.sidereal_letters args);
      [|discriminate Hc].
    injection Hc as ->. cbn [Sidereal.brightness Sidereal.defaults].
    destruct (Options.last_arg "b" args) as [a|]; [|reflexivity].
    unfold Options.brightness_of.
    destruct (low_four_bits (atoi a)) as (Hu & _). rewrite !Hu. reflexivity. }
  set (s1 := mk_sys 0 0 0 [] []
               (if locked then [] else ["mlockall"%string])).
  assert (Hsetup : SiderealProgram.setup
                     (mk_host locked true true true true true true true true
                              true true true true true) o e boot
                   = Running tt s1).
  { unfold SiderealProgram.setup.
    cbn [mlockall_ok sched_setscheduler_ok open_ok flock_ok wr_mode_ok
         wr_bits_ok wr_speed_ok daemon_ok attr_init_ok attr_setdetachstate_ok
         attr_setschedpolicy_ok attr_setschedparam_ok timer_create_ok
         attr_destroy_ok].
    destruct (Sidereal.background o), locked; reflexivity. }
  erewrite bind_running by exact Hsetup.
  erewrite bind_running by apply sidereal_startup_sends.
  match goal with
  | |- context [Sidereal.updates ?n o e ?s2] =>
      destruct (updates_sends o n s2 Hends)
        as (s3 & sent & E3 & C3 & I3 & T3 & W3 & L3 & S3);
      destruct (updates_ok e rd clock_ok ioctl_ok timer_ok o n s2 Hends)
        as (s3' & E3' & _ & A3)
  end.
  rewrite E3 in E3'. injection E3' as <-.
  exists s3, sent. split; [exact E3|].
  cbn [clock_calls ioctl_calls timer_calls wire armed stderr s1] in *.
  split; [rewrite W3, Hb; reflexivity|].
  split; [exact L3|]. split; [lia|]. split; [lia|].
  split; [|exact S3].
  rewrite A3. cbn [rev app]. unfold Spec.schedule_readings.
  rewrite map_map. apply map_ext. intros i. f_equal.
Qed.

End SiderealRun.

Lemma sidereal_main_runs_witness :
  exists s' frames,
    SiderealProgram.main (fun _ => Finite (-122))
      (mk_host false true true true true true true true true true
               true true true true)
      CommandLine.west_blinking 2 (Scenario.healthy Scenario.on_time) boot
    = Running tt s'
    /\ rev (wire s')
       = [ (MAX_REG_CONFIG, 33); (MAX_REG_SCAN_LIMIT, 7);
           (MAX_REG_INTENSITY, 15);
           (MAX_REG_TEST, 1); (MAX_REG_TEST, 0) ] ++ frames
    /\ timer_calls s' = 3%nat.
Proof.
  destruct (sidereal_main_runs (Scenario.healthy Scenario.on_time)
              (Scenario.reading_of Scenario.on_time)
              (fun k => eq_refl) (fun k => eq_refl) (fun k => eq_refl)
              (fun _ => Finite (-122)) CommandLine.west_blinking _ false 2
              eq_refl)
    as (s' & frames & E & W & _ & _ & T & _).
  { intros i Hi.
    destruct i as [|[|[|i]]]; [vm_compute; reflexivity .. | lia]. }
  exists s', frames. split; [exact E|]. split; [exact W | exact T].
Defined.

(** ** The day and the time of day *)

Section TimeOfDay.

Import Sidereal.
Local Open Scope Q_scope.

(** The seconds of a reading, split into whole days and the second of
    the day. *)
Lemma seconds_split (now_spec : timespec) :
  inject_Z (tv_sec now_spec)
  == 86400 * inject_Z (tv_sec now_spec / 86400)
     + inject_Z (tv_sec now_spec mod 86400)
  /\ 0 <= inject_Z (tv_sec now_spec mod 86400)
  /\ inject_Z (tv_sec now_spec mod 86400) <= 86399.
Proof.
  pose proof (Z.div_mod (tv_sec now_spec) 86400 ltac:(lia)) as Hdm.
  pose proof (Z.mod_pos_bound (tv_sec now_spec) 86400 ltac:(lia)) as Hb.
  split; [|split].
  - rewrite Hdm at 1. rewrite inject_Z_plus, inject_Z_mult. reflexivity.
  - rewrite <- (Zle_Qle 0). lia.
  - rewrite <- (Zle_Qle _ 86399). lia.
Qed.

(** The exact hours of the day and centuries of a reading, by its
    fields. *)
Lemma time_of_day (now_spec : timespec) :
  (0 <= tv_sec now_spec)%Z -> (tv_sec now_spec <= 9223372036)%Z ->
  normalized now_spec ->
  let hours := (inject_Z (tv_sec now_spec mod 86400)
                + inject_Z (tv_nsec now_spec) / 1000000000) / 3600 in
  Almanac.H (Almanac.instant now_spec) == hours
  /\ Almanac.T 2451545 (Almanac.instant now_spec)
     == (inject_Z (tv_sec now_spec / 86400) - 10957.5 + hours / 24) / 36525.
Proof.
  intros Hlo Hhi Hn. cbv zeta.
  destruct (seconds_split now_spec) as (Esec & _).
  pose proof (instant_midnight now_spec Hn Hlo Hhi) as LM.
  unfold Almanac.day_of in LM.
  unfold Almanac.H, Almanac.T, Almanac.julian_date. rewrite LM.
  unfold Almanac.instant. rewrite Esec. split; field.
Qed.

(** From the Unix epoch on, the terms of the polynomial are those of the
    calendar: [D0] is the whole number of days since 1970-01-01 less
    10957.5 (the days to 2000-01-01T12:00), exactly; [H] is the time of
    day in hours, between 0 and 24 and within 3.2e-12 h of the exact
    one; and [T] is the two together in centuries of 36525 days, within
    4e-18. *)
Theorem terms_of_the_day (now_spec : timespec) :
  (0 <= tv_sec now_spec)%Z -> (nanos now_spec < 2 ^ 63)%Z ->
  normalized now_spec ->
  let now := fraction now_spec in
  let day := inject_Z (tv_sec now_spec / 86400) in
  let hours := (inject_Z (tv_sec now_spec mod 86400)
                + inject_Z (tv_nsec now_spec) / 1000000000) / 3600 in
  is_value (D0 now) (day - 10957.5)
  /\ exists h c : Q,
       is_value (H now) h
       /\ 0 <= h <= 24
       /\ Qabs (h - hours) <= 32 # 10000000000000
       /\ is_value (T now) c
       /\ Qabs (c - (day - 10957.5 + hours / 24) / 36525)
          <= 4 # 1000000000000000000.
Proof.
  intros Hlo Hkernel Hn. cbv zeta.
  assert (Hhi : (tv_sec now_spec <= 9223372036)%Z).
  { unfold nanos, normalized in *. lia. }
  destruct (fraction_value now_spec Hn Hlo Hhi) as (now & V & L & U & E & _).
  destruct (time_of_day now_spec Hlo Hhi Hn) as (EH & ET).
  split; [exact (D0_value now_spec Hlo Hhi (fraction now_spec) now V L U) |].
  destruct (H_value now_spec Hn Hlo Hhi (fraction now_spec) now V L U E)
    as (h & Vh & Bh & Eh & _).
  destruct (T_value now_spec Hn Hlo Hhi (fraction now_spec) now V L U E)
    as (c & Vc & _ & _ & Ec & _).
  exists h, c. split; [exact Vh |]. split; [exact Bh |].
  split; [rewrite <- EH; apply Qabs_Qle_condition; exact Eh |].
  split; [exact Vc |].
  rewrite <- ET. apply Qabs_Qle_condition. exact Ec.
Qed.

(** One nanosecond before midnight the hours of the day are rounded to
    24. *)
Lemma last_nanosecond_of_the_day :
  H (fraction (mk_timespec 1500076799 999999999)) = Finite 24.
Proof. vm_compute. reflexivity. Qed.

(** Within one UTC day after 2000-01-01T12:00, the Greenwich value
    never runs backwards, and it keeps pace with the clock: between two
    readings it gains at least 1.00273790935 hours for every hour that
    has passed, less the rounding of the two conversions, 8e-12 h. *)
Theorem gmst_gains_within_a_day (a b : timespec) :
  (946728000 <= tv_sec a)%Z ->
  (nanos a < 2 ^ 63)%Z -> (nanos b < 2 ^ 63)%Z ->
  normalized a -> normalized b ->
  (tv_sec a / 86400 = tv_sec b / 86400)%Z ->
  Almanac.instant a <= Almanac.instant b ->
  exists ga gb : Q,
    is_value (gmst (fraction a)) ga
    /\ is_value (gmst (fraction b)) gb
    /\ ga <= gb
    /\ 1.00273790935 * ((Almanac.instant b - Almanac.instant a) / 3600)
       - (8 # 1000000000000)
       <= gb - ga.
Proof.
  intros Hs Hka Hkb Ha Hb Hday Hab.
  assert (Hsa : (0 <= tv_sec a)%Z) by lia.
  assert (Hsb : (0 <= tv_sec b)%Z).
  { destruct (Z_lt_le_dec (tv_sec b) 0) as [Hneg|Hpos]; [|exact Hpos].
    exfalso.
    assert (tv_sec b / 86400 < 0)%Z
      by (apply Z.div_lt_upper_bound; lia).
    assert (0 <= tv_sec a / 86400)%Z by (apply Z.div_pos; lia).
    lia. }
  assert (Hha : (tv_sec a <= 9223372036)%Z)
    by (unfold nanos, normalized in *; lia).
  assert (Hhb : (tv_sec b <= 9223372036)%Z)
    by (unfold nanos, normalized in *; lia).
  destruct (fraction_value a Ha Hsa Hha) as (na & Va & La & Ua & Ea & Fa).
  destruct (fraction_value b Hb Hsb Hhb) as (nb & Vb & Lb & Ub & Eb & Fb).
  destruct (gmst_value a Ha Hsa Hha (fraction a) na Va La Ua Ea)
    as (ga & Vga & _ & Ega & Fga).
  destruct (gmst_value b Hb Hsb Hhb (fraction b) nb Vb Lb Ub Eb)
    as (gb & Vgb & _ & Egb & Fgb).
  exists ga, gb. split; [exact Vga |]. split; [exact Vgb |].
  split.
  { rewrite Fga, Fgb. unfold Almanac.day_of. rewrite <- Hday.
    apply gmst_at_monotone.
    - eapply Qle_trans; [| exact La].
      change 946728000 with (inject_Z 946728000). rewrite <- Zle_Qle.
      exact Hs.
    - rewrite Fa, Fb. apply now_monotone; try assumption; lia. }
  pose proof (instant_midnight a Ha Hsa Hha) as Ma.
  pose proof (instant_midnight b Hb Hsb Hhb) as Mb.
  unfold Almanac.day_of in Ma, Mb. rewrite <- Hday in Mb.
  destruct (instant_bounds a Ha) as [Ia _].
  assert (Hs' : 946728000 <= inject_Z (tv_sec a))
    by (change 946728000 with (inject_Z 946728000); rewrite <- Zle_Qle;
        exact Hs).
  assert (HT : Almanac.T 2451545 (Almanac.instant a)
               * Almanac.T 2451545 (Almanac.instant a)
               <= Almanac.T 2451545 (Almanac.instant b)
                  * Almanac.T 2451545 (Almanac.instant b)).
  { assert (H0 : 0 <= Almanac.T 2451545 (Almanac.instant a)).
    { unfold Almanac.T, Almanac.julian_date. by_inverse. lra. }
    assert (H1 : Almanac.T 2451545 (Almanac.instant a)
                 <= Almanac.T 2451545 (Almanac.instant b)).
    { unfold Almanac.T, Almanac.julian_date. by_inverse. lra. }
    nra. }
  unfold Almanac.gmst_from, Almanac.polynomial, Almanac.D0, Almanac.H,
    Almanac.julian_date in Ega, Egb.
  revert HT Ega Egb.
  generalize (Almanac.T 2451545 (Almanac.instant a))
             (Almanac.T 2451545 (Almanac.instant b)).
  intros ta tb HT Ega Egb.
  revert Ma Mb Ega Egb.
  generalize (Almanac.last_midnight (Almanac.instant a))
             (Almanac.last_midnight (Almanac.instant b))
             (inject_Z (tv_sec a / 86400)).
  intros ma mb d Ma Mb Ega Egb.
  revert Hab HT Ma Mb Ega Egb.
  generalize (Almanac.instant a) (Almanac.instant b) (ta * ta) (tb * tb).
  intros ua ub sa sb Hab HT Ma Mb Ega Egb.
  by_inverse. lra.
Qed.

Lemma gmst_gains_within_a_day_witness :
  exists ga gb : Q,
    is_value (gmst (fraction (mk_timespec 1500000000 0))) ga
    /\ is_value (gmst (fraction (mk_timespec 1500003600 0))) gb
    /\ 1 <= gb - ga.
Proof.
  destruct (gmst_gains_within_a_day (mk_timespec 1500000000 0)
                                    (mk_timespec 1500003600 0))
    as (ga & gb & Va & Vb & _ & G).
  - simpl; lia.
  - vm_compute; reflexivity.
  - vm_compute; reflexivity.
  - unfold normalized; simpl; lia.
  - unfold normalized; simpl; lia.
  - reflexivity.
  - vm_compute; discriminate.
  - exists ga, gb. split; [exact Va |]. split; [exact Vb |].
    eapply Qle_trans; [| exact G]. vm_compute; discriminate.
Defined.

Lemma terms_of_the_day_witness :
  is_value (D0 (fraction (mk_timespec 1500000000 0))) (17361 - 10957.5).
Proof.
  assert (Hs : (0 <= tv_sec (mk_timespec 1500000000 0))%Z) by (simpl; lia).
  assert (Hk : (nanos (mk_timespec 1500000000 0) < 2 ^ 63)%Z)
    by (vm_compute; reflexivity).
  assert (Hn : normalized (mk_timespec 1500000000 0))
    by (unfold normalized; simpl; lia).
  pose proof (terms_of_the_day (mk_timespec 1500000000 0) Hs Hk Hn) as Ht.
  cbv zeta in Ht. exact (proj1 Ht).
Defined.

End TimeOfDay.


(** ** A pass of the civil clock *)

Section CivilPass.

Local Open Scope Z_scope.

(** A pass of the civil clock whose tenth has changed shows the local
    time of its reading.  For every clock reading and every broken-down
    local time of it (the second may be the leap second 60), when no
    transfer fails, the pass sends the decode-mode byte, the seven
    numerals of the digits 0 to 6 and the byte of digit 7, in this
    order; no byte is cut by the conversion to [unsigned char], and the
    numerals read as the displayed hour (1 to 12 in 12 hour mode, the
    hour of the day in 24 hour mode), the minute, the second and the
    tenth of the reading (0 when the digit is turned off). *)
Theorem civil_pass_shows_local_time
    (e : env) (o : Clock.options) (last_tenth : Z) (s : sys)
    (t : timespec) :
  (forall k, ioctl_at e k = true) ->
  clock_at e (clock_calls s) = Some t ->
  normalized t ->
  let lt := localtime_r e (tv_sec t) in
  let tenth_val := tv_nsec t / 100000000 in
  let h := fst (Clock.civil_hour (Clock.ampm o) (tm_hour lt)) in
  let pm := snd (Clock.civil_hour (Clock.ampm o) (tm_hour lt)) in
  0 <= tm_hour lt <= 23 ->
  0 <= tm_min lt <= 59 ->
  0 <= tm_sec lt <= 60 ->
  tenth_val <> last_tenth ->
  exists s' bytes,
    Clock.loop_body o last_tenth e s = Running tenth_val s'
    /\ rev (wire s')
       = rev (wire s)
         ++ (MAX_REG_DEC_MODE, Clock.decode_val o h)
            :: combine Display.digit_registers bytes
         ++ [(0x67, Clock.misc_val o pm)]
    /\ Display.shown bytes
       = Some (h, tm_min lt, tm_sec lt,
               if Clock.tenth o then tenth_val else 0)
    /\ (if Clock.ampm o then 1 <= h <= 12 else h = tm_hour lt).
Proof.
  intros Hok Hclock Hn. cbv zeta. intros Hhour Hmin Hsec Hchange.
  assert (Ht : 0 <= tv_nsec t / 100000000 <= 9).
  { unfold normalized in Hn.
    assert (0 <= tv_nsec t / 100000000 < 10)
      by (split; [apply Z.div_pos; lia | apply Z.div_lt_upper_bound; lia]).
    lia. }
  assert (Eu : uint (Z.quot (tv_nsec t) (100 * 1000 * 1000))
               = tv_nsec t / 100000000).
  { unfold normalized in Hn. unfold uint.
    change (100 * 1000 * 1000) with 100000000.
    rewrite Z.quot_div_nonneg by lia. apply Z.mod_small. lia. }
  set (s1 := mk_sys (S (clock_calls s)) (ioctl_calls s) (timer_calls s)
                    (wire s) (armed s) (stderr s)).
  destruct (civil_frame_bytes e o (localtime_r e (tv_sec t))
              (tv_nsec t / 100000000) s1 Hok Hhour Hmin Hsec Ht)
    as (bytes & Hw & Hs & Hh).
  match type of Hw with
  | context [Clock.write_frame ?o ?h ?pm ?lt ?tv e s1] =>
      destruct (clock_write_frame_costs o h pm lt tv e s1)
        as ([] & s2 & E2 & _)
  end.
  rewrite E2 in Hw. cbn [final] in Hw.
  exists s2, bytes.
  split; [|split; [exact Hw | split; [exact Hs | exact Hh]]].
  unfold Clock.loop_body.
  erewrite bind_running
    by (unfold clock_gettime; rewrite Hclock; reflexivity).
  cbn [fst snd]. erewrite bind_running by reflexivity.
  erewrite bind_running by reflexivity.
  cbv zeta. rewrite Eu.
  destruct (Z.eqb_spec (tv_nsec t / 100000000) last_tenth) as [E|N];
    [contradiction|].
  cbn [negb]. fold s1. erewrite bind_running by exact E2. reflexivity.
Qed.

Lemma civil_pass_shows_local_time_witness :
  exists s' bytes,
    Clock.loop_body Clock.defaults 12
      (Scenario.healthy [mk_timespec 309 300000000]) boot = Running 3 s'
    /\ Display.shown bytes = Some (12, 5, 9, 3)
    /\ rev (wire s')
       = (MAX_REG_DEC_MODE, 0x7f) :: combine Display.digit_registers bytes
         ++ [(0x67, 0x76)].
Proof.
  pose proof (civil_pass_shows_local_time
                (Scenario.healthy [mk_timespec 309 300000000])
                Clock.defaults 12 boot (mk_timespec 309 300000000)
                (fun k => eq_refl) eq_refl
                ltac:(unfold normalized; simpl; lia)) as H.
  cbv zeta in H.
  destruct (H ltac:(vm_compute; split; discriminate)
              ltac:(vm_compute; split; discriminate)
              ltac:(vm_compute; split; discriminate)
              ltac:(vm_compute; discriminate))
    as (s' & bytes & E & Hw & Hs & _).
  exists s', bytes. split; [exact E|]. split; [exact Hs | exact Hw].
Defined.

End CivilPass.

(** ** The signal handlers *)

Section Cleanup.

Local Open Scope Z_scope.

(** On SIGINT or SIGTERM either program attempts one transfer, the
    shut-down command (configuration register, data 0), and exits with
    status 1 whether or not the transfer was accepted; the command
    reaches the display exactly when it was. *)
Theorem cleanup_shuts_down (e : env) (s : sys) :
  (exists s',
      ClockProgram.cleanup e s = Exited 1 s'
      /\ ioctl_calls s' = S (ioctl_calls s)
      /\ wire s' = if ioctl_at e (ioctl_calls s)
                   then (MAX_REG_CONFIG, 0) :: wire s else wire s)
  /\ (exists s',
      SiderealProgram.cleanup e s = Exited 1 s'
      /\ ioctl_calls s' = S (ioctl_calls s)
      /\ wire s' = if ioctl_at e (ioctl_calls s)
                   then (MAX_REG_CONFIG, 0) :: wire s else wire s).
Proof.
  split.
  - unfold ClockProgram.cleanup, Clock.write_reg, bind, spi_transfer, exit.
    destruct (ioctl_at e (ioctl_calls s));
      eexists; (split; [reflexivity|]); split; reflexivity.
  - unfold SiderealProgram.cleanup, bind.
    rewrite write_reg_cases.
    destruct (ioctl_at e (ioctl_calls s));
      eexists; (split; [reflexivity|]); split; reflexivity.
Qed.

End Cleanup.
